(** * llms-fetcher: the freshness engine of [src/index.js]

    A shallow embedding of the second (TTL-aware) revision of
    [src/index.js]: [fetchTextFile], [fetchTextFileWithMetadata],
    [saveLlmsTextToFile], [msUntilNextRunAt], [joinUrl], [readJsonSafe],
    [writeJsonSafe] and [ensureFreshLlmsFile], followed by the properties
    the specification states about them.

    Conventions of the embedding.
    - A JavaScript number is a [number]: [NaN], the two infinities, or a
      finite value carried as a rational.  The arithmetic of the program
      rounds every result to binary64 ([round53]); [Number] on a string
      rounds the value of the literal ([binary64]).  A negative zero is not
      told from zero.  Time values are integers and the date arithmetic on
      them is exact.
    - A string is its UTF-8 text.
    - The file system is a finite map from resolved paths to file texts,
      together with an oracle telling which [mkdirSync] / [writeFileSync]
      calls throw, and whether a failing write had opened the file.
    - The network is a deterministic server: a function from the requests
      seen so far and the current request to a reply, and an oracle telling
      when a request timer fires first.  Every [client.get] is appended to
      the request log of the world.
    - A call is followed until its promise settles.  A promise that follows
      redirects is computed with fuel: one unit per HTTP request.  Running
      out of fuel is the outcome [Unsettled]. *)

From Stdlib Require Import ZArith QArith Qround Qcanon String Ascii List Bool Lia.
From stdpp Require Import base option gmap strings pretty.

Import ListNotations.
Set Warnings "-register-all".
Local Open Scope Z_scope.
Local Open Scope string_scope.

(** ** JavaScript numbers *)

Inductive number : Type :=
| NaN
| PosInfinity
| NegInfinity
| Finite (q : Q).

Definition Qltb (a b : Q) : bool := negb (Qle_bool b a).
Definition Qzerob (a : Q) : bool := Qeq_bool a 0.

Definition ofZ (z : Z) : number := Finite (inject_Z z).

(** [Number.isFinite(x)] *)
Definition Number_isFinite (x : number) : bool :=
  match x with Finite _ => true | _ => false end.

(** [Number.isNaN(x)] *)
Definition Number_isNaN (x : number) : bool :=
  match x with NaN => true | _ => false end.

(** ToBoolean on a number: [0] and [NaN] are falsy. *)
Definition number_truthy (x : number) : bool :=
  match x with
  | NaN => false
  | Finite q => negb (Qzerob q)
  | _ => true
  end.

(** *** Rounding to binary64 *)

(** Whether [2^k <= n/d]. *)
Definition pow2_le (k : Z) (n d : positive) : bool :=
  (Zpos d * 2 ^ Z.max 0 k <=? Zpos n * 2 ^ Z.max 0 (- k))%Z.

(** The [k] with [2^k <= n/d < 2^(k+1)]. *)
Definition floor_log2 (n d : positive) : Z :=
  let k := Z.log2 (Zpos n) - Z.log2 (Zpos d) in
  if pow2_le k n d then k else k - 1.

(** The integer nearest to [a/b], the even one of two that are equally
    near. *)
Definition round_half_even (a b : Z) : Z :=
  let k := a / b in
  match (2 * (a mod b) ?= b)%Z with
  | Lt => k
  | Gt => k + 1
  | Eq => if Z.even k then k else k + 1
  end.

(** The multiple of [2^e] nearest to [n/d]. *)
Definition round_at (e : Z) (n d : positive) : Q :=
  Qred (round_half_even (Zpos n * 2 ^ Z.max 0 (- e)) (Zpos d * 2 ^ Z.max 0 e)
        * 2 ^ Z.max 0 e
        # Z.to_pos (2 ^ Z.max 0 (- e))).

(** [n/d] rounded to 53 significant bits, to nearest and ties to even;
    [Infinity] from [2^1024] on.  With [subnormals] the exponent of the
    last bit is at least [-1074], as in binary64. *)
Definition nearest_pos (subnormals : bool) (n d : positive) : number :=
  let e := floor_log2 n d - 52 in
  let v := round_at (if subnormals then Z.max e (-1074) else e) n d in
  if Qle_bool (inject_Z (2 ^ 1024)) v then PosInfinity else Finite v.

(** [- x] *)
Definition negate (x : number) : number :=
  match x with
  | NaN => NaN
  | PosInfinity => NegInfinity
  | NegInfinity => PosInfinity
  | Finite q => Finite (- q)
  end.

Definition nearest (subnormals : bool) (x : Q) : number :=
  match Qnum (Qred x) with
  | Z0 => Finite 0
  | Zpos n => nearest_pos subnormals n (Qden (Qred x))
  | Zneg n => negate (nearest_pos subnormals n (Qden (Qred x)))
  end.

(** The binary64 value nearest to [x]: what a numeric literal denotes. *)
Definition binary64 : Q -> number := nearest true.

(** The result of an arithmetic operation whose exact value is [x].  The
    difference of two binary64 values, and the product of one by a whole
    number, is a multiple of [2^-1074]: below [2^-1022] it is a binary64
    value itself, and from there on [binary64] rounds it to 53 bits.  No
    operation of this program underflows, and none is modelled to. *)
Definition round53 : Q -> number := nearest false.

(** [a - b] *)
Definition number_sub (a b : number) : number :=
  match a, b with
  | NaN, _ | _, NaN => NaN
  | PosInfinity, PosInfinity => NaN
  | NegInfinity, NegInfinity => NaN
  | PosInfinity, _ => PosInfinity
  | NegInfinity, _ => NegInfinity
  | Finite _, PosInfinity => NegInfinity
  | Finite _, NegInfinity => PosInfinity
  | Finite x, Finite y => round53 (x - y)
  end.

(** [a * b]; the program multiplies by [60] and [1000] only. *)
Definition number_mul (a b : number) : number :=
  match a, b with
  | Finite x, Finite y => round53 (x * y)
  | NaN, _ | _, NaN => NaN
  | Finite x, PosInfinity | PosInfinity, Finite x =>
      if Qzerob x then NaN else if Qltb x 0 then NegInfinity else PosInfinity
  | Finite x, NegInfinity | NegInfinity, Finite x =>
      if Qzerob x then NaN else if Qltb x 0 then PosInfinity else NegInfinity
  | PosInfinity, PosInfinity | NegInfinity, NegInfinity => PosInfinity
  | PosInfinity, NegInfinity | NegInfinity, PosInfinity => NegInfinity
  end.

(** [a < b]; any comparison with [NaN] is false. *)
Definition number_lt (a b : number) : bool :=
  match a, b with
  | NaN, _ | _, NaN => false
  | _, NegInfinity => false
  | PosInfinity, _ => false
  | NegInfinity, _ => true
  | Finite _, PosInfinity => true
  | Finite x, Finite y => Qltb x y
  end.

(** [Math.floor(x)] *)
Definition Math_floor (x : number) : number :=
  match x with
  | Finite q => ofZ (Qfloor q)
  | other => other
  end.

(** [Math.max(a, b)]; [NaN] if either argument is [NaN]. *)
Definition Math_max (a b : number) : number :=
  match a, b with
  | NaN, _ | _, NaN => NaN
  | _, _ => if number_lt a b then b else a
  end.

(** ** JSON documents and JavaScript values *)

Inductive json : Type :=
| JNull
| JBool (b : bool)
| JNumber (n : number)
| JString (s : string)
| JArray (items : list json)
| JObject (fields : list (string * json)).

(** A JavaScript value as this program meets it: [undefined] ([None]) or
    a value that came out of [JSON.parse] or out of a response header. *)
Definition value : Type := option json.

(** ToBoolean *)
Definition truthy (v : value) : bool :=
  match v with
  | None => false
  | Some JNull => false
  | Some (JBool b) => b
  | Some (JNumber n) => number_truthy n
  | Some (JString s) => negb (String.eqb s "")
  | Some (JArray _) => true
  | Some (JObject _) => true
  end.

(** [v || null] *)
Definition or_null (v : value) : json :=
  match v with
  | Some j => if truthy v then j else JNull
  | None => JNull
  end.

(** A response header as a value: present headers are strings. *)
Definition header (h : option string) : value := JString <$> h.

Fixpoint assoc (k : string) (fields : list (string * json)) : value :=
  match fields with
  | [] => None
  | (k', v) :: rest => if String.eqb k k' then Some v else assoc k rest
  end.

(** [m.k] for one of the keys [etag], [lastModified], [lastFetchedAtMs]:
    an own property of a parsed object, [undefined] on anything else
    (numbers, strings, booleans and arrays have no such property). *)
Definition prop (m : json) (k : string) : value :=
  match m with
  | JObject fields => assoc k fields
  | _ => None
  end.

(** What [JSON.parse(JSON.stringify(v, null, 2))] gives back: the
    serialiser prints a non-finite number as [null]. *)
Fixpoint JSON_roundtrip (v : json) : json :=
  match v with
  | JNumber n => if Number_isFinite n then v else JNull
  | JArray items => JArray (map JSON_roundtrip items)
  | JObject fields =>
      JObject (map (fun kv => (fst kv, JSON_roundtrip (snd kv))) fields)
  | _ => v
  end.

(** ** Strings *)

(** [s.endsWith('/')] *)
Fixpoint endsWith_slash (s : string) : bool :=
  match s with
  | EmptyString => false
  | String c rest =>
      match rest with
      | EmptyString => Ascii.eqb c "/"
      | String _ _ => endsWith_slash rest
      end
  end.

(** [s.slice(0, -1)] *)
Fixpoint slice_0_minus1 (s : string) : string :=
  match s with
  | EmptyString => EmptyString
  | String c rest =>
      match rest with
      | EmptyString => EmptyString
      | String _ _ => String c (slice_0_minus1 rest)
      end
  end.

(** [s.replace(/\/$/, '')]: without the [m] flag [$] matches at the end of
    the input only, so at most the last character is removed. *)
Definition replace_trailing_slash (s : string) : string :=
  if endsWith_slash s then slice_0_minus1 s else s.

(** [s.split(':')] *)
Fixpoint split_colon_aux (s : string) (cur : string) : list string :=
  match s with
  | EmptyString => [cur]
  | String c rest =>
      if Ascii.eqb c ":" then cur :: split_colon_aux rest ""
      else split_colon_aux rest (cur ++ String c "")
  end.

Definition split_colon (s : string) : list string := split_colon_aux s "".

Definition is_digit (c : ascii) : bool :=
  let n := nat_of_ascii c in (48 <=? n)%nat && (n <=? 57)%nat.

Definition digit_value (c : ascii) : Z := Z.of_nat (nat_of_ascii c) - 48.

Fixpoint all_digits (s : string) : bool :=
  match s with
  | EmptyString => true
  | String c rest => is_digit c && all_digits rest
  end.

Fixpoint decimal_value (acc : Z) (s : string) : Z :=
  match s with
  | EmptyString => acc
  | String c rest => decimal_value (10 * acc + digit_value c) rest
  end.

(** *** [Number] on a string *)

(** The white space and line terminators of [StrWhiteSpaceChar], as the
    bytes of their UTF-8 encodings. *)
Definition white_space_1 (a : nat) : bool :=
  ((9 <=? a) && (a <=? 13) || (a =? 32))%nat.

Definition white_space_2 (a b : nat) : bool :=
  ((a =? 194) && (b =? 160))%nat.                       (* U+00A0 *)

Definition white_space_3 (a b c : nat) : bool :=
  ((a =? 225) && (b =? 154) && (c =? 128)               (* U+1680 *)
   || (a =? 226) && (b =? 128)
      && ((128 <=? c) && (c <=? 138)                    (* U+2000 .. U+200A *)
          || (c =? 168) || (c =? 169) || (c =? 175))    (* U+2028, U+2029, U+202F *)
   || (a =? 226) && (b =? 129) && (c =? 159)            (* U+205F *)
   || (a =? 227) && (b =? 128) && (c =? 128)            (* U+3000 *)
   || (a =? 239) && (b =? 187) && (c =? 191))%nat.      (* U+FEFF *)

Fixpoint trim_start (s : string) : string :=
  match s with
  | EmptyString => s
  | String c1 r1 =>
      if white_space_1 (nat_of_ascii c1) then trim_start r1
      else if (nat_of_ascii c1 <? 128)%nat then s
      else
        match r1 with
        | EmptyString => s
        | String c2 r2 =>
            if white_space_2 (nat_of_ascii c1) (nat_of_ascii c2) then trim_start r2
            else
              match r2 with
              | EmptyString => s
              | String c3 r3 =>
                  if white_space_3 (nat_of_ascii c1) (nat_of_ascii c2)
                                   (nat_of_ascii c3)
                  then trim_start r3 else s
              end
        end
  end.

Fixpoint trim_end (s : string) : string :=
  match s with
  | EmptyString => s
  | String c rest =>
      if String.eqb (trim_start s) "" then "" else String c (trim_end rest)
  end.

(** The text without leading and trailing white space. *)
Definition trim (s : string) : string := trim_end (trim_start s).

Definition sign_of (s : string) : bool * string :=
  match s with
  | String c rest =>
      if Ascii.eqb c "-" then (true, rest)
      else if Ascii.eqb c "+" then (false, rest)
      else (false, s)
  | EmptyString => (false, s)
  end.

(** The longest run of decimal digits [s] starts with, and the rest. *)
Fixpoint span_digits (s : string) : string * string :=
  match s with
  | String c rest =>
      if is_digit c
      then let '(ds, r) := span_digits rest in (String c ds, r)
      else (EmptyString, s)
  | EmptyString => (EmptyString, EmptyString)
  end.

(** The value of an [ExponentPart], [0] without one. *)
Definition exponent_of (s : string) : option Z :=
  match s with
  | EmptyString => Some 0
  | String c rest =>
      if Ascii.eqb c "e" || Ascii.eqb c "E" then
        let '(neg, ds) := sign_of rest in
        if negb (String.eqb ds "") && all_digits ds
        then Some (if neg then - decimal_value 0 ds else decimal_value 0 ds)
        else None
      else None
  end.

(** [m * 10^k] *)
Definition scale10 (m k : Z) : Q :=
  if (0 <=? k)%Z then inject_Z (m * 10 ^ k) else m # Z.to_pos (10 ^ (- k)).

(** The mathematical value of a [StrUnsignedDecimalLiteral] other than
    [Infinity]. *)
Definition decimal_literal (s : string) : option Q :=
  let '(ip, r1) := span_digits s in
  let '(fp, r2) := match r1 with
                   | String c r => if Ascii.eqb c "." then span_digits r
                                   else (EmptyString, r1)
                   | EmptyString => (EmptyString, r1)
                   end in
  if String.eqb ip "" && String.eqb fp "" then None
  else
    ex ← exponent_of r2;
    Some (scale10 (decimal_value 0 (ip ++ fp)) (ex - Z.of_nat (String.length fp))).

Definition radix_digit (radix : Z) (c : ascii) : option Z :=
  let n := Z.of_nat (nat_of_ascii c) in
  let v := if (48 <=? n)%Z && (n <=? 57)%Z then n - 48
           else if (97 <=? n)%Z && (n <=? 102)%Z then n - 87
           else if (65 <=? n)%Z && (n <=? 70)%Z then n - 55
           else radix in
  if (v <? radix)%Z then Some v else None.

Fixpoint radix_value (radix acc : Z) (s : string) : option Z :=
  match s with
  | EmptyString => Some acc
  | String c rest =>
      v ← radix_digit radix c; radix_value radix (radix * acc + v) rest
  end.

(** The value of a [NonDecimalIntegerLiteral]: [0x], [0o] or [0b] and at
    least one digit. *)
Definition radix_literal (s : string) : option Z :=
  match s with
  | String z (String p (String d ds)) =>
      if Ascii.eqb z "0" then
        let radix := if Ascii.eqb p "x" || Ascii.eqb p "X" then 16
                     else if Ascii.eqb p "o" || Ascii.eqb p "O" then 8
                     else if Ascii.eqb p "b" || Ascii.eqb p "B" then 2
                     else 0 in
        if (radix =? 0)%Z then None else radix_value radix 0 (String d ds)
      else None
  | _ => None
  end.

(** [Number(s)] on a string (StringToNumber): white space is trimmed, the
    empty text is [0], a numeric literal is its value rounded to
    binary64, and any other text is [NaN]. *)
Definition Number_of_string (s : string) : number :=
  let text := trim s in
  if String.eqb text "" then ofZ 0
  else
    match radix_literal text with
    | Some z => binary64 (inject_Z z)
    | None =>
        let '(neg, u) := sign_of text in
        if String.eqb u "Infinity" then if neg then NegInfinity else PosInfinity
        else
          match decimal_literal u with
          | Some q => if neg then negate (binary64 q) else binary64 q
          | None => NaN
          end
    end.

(** ** Errors and promises *)

Inductive error : Type := Error (message : string).

Definition message_of (e : error) : string :=
  match e with Error m => m end.

(** The state in which an asynchronous call is observed.  [Unsettled]:
    the promise has not settled, because the fuel given to the redirect
    loop ran out or because nothing is left that could settle it.
    [Uncaught e]: [new URL(location, parsed)] threw [e] inside a response
    callback, outside any promise; the promise never settles. *)
Inductive promise (A : Type) : Type :=
| Fulfilled (a : A)
| Rejected (e : error)
| Unsettled
| Uncaught (e : error).

Arguments Fulfilled {A} a.
Arguments Rejected {A} e.
Arguments Unsettled {A}.
Arguments Uncaught {A} e.

(** ** The URL class of the platform *)

(** The part of the WHATWG [URL] class the program uses.  [new_URL s] is
    [None] when the constructor throws. *)
Class UrlApi : Type := {
  URL : Type;
  new_URL : string -> option URL;
  new_URL_base : string -> URL -> option URL;
  url_protocol : URL -> string;
  url_hostname : URL -> string;
  url_port : URL -> string;
  url_pathname : URL -> string;
  url_search : URL -> string;
  url_set_pathname : URL -> string -> URL;
  url_toString : URL -> string
}.

(** ** The URL record of the URL Standard

    The record behind a [URL] object, its serializer and the [pathname]
    setter, which runs the basic URL parser from the path start state. *)
Module Whatwg.

Inductive url_path : Type :=
| OpaquePath (s : string)
| PathSegments (segments : list string).

Record url_record : Type := {
  scheme : string;
  username : string;
  password : string;
  host : option string;
  port : option string;
  path : url_path;
  query : option string;
  fragment : option string
}.

Definition with_path (u : url_record) (p : url_path) : url_record :=
  {| scheme := scheme u; username := username u; password := password u;
     host := host u; port := port u; path := p;
     query := query u; fragment := fragment u |}.

Definition is_special (s : string) : bool :=
  existsb (String.eqb s) ["ftp"; "file"; "http"; "https"; "ws"; "wss"].

(** The path percent-encode set, on the bytes of the UTF-8 text. *)
Definition in_path_percent_encode_set (c : ascii) : bool :=
  let n := nat_of_ascii c in
  ((n <=? 31) || (127 <=? n)
   || existsb (Nat.eqb n) [32; 34; 35; 60; 62; 63; 94; 96; 123; 125])%nat.

Definition hex_digit (n : nat) : ascii :=
  ascii_of_nat (if (n <? 10)%nat then 48 + n else 55 + n).

Definition percent_encode (c : ascii) : string :=
  let n := nat_of_ascii c in
  String "%" (String (hex_digit (n / 16)) (String (hex_digit (n mod 16)) "")).

Definition encode_path_char (c : ascii) : string :=
  if in_path_percent_encode_set c then percent_encode c else String c "".

Definition ascii_lower (c : ascii) : ascii :=
  let n := nat_of_ascii c in
  if ((65 <=? n) && (n <=? 90))%nat then ascii_of_nat (n + 32) else c.

Fixpoint lowercase (s : string) : string :=
  match s with
  | EmptyString => EmptyString
  | String c rest => String (ascii_lower c) (lowercase rest)
  end.

Definition single_dot (s : string) : bool :=
  existsb (String.eqb (lowercase s)) ["."; "%2e"].

Definition double_dot (s : string) : bool :=
  existsb (String.eqb (lowercase s)) [".."; ".%2e"; "%2e."; "%2e%2e"].

Definition ascii_alpha (c : ascii) : bool :=
  let n := nat_of_ascii (ascii_lower c) in ((97 <=? n) && (n <=? 122))%nat.

Definition windows_drive_letter (s : string) : bool :=
  match s with
  | String a (String b EmptyString) =>
      ascii_alpha a && (Ascii.eqb b ":" || Ascii.eqb b "|")
  | _ => false
  end.

Definition normalized_windows_drive_letter (s : string) : bool :=
  match s with
  | String a (String b EmptyString) => ascii_alpha a && Ascii.eqb b ":"
  | _ => false
  end.

(** Shorten a path. *)
Definition shorten (sch : string) (p : list string) : list string :=
  match p with
  | [seg] =>
      if String.eqb sch "file" && normalized_windows_drive_letter seg then p
      else []
  | _ => removelast p
  end.

(** The end of a segment in the path state; [sep] tells whether a
    separator, rather than the end of the input, ended it. *)
Definition end_segment (sch : string) (p : list string) (buffer : string)
    (sep : bool) : list string :=
  if double_dot buffer then
    if sep then shorten sch p else shorten sch p ++ [""]
  else if single_dot buffer then
    if sep then p else p ++ [""]
  else
    p ++ [match buffer, p with
          | String a (String _ EmptyString), [] =>
              if String.eqb sch "file" && windows_drive_letter buffer
              then String a (String ":" EmptyString) else buffer
          | _, _ => buffer
          end].

(** The path state of the basic URL parser, run with a state override:
    [?] and [#] are percent-encoded like other code points. *)
Fixpoint path_state (sch : string) (p : list string) (buffer input : string)
  : list string :=
  match input with
  | EmptyString => end_segment sch p buffer false
  | String c rest =>
      if Ascii.eqb c "/" || (is_special sch && Ascii.eqb c "\")
      then path_state sch (end_segment sch p buffer true) "" rest
      else path_state sch p (buffer ++ encode_path_char c) rest
  end.

Fixpoint remove_tab_newline (s : string) : string :=
  match s with
  | EmptyString => EmptyString
  | String c rest =>
      let n := nat_of_ascii c in
      if ((n =? 9) || (n =? 10) || (n =? 13))%nat then remove_tab_newline rest
      else String c (remove_tab_newline rest)
  end.

(** The path start state, with a state override, on an emptied path. *)
Definition path_start (u : url_record) (input : string) : list string :=
  match input with
  | EmptyString =>
      if is_special (scheme u) then path_state (scheme u) [] "" ""
      else match host u with
           | None => [""]
           | Some _ => []
           end
  | String c rest =>
      if Ascii.eqb c "/" || (is_special (scheme u) && Ascii.eqb c "\")
      then path_state (scheme u) [] "" rest
      else path_state (scheme u) [] "" input
  end.

(** The [pathname] setter. *)
Definition set_pathname (u : url_record) (value : string) : url_record :=
  match path u with
  | OpaquePath _ => u
  | PathSegments _ =>
      with_path u (PathSegments (path_start u (remove_tab_newline value)))
  end.

Fixpoint serialize_segments (l : list string) : string :=
  match l with
  | [] => ""
  | seg :: rest => "/" ++ seg ++ serialize_segments rest
  end.

(** The URL path serializer; the [pathname] getter. *)
Definition pathname (u : url_record) : string :=
  match path u with
  | OpaquePath s => s
  | PathSegments l => serialize_segments l
  end.

(** What the URL serializer puts before the path ... *)
Definition before_path (u : url_record) : string :=
  scheme u ++ ":"
  ++ match host u with
     | Some h =>
         "//"
         ++ (if negb (String.eqb (username u) "")
                || negb (String.eqb (password u) "")
             then username u
                  ++ (if String.eqb (password u) "" then ""
                      else ":" ++ password u)
                  ++ "@"
             else "")
         ++ h
         ++ match port u with
            | Some p => ":" ++ p
            | None => ""
            end
     | None =>
         match path u with
         | PathSegments (first :: _ :: _) =>
             if String.eqb first "" then "/." else ""
         | _ => ""
         end
     end.

(** ... and after it. *)
Definition after_path (u : url_record) : string :=
  match query u with
  | Some q => "?" ++ q
  | None => ""
  end
  ++ match fragment u with
     | Some f => "#" ++ f
     | None => ""
     end.

(** The URL serializer; [href] and [toString()]. *)
Definition href (u : url_record) : string :=
  before_path u ++ pathname u ++ after_path u.

Definition protocol (u : url_record) : string := scheme u ++ ":".
Definition hostname (u : url_record) : string := default "" (host u).
Definition port_of (u : url_record) : string := default "" (port u).
Definition search (u : url_record) : string :=
  match query u with
  | Some q => if String.eqb q "" then "" else "?" ++ q
  | None => ""
  end.

(** A code point that the path state appends to the buffer as it is. *)
Definition plain_path_char (sch : string) (c : ascii) : bool :=
  negb (in_path_percent_encode_set c)
  && negb (Ascii.eqb c "/" || (is_special sch && Ascii.eqb c "\")).

(** A path segment as the parser leaves it: no code point to encode, no
    separator, not a dot segment. *)
Definition stable_segment (sch : string) (seg : string) : bool :=
  forallb (plain_path_char sch) (list_ascii_of_string seg)
  && negb (single_dot seg) && negb (double_dot seg).

(** The segments without an empty last one. *)
Fixpoint drop_last_empty (l : list string) : list string :=
  match l with
  | [] => []
  | seg :: rest =>
      match rest with
      | [] => if String.eqb seg "" then [] else [seg]
      | _ :: _ => seg :: drop_last_empty rest
      end
  end.

End Whatwg.

(** A platform whose [URL] objects are URL records, read and written
    by the algorithms of the URL Standard. *)
Class UrlRecords `{U : UrlApi} : Type := {
  record_of : URL -> Whatwg.url_record;
  record_protocol :
    forall u, url_protocol u = Whatwg.protocol (record_of u);
  record_pathname :
    forall u, url_pathname u = Whatwg.pathname (record_of u);
  record_toString :
    forall u, url_toString u = Whatwg.href (record_of u);
  record_set_pathname :
    forall u value,
      record_of (url_set_pathname u value)
      = Whatwg.set_pathname (record_of u) value
}.

(** ** The file system *)

(** The text of a file.  [JsonDoc v] is the text [JSON.stringify(v, null, 2)]
    of a document [v]; [JSON.parse] reads it back as [v].  [TornJson n v]
    is what a write of that text, for an object [v], leaves when it fails
    after [n] bytes: a proper prefix of the text, which [JSON.parse]
    rejects.  Any other text is a [Text], which [JSON.parse] may or may
    not accept. *)
Inductive file : Type :=
| Text (s : string)
| JsonDoc (v : json)
| TornJson (written : nat) (v : json).

(** What a write that fails after [written] bytes leaves of [data]. *)
Definition torn (written : nat) (data : file) : file :=
  match data with
  | Text s => Text (String.substring 0 written s)
  | JsonDoc v => TornJson written v
  | TornJson n v => TornJson (Nat.min written n) v
  end.

(** How [fs.writeFileSync] fails.  It opens the file with flag ['w'],
    which creates or truncates it, and then writes: a failure to open
    leaves the file as it was, a failure to write leaves the bytes written
    before it, which are fewer than the data has. *)
Inductive write_failure : Type :=
| OpenFails (e : error)
| WriteFails (e : error) (written : nat).

Definition error_of (f : write_failure) : error :=
  match f with
  | OpenFails e => e
  | WriteFails e _ => e
  end.

(** ** The network *)

Record request : Type := {
  rq_protocol : string;
  rq_hostname : string;
  rq_port : string;
  rq_path : string;
  rq_user_agent : string;
  rq_if_none_match : value;      (* absent when [None] *)
  rq_if_modified_since : value   (* absent when [None] *)
}.

(** What comes back for one [client.get]: a response with its status
    line, the headers the program looks at and the whole body; the
    headers of a [200] response whose connection is then lost before the
    body ends, so that the response emits neither ['end'] nor, having no
    listener for it, ['error']; an ['error'] event on the request; or
    nothing, the socket staying idle. *)
Inductive reply : Type :=
| Response (statusCode : Z) (location etag last_modified : option string)
           (body : string)
| BodyLost
| SocketError (e : error)
| NoReply.

(** ** The world a call runs in *)

Record world : Type := {
  files : gmap string file;
  requests : list request;       (* every [client.get] issued, in order *)
  warnings : list string         (* every [log.warn] message, in order *)
}.

(** What the program cannot control: the clock, the server, the request
    timers and the file-system calls that throw.  [timer_fires log] tells
    whether, once the requests of [log] have been issued, a request timer
    fires before the reply to the last of them settles the promise: the
    timer of that request, when the reply is late, or the timer of an
    earlier hop, whose connection a followed redirect has left idle.
    Reading an existing file does not fail.  [LocalTZA] is the offset of
    local time from UTC in milliseconds, taken to be constant: no
    daylight-saving transition falls between the instants involved. *)
Record Env : Type := {
  Date_now : Z;
  LocalTZA : Z;
  server : list request -> request -> reply;
  timer_fires : list request -> bool;
  mkdir_error : string -> option error;
  write_fault : string -> option write_failure
}.

(** The remaining platform functions: [JSON.parse] on arbitrary text,
    [path.resolve(process.cwd(), dir, file)], [path.dirname], and the text
    of a number in the message of a range error. *)
Class Platform : Type := {
  JSON_parse : string -> option json;
  path_resolve : string -> string -> string;
  path_dirname : string -> string;
  Number_inspect : number -> string
}.

Record Config : Type := {
  publicUrl : string;
  outputDir : string;
  outputFile : string;
  runAt : string;
  userAgent : string;
  timeoutMs : number;
  intervalHours : number;
  ttlHours : number
}.

Definition with_files (w : world) (fs : gmap string file) : world :=
  {| files := fs; requests := requests w; warnings := warnings w |}.

Definition with_requests (w : world) (rs : list request) : world :=
  {| files := files w; requests := rs; warnings := warnings w |}.

Definition warn (w : world) (msg : string) : world :=
  {| files := files w; requests := requests w;
     warnings := warnings w ++ [msg] |}.

(** [fs.existsSync(p)] *)
Definition existsSync (w : world) (p : string) : bool :=
  bool_decide (is_Some (files w !! p)).

(** [fs.mkdirSync(dirPath, { recursive: true })]: directories are not
    tracked; the call either throws or changes nothing observable. *)
Definition ensureDirectoryExists (E : Env) (dirPath : string) : option error :=
  mkdir_error E dirPath.

(** [fs.writeFileSync(p, data, 'utf8')]: the error thrown, if any, and
    the world the call leaves. *)
Definition writeFileSync (E : Env) (w : world) (p : string) (data : file)
  : option error * world :=
  match write_fault E p with
  | None => (None, with_files w (<[p := data]> (files w)))
  | Some (OpenFails e) => (Some e, w)
  | Some (WriteFails e written) =>
      (Some e, with_files w (<[p := torn written data]> (files w)))
  end.

Section Program.

Context `{U : UrlApi} `{P : Platform}.

Definition metadataFilePath (outputDir : string) : string :=
  path_resolve outputDir ".llms.meta.json".

(** [JSON.parse(fs.readFileSync(filePath, 'utf8'))]; [None] when either
    throws. *)
Definition read_json (w : world) (filePath : string) : option json :=
  match files w !! filePath with
  | None => None
  | Some (JsonDoc v) => Some v
  | Some (TornJson _ _) => None
  | Some (Text raw) => JSON_parse raw
  end.

(** [readJsonSafe]: the parsed document, or [null] when reading or
    parsing throws. *)
Definition readJsonSafe (w : world) (filePath : string) : json :=
  default JNull (read_json w filePath).

(** [writeJsonSafe]: both throwing calls sit inside [try { } catch {}]. *)
Definition writeJsonSafe (E : Env) (w : world) (filePath : string) (data : json)
  : world :=
  match ensureDirectoryExists E (path_dirname filePath) with
  | Some _ => w
  | None => snd (writeFileSync E w filePath (JsonDoc (JSON_roundtrip data)))
  end.

(** [joinUrl] *)
Definition joinUrl (base pathSuffix : string) : string :=
  match new_URL base with
  | Some u =>
      let pathname :=
        (if endsWith_slash (url_pathname u)
         then slice_0_minus1 (url_pathname u)
         else url_pathname u) ++ pathSuffix in
      url_toString (url_set_pathname u pathname)
  | None => replace_trailing_slash base ++ pathSuffix
  end.

(** *** Fetching *)

Record fetch_opts : Type := {
  o_userAgent : string;
  o_timeoutMs : number;
  o_etag : value;
  o_lastModified : value
}.

Record fetch_result : Type := {
  r_statusCode : Z;
  r_text : string;
  r_etag : json;
  r_lastModified : json
}.

Definition dquote : string := String (ascii_of_nat 34) EmptyString.

(** [client.get] throws at once, inside the promise executor, when the
    protocol is not the one of the chosen module: [https] is chosen for
    ['https:'] and [http] for everything else. *)
Definition client_rejects (protocol : string) : option error :=
  if String.eqb protocol "https:" || String.eqb protocol "http:" then None
  else Some (Error ("Protocol " ++ dquote ++ protocol ++ dquote ++
                    " not supported. Expected " ++ dquote ++ "http:" ++ dquote)).

(** The options object given to [client.get]; a conditional header is
    set only for a truthy validator. *)
Definition get_options (parsed : URL) (userAgent : string)
    (etag lastModified : value) : request :=
  {| rq_protocol := url_protocol parsed;
     rq_hostname := url_hostname parsed;
     rq_port := url_port parsed;
     rq_path := url_pathname parsed ++ url_search parsed;
     rq_user_agent := userAgent;
     rq_if_none_match := if truthy etag then etag else None;
     rq_if_modified_since := if truthy lastModified then lastModified else None |}.

(** What [req.setTimeout(timeoutMs, ...)] does: it throws a range error
    for a duration that is negative or not finite, sets no timer for [0],
    and arms the idle timer of the socket otherwise. *)
Inductive request_timer : Type :=
| TimerThrows (e : error)
| NoTimer
| Armed.

Definition out_of_range (msecs : number) : error :=
  Error ("The value of " ++ dquote ++ "msecs" ++ dquote
         ++ " is out of range. It must be a non-negative finite number. Received "
         ++ Number_inspect msecs).

Definition req_setTimeout (timeoutMs : number) : request_timer :=
  match timeoutMs with
  | Finite q =>
      if Qltb q 0 then TimerThrows (out_of_range timeoutMs)
      else if Qzerob q then NoTimer
      else Armed
  | _ => TimerThrows (out_of_range timeoutMs)
  end.

Definition is_armed (t : request_timer) : bool :=
  match t with Armed => true | _ => false end.

(** [req.destroy(new Error('Request timed out'))] *)
Definition timed_out : error := Error "Request timed out".

(** [status >= 300 && status < 400 && location]: the location to follow. *)
Definition redirect_location (status : Z) (location : option string)
  : option string :=
  if (300 <=? status)%Z && (status <? 400)%Z && truthy (header location)
  then location else None.

Definition status_error (status : Z) : error :=
  Error ("Request failed with status " ++ pretty status).

(** [fetchTextFile]: one unit of [fuel] per request.  The request has
    been sent when [req.setTimeout] is reached. *)
Fixpoint fetchTextFile (fuel : nat) (E : Env) (log : list request)
    (fileUrl : string) (userAgent : string) (timeout : number)
  : promise string * list request :=
  match new_URL fileUrl with
  | None => (Rejected (Error ("Invalid URL: " ++ fileUrl)), log)
  | Some parsed =>
      match client_rejects (url_protocol parsed) with
      | Some e => (Rejected e, log)
      | None =>
          match fuel with
          | O => (Unsettled, log)
          | S fuel' =>
              let rq := get_options parsed userAgent None None in
              let log' := (log ++ [rq])%list in
              match req_setTimeout timeout with
              | TimerThrows e => (Rejected e, log')
              | timer =>
                  if is_armed timer && timer_fires E log' then
                    (Rejected timed_out, log')
                  else
                    match server E log rq with
                    | SocketError e => (Rejected e, log')
                    | NoReply =>
                        if is_armed timer then (Rejected timed_out, log')
                        else (Unsettled, log')
                    | BodyLost => (Unsettled, log')
                    | Response status location _ _ body =>
                        match redirect_location status location with
                        | Some loc =>
                            (* Follow simple redirects *)
                            match new_URL_base loc parsed with
                            | None => (Uncaught (Error "Invalid URL"), log')
                            | Some target =>
                                fetchTextFile fuel' E log' (url_toString target)
                                              userAgent timeout
                            end
                        | None =>
                            if negb (status =? 200)%Z then
                              (Rejected (status_error status), log')
                            else (Fulfilled body, log')
                        end
                    end
              end
          end
      end
  end.

(** [fetchTextFileWithMetadata]: one unit of [fuel] per request. *)
Fixpoint fetchTextFileWithMetadata (fuel : nat) (E : Env) (log : list request)
    (fileUrl : string) (opts : fetch_opts)
  : promise fetch_result * list request :=
  match new_URL fileUrl with
  | None => (Rejected (Error ("Invalid URL: " ++ fileUrl)), log)
  | Some parsed =>
      match client_rejects (url_protocol parsed) with
      | Some e => (Rejected e, log)
      | None =>
          match fuel with
          | O => (Unsettled, log)
          | S fuel' =>
              let rq := get_options parsed (o_userAgent opts)
                                    (o_etag opts) (o_lastModified opts) in
              let log' := (log ++ [rq])%list in
              match req_setTimeout (o_timeoutMs opts) with
              | TimerThrows e => (Rejected e, log')
              | timer =>
                  if is_armed timer && timer_fires E log' then
                    (Rejected timed_out, log')
                  else
                    match server E log rq with
                    | SocketError e => (Rejected e, log')
                    | NoReply =>
                        if is_armed timer then (Rejected timed_out, log')
                        else (Unsettled, log')
                    | BodyLost => (Unsettled, log')
                    | Response status location etag last_modified body =>
                        match redirect_location status location with
                        | Some loc =>
                            match new_URL_base loc parsed with
                            | None => (Uncaught (Error "Invalid URL"), log')
                            | Some target =>
                                fetchTextFileWithMetadata fuel' E log'
                                  (url_toString target) opts
                            end
                        | None =>
                            if (status =? 304)%Z then
                              (* Not modified, return without body *)
                              (Fulfilled
                                 {| r_statusCode := 304; r_text := "";
                                    r_etag := or_null (o_etag opts);
                                    r_lastModified :=
                                      or_null (o_lastModified opts) |},
                               log')
                            else if negb (status =? 200)%Z then
                              (Rejected (status_error status), log')
                            else
                              (Fulfilled
                                 {| r_statusCode := 200; r_text := body;
                                    r_etag := or_null (header etag);
                                    r_lastModified :=
                                      or_null (header last_modified) |},
                               log')
                        end
                    end
              end
          end
      end
  end.

(** [saveLlmsTextToFile] *)
Definition saveLlmsTextToFile (fuel : nat) (E : Env) (w : world)
    (sourceUrl outDir outFile userAgent : string) (timeout : number)
  : promise string * world :=
  match fetchTextFile fuel E (requests w) sourceUrl userAgent timeout with
  | (Fulfilled text, log) =>
      let w1 := with_requests w log in
      match ensureDirectoryExists E outDir with
      | Some e => (Rejected e, w1)
      | None =>
          let outPath := path_resolve outDir outFile in
          match writeFileSync E w1 outPath (Text text) with
          | (Some e, w2) => (Rejected e, w2)
          | (None, w2) => (Fulfilled outPath, w2)
          end
      end
  | (Rejected e, log) => (Rejected e, with_requests w log)
  | (Unsettled, log) => (Unsettled, with_requests w log)
  | (Uncaught e, log) => (Uncaught e, with_requests w log)
  end.

(** *** Scheduling *)

Definition msPerDay : Z := 24 * 60 * 60 * 1000.
Definition msPerHour : Z := 60 * 60 * 1000.
Definition msPerMinute : Z := 60 * 1000.

(** A time value is an integer number of milliseconds since the epoch,
    or [None] for an invalid date (time value [NaN]). *)
Definition TimeClip (t : Z) : option Z :=
  if (Z.abs t <=? 8640000000000000)%Z then Some t else None.

(** ToIntegerOrInfinity of a date argument; a non-finite argument makes
    the date invalid. *)
Definition to_integer (x : number) : option Z :=
  match x with
  | Finite q => Some (if Qltb q 0 then Qceiling q else Qfloor q)
  | _ => None
  end.

(** An integer that binary64 holds exactly, as do its neighbours. *)
Definition safe_integer (z : Z) : bool := (Z.abs z <? 2 ^ 53)%Z.

(** [MakeTime(hour, min, 0, 0)]; [None] where the engine, which works in
    binary64, would round a product or their sum. *)
Definition MakeTime (h m : Z) : option Z :=
  if safe_integer (h * msPerHour) && safe_integer (m * msPerMinute)
     && safe_integer (h * msPerHour + m * msPerMinute)
  then Some (h * msPerHour + m * msPerMinute)
  else None.

(** [d.setHours(hour, min, 0, 0)] on the date with time value [t]: the
    local day of [t], at [hour:min:00.000] local time.  The outer
    [option] is that of [MakeTime]. *)
Definition setHours (E : Env) (t : Z) (hour min : number) : option (option Z) :=
  match to_integer hour, to_integer min with
  | Some h, Some m =>
      time ← MakeTime h m;
      Some (TimeClip (((t + LocalTZA E) / msPerDay) * msPerDay + time
                      - LocalTZA E)%Z)
  | _, _ => Some None
  end.

(** [d.setDate(d.getDate() + 1)]: the same local time on the next
    calendar day. *)
Definition setDate_tomorrow (t : Z) : option Z := TimeClip (t + msPerDay).

(** [msUntilNextRunAt].  The outer [option] is that of [setHours]. *)
Definition msUntilNextRunAt (E : Env) (runAt : string) : option number :=
  let parts := split_colon runAt in
  let hh := Number_of_string (hd "" parts) in
  let mm := match tl parts with
            | [] => None                       (* [mm] is [undefined] *)
            | m :: _ => Some (Number_of_string m)
            end in
  if Number_isNaN hh || from_option Number_isNaN false mm then
    (* Default to 24h if invalid time *)
    Some (ofZ (24 * 60 * 60 * 1000))
  else
    let now := Date_now E in
    next ← setHours E now hh (default NaN mm);
    let next :=
      match next with
      | Some t => if (t <=? now)%Z then setDate_tomorrow t else Some t
      | None => None
      end in
    Some match next with
         | Some t => ofZ (t - now)
         | None => NaN
         end.

(** *** Freshness *)

(** [Math.max(0, Math.floor((Number.isFinite(ttlHours) ? ttlHours : 24)
    * 60 * 60 * 1000))] *)
Definition ttlMs_of (ttl : number) : number :=
  Math_max (ofZ 0)
    (Math_floor
       (number_mul
          (number_mul
             (number_mul (if Number_isFinite ttl then ttl else ofZ 24) (ofZ 60))
             (ofZ 60))
          (ofZ 1000))).

(** [readJsonSafe(metaPath) || {}] *)
Definition read_meta (w : world) (metaPath : string) : json :=
  let m := readJsonSafe w metaPath in
  if truthy (Some m) then m else JObject [].

(** [typeof meta.lastFetchedAtMs === 'number' ? meta.lastFetchedAtMs : 0] *)
Definition lastFetchedAtMs_of (meta : json) : number :=
  match prop meta "lastFetchedAtMs" with
  | Some (JNumber n) => n
  | _ => ofZ 0
  end.

(** [fileExists && lastFetchedAtMs && now - lastFetchedAtMs < ttlMs] *)
Definition is_fresh (fileExists : bool) (lastFetchedAtMs : number) (now : Z)
    (ttlMs : number) : bool :=
  fileExists && number_truthy lastFetchedAtMs
  && number_lt (number_sub (ofZ now) lastFetchedAtMs) ttlMs.

Definition meta_record (etag lastModified : json) (now : Z) : json :=
  JObject [("etag", etag); ("lastModified", lastModified);
           ("lastFetchedAtMs", JNumber (ofZ now))].

(** The [catch (err)] block of [ensureFreshLlmsFile]. *)
Definition serve_cached_or_throw (fileExists : bool) (outPath : string)
    (err : error) (w : world) : promise string * world :=
  (* If fetch fails but we have an existing file, keep serving it *)
  if fileExists then
    (Fulfilled outPath,
     warn w ("llms-fetcher ensureFresh: " ++ message_of err ++ " (serving cached)"))
  else (Rejected err, w).

Definition sourceUrl_of (config : Config) : string :=
  joinUrl (publicUrl config) "/llms.txt".

Definition outPath_of (config : Config) : string :=
  path_resolve (outputDir config) (outputFile config).

Definition metaPath_of (config : Config) : string :=
  metadataFilePath (outputDir config).

(** The options of the conditional request: the stored validators. *)
Definition conditional_opts (config : Config) (meta : json) : fetch_opts :=
  {| o_userAgent := userAgent config;
     o_timeoutMs := timeoutMs config;
     o_etag := prop meta "etag";
     o_lastModified := prop meta "lastModified" |}.

(** [ensureFreshLlmsFile] *)
Definition ensureFreshLlmsFile (fuel : nat) (E : Env) (config : Config)
    (w : world) : promise string * world :=
  if String.eqb (publicUrl config) "" then
    (Rejected (Error "publicUrl is required"), w)
  else
    let sourceUrl := sourceUrl_of config in
    let outPath := outPath_of config in
    let metaPath := metaPath_of config in
    let meta := read_meta w metaPath in
    let lastFetchedAtMs := lastFetchedAtMs_of meta in
    let ttlMs := ttlMs_of (ttlHours config) in
    let now := Date_now E in
    let fileExists := existsSync w outPath in
    if is_fresh fileExists lastFetchedAtMs now ttlMs then (Fulfilled outPath, w)
    else
      match fetchTextFileWithMetadata fuel E (requests w) sourceUrl
              (conditional_opts config meta) with
      | (Fulfilled resp, log) =>
          let w1 := with_requests w log in
          if (r_statusCode resp =? 304)%Z then
            (* Unchanged, just update timestamp *)
            (Fulfilled outPath,
             writeJsonSafe E w1 metaPath
               (meta_record (or_null (prop meta "etag"))
                            (or_null (prop meta "lastModified")) now))
          else
            match ensureDirectoryExists E (outputDir config) with
            | Some err => serve_cached_or_throw fileExists outPath err w1
            | None =>
                match writeFileSync E w1 outPath (Text (r_text resp)) with
                | (Some err, w2) =>
                    serve_cached_or_throw fileExists outPath err w2
                | (None, w2) =>
                    (Fulfilled outPath,
                     writeJsonSafe E w2 metaPath
                       (meta_record (or_null (Some (r_etag resp)))
                                    (or_null (Some (r_lastModified resp))) now))
                end
            end
      | (Rejected err, log) =>
          serve_cached_or_throw fileExists outPath err (with_requests w log)
      | (Unsettled, log) => (Unsettled, with_requests w log)
      | (Uncaught e, log) => (Uncaught e, with_requests w log)
      end.

(** The metadata as a call starting in [w] reads it, the outcome of its
    freshness test, and the conditional fetch it would make. *)
Definition stored_meta (config : Config) (w : world) : json :=
  read_meta w (metaPath_of config).

Definition fresh_now (E : Env) (config : Config) (w : world) : bool :=
  is_fresh (existsSync w (outPath_of config))
           (lastFetchedAtMs_of (stored_meta config w))
           (Date_now E) (ttlMs_of (ttlHours config)).

Definition conditional_fetch (fuel : nat) (E : Env) (config : Config)
    (w : world) : promise fetch_result * list request :=
  fetchTextFileWithMetadata fuel E (requests w) (sourceUrl_of config)
    (conditional_opts config (stored_meta config w)).

End Program.

(** ** A concrete platform for closed examples

    A small executable instance of the platform interfaces, used only to
    evaluate the program on concrete inputs.  Its URLs are the records of
    [Whatwg], read and written by the functions of [Whatwg]; only the parser
    is partial.  It agrees with the platform on the inputs the examples
    use: [http:] and [https:] URLs in lower case with a plain host, an
    optional numeric port and a path, query and fragment that need no
    escaping or dot-segment removal; URLs with another scheme and an
    opaque path of plain characters; absolute and path-absolute redirect
    targets; relative directory and file names without [.] and [..] under
    the working directory [/app]; whole numbers in error messages.  On
    inputs outside this fragment it answers [None] (the empty text, for a
    number) whatever the platform does. *)
Module Concrete.

Import Whatwg.

(** The longest prefix of [s] free of the characters [stop], and the rest. *)
Fixpoint span (stop : ascii -> bool) (s : string) : string * string :=
  match s with
  | EmptyString => (EmptyString, EmptyString)
  | String c rest =>
      if stop c then (EmptyString, s)
      else let '(a, b) := span stop rest in (String c a, b)
  end.

Definition one_of (cs : string) (c : ascii) : bool :=
  existsb (Ascii.eqb c) (list_ascii_of_string cs).

Definition all_chars (ok : ascii -> bool) (s : string) : bool :=
  forallb ok (list_ascii_of_string s).

Definition strip_prefix (p s : string) : option string :=
  if String.prefix p s
  then Some (substring (String.length p) (String.length s - String.length p) s)
  else None.

Definition scheme_of (s : string) : option (string * string) :=
  match strip_prefix "https://" s with
  | Some rest => Some ("https", rest)
  | None =>
      match strip_prefix "http://" s with
      | Some rest => Some ("http", rest)
      | None => None
      end
  end.

Definition default_port (sch : string) : string :=
  if String.eqb sch "https" then "443" else "80".

Definition lower_or_digit (c : ascii) : bool :=
  let n := nat_of_ascii c in
  ((97 <=? n) && (n <=? 122) || (48 <=? n) && (n <=? 57))%nat.

Definition host_char (c : ascii) : bool := lower_or_digit c || one_of ".-" c.

(** A printable character that needs no escaping in a query, a fragment
    or an opaque path. *)
Definition plain_char (c : ascii) : bool :=
  let n := nat_of_ascii c in
  ((33 <=? n) && (n <=? 126))%nat && negb (one_of "#<>?`'" c)
  && negb (Ascii.eqb c (ascii_of_nat 34)).

(** The segments of a path text. *)
Fixpoint split_slash (s cur : string) : list string :=
  match s with
  | EmptyString => [cur]
  | String c rest =>
      if Ascii.eqb c "/" then cur :: split_slash rest ""
      else split_slash rest (cur ++ String c "")
  end.

Definition segments_of (path_text : string) : list string :=
  match path_text with
  | String c rest => if Ascii.eqb c "/" then split_slash rest ""
                     else split_slash path_text ""
  | EmptyString => [""]
  end.

(** The text after [marker] at the start of [s], if [s] starts with it. *)
Definition after_marker (marker : ascii) (s : string) : option string :=
  match s with
  | String c rest => if Ascii.eqb c marker then Some rest else None
  | EmptyString => None
  end.

(** Path, query and fragment of the text after the authority. *)
Definition parse_tail (sch tail : string)
  : option (list string * option string * option string) :=
  let '(path_text, rest) := span (one_of "?#") tail in
  let '(query_text, frag_text) := span (one_of "#") rest in
  let segments := segments_of path_text in
  let q := after_marker "?" query_text in
  let f := after_marker "#" frag_text in
  if forallb (stable_segment sch) segments
     && all_chars plain_char (default "" q)
     && all_chars plain_char (default "" f)
  then Some (segments, q, f) else None.

Definition parse_port (sch colon_port : string) : option (option string) :=
  match colon_port with
  | EmptyString => Some None
  | String c digits =>
      if Ascii.eqb c ":" && all_digits digits then
        if String.eqb digits "" || String.eqb digits (default_port sch)
        then Some None
        else if negb (String.prefix "0" digits)
                && (decimal_value 0 digits <=? 65535)%Z
        then Some (Some digits) else None
      else None
  end.

Definition letter (c : ascii) : bool :=
  let n := nat_of_ascii (ascii_lower c) in ((97 <=? n) && (n <=? 122))%nat.

Definition scheme_char (c : ascii) : bool :=
  letter c || is_digit c || one_of "+-." c.

(** A URL with a scheme that is not special and an opaque path. *)
Definition parse_opaque (s : string) : option url_record :=
  let '(sch, rest) := span (one_of ":") s in
  match sch, rest with
  | String c _, String _ opaque =>
      if letter c && all_chars scheme_char sch
         && negb (is_special (lowercase sch))
         && negb (String.prefix "/" opaque)
         && all_chars plain_char opaque
      then Some {| scheme := lowercase sch; username := ""; password := "";
                   host := None; port := None; path := OpaquePath opaque;
                   query := None; fragment := None |}
      else None
  | _, _ => None
  end.

Definition parse (s : string) : option url_record :=
  match scheme_of s with
  | None => parse_opaque s
  | Some (sch, rest) =>
      let '(authority, tail) := span (one_of "/?#") rest in
      let '(h, colon_port) := span (one_of ":@") authority in
      prt ← parse_port sch colon_port;
      '(segments, q, f) ← parse_tail sch tail;
      if negb (String.eqb h "") && all_chars host_char h
      then Some {| scheme := sch; username := ""; password := "";
                   host := Some h; port := prt;
                   path := PathSegments segments; query := q; fragment := f |}
      else None
  end.

(** [new URL(reference, base)] for absolute and path-absolute references. *)
Definition parse_with_base (reference : string) (base : url_record)
  : option url_record :=
  match parse reference with
  | Some u => Some u
  | None =>
      if String.prefix "/" reference && negb (String.prefix "//" reference)
         && is_special (scheme base)
      then
        '(segments, q, f) ← parse_tail (scheme base) reference;
        Some {| scheme := scheme base; username := username base;
                password := password base; host := host base;
                port := port base;
                path := PathSegments segments; query := q; fragment := f |}
      else None
  end.

(** An [http(s)] URL without port, query and fragment. *)
Definition web (sch h : string) (segments : list string) : url_record :=
  {| scheme := sch; username := ""; password := ""; host := Some h;
     port := None; path := PathSegments segments;
     query := None; fragment := None |}.

#[export] Instance url_api : UrlApi := {|
  URL := url_record;
  new_URL := parse;
  new_URL_base := parse_with_base;
  url_protocol := protocol;
  url_hostname := hostname;
  url_port := port_of;
  url_pathname := pathname;
  url_search := search;
  url_set_pathname := set_pathname;
  url_toString := href
|}.

#[export] Instance url_records : @UrlRecords url_api := {|
  record_of := fun u : @URL url_api => (u : url_record);
  record_protocol := fun _ => eq_refl;
  record_pathname := fun _ => eq_refl;
  record_toString := fun _ => eq_refl;
  record_set_pathname := fun _ _ => eq_refl
|}.

(** [JSON.parse] on the literals [null], [true], [false], [{}], [[]] and
    on runs of digits without a leading zero. *)
Definition json_parse (raw : string) : option json :=
  if String.eqb raw "null" then Some JNull
  else if String.eqb raw "true" then Some (JBool true)
  else if String.eqb raw "false" then Some (JBool false)
  else if String.eqb raw "{}" then Some (JObject [])
  else if String.eqb raw "[]" then Some (JArray [])
  else if String.eqb raw "" then None
  else if all_digits raw && (negb (String.prefix "0" raw) || String.eqb raw "0")
  then Some (JNumber (binary64 (inject_Z (decimal_value 0 raw))))
  else None.

Definition resolve (dir name : string) : string := "/app/" ++ dir ++ "/" ++ name.

Fixpoint dirname_aux (s : string) (seen kept : string) : string :=
  match s with
  | EmptyString => kept
  | String c rest =>
      if Ascii.eqb c "/" then dirname_aux rest (seen ++ "/") seen
      else dirname_aux rest (seen ++ String c "") kept
  end.

Definition dirname (p : string) : string := dirname_aux p "" "".

(** The digits of a whole number in groups of three. *)
Fixpoint separate (digits : list ascii) (k : nat) : list ascii :=
  match digits with
  | [] => []
  | c :: rest =>
      if (k =? 3)%nat then "_"%char :: c :: separate rest 1
      else c :: separate rest (S k)
  end.

Definition with_separators (z : Z) : string :=
  (if (z <? 0)%Z then "-" else "")
  ++ string_of_list_ascii
       (rev (separate (rev (list_ascii_of_string (pretty (Z.abs z)))) 0)).

(** The text of a whole number below [10^21]: with separators when its
    magnitude exceeds [2^32]. *)
Definition inspect (x : number) : string :=
  match x with
  | NaN => "NaN"
  | PosInfinity => "Infinity"
  | NegInfinity => "-Infinity"
  | Finite q =>
      if (Zpos (Qden q) =? 1)%Z && (Z.abs (Qnum q) <? 10 ^ 21)%Z then
        if (2 ^ 32 <? Z.abs (Qnum q))%Z then with_separators (Qnum q)
        else pretty (Qnum q)
      else ""
  end.

#[export] Instance platform : Platform := {|
  JSON_parse := json_parse;
  path_resolve := resolve;
  path_dirname := dirname;
  Number_inspect := inspect
|}.

End Concrete.


(** ** Scenarios

    Concrete configurations, servers and worlds on the concrete platform,
    on which the program is evaluated below. *)
Module Scenario.

Import Concrete.

Definition config (ttl : number) : Config :=
  {| publicUrl := "https://example.com";
     outputDir := "public";
     outputFile := "llms.txt";
     runAt := "02:00";
     userAgent := "llms-fetcher/0.1";
     timeoutMs := ofZ 20000;
     intervalHours := ofZ 0;
     ttlHours := ttl |}.

Definition out_path : string := "/app/public/llms.txt".
Definition meta_path : string := "/app/public/.llms.meta.json".

(** 2023-11-14T22:13:20Z *)
Definition clock : Z := 1700000000000.

Definition env (srv : list request -> request -> reply) : Env :=
  {| Date_now := clock;
     LocalTZA := 0;
     server := srv;
     timer_fires := fun _ => false;
     mkdir_error := fun _ => None;
     write_fault := fun _ => None |}.

(** The same, with a metadata file that cannot be written. *)
Definition env_readonly_meta (srv : list request -> request -> reply) : Env :=
  {| Date_now := clock;
     LocalTZA := 0;
     server := srv;
     timer_fires := fun _ => false;
     mkdir_error := fun _ => None;
     write_fault := fun p =>
       if String.eqb p meta_path
       then Some (OpenFails (Error "EACCES: permission denied")) else None |}.

(** 2023-11-14T03:00:00Z, in a zone at UTC. *)
Definition three_am : Env :=
  {| Date_now := 1699930800000;
     LocalTZA := 0;
     server := fun _ _ => NoReply;
     timer_fires := fun _ => false;
     mkdir_error := fun _ => None;
     write_fault := fun _ => None |}.

Definition origin : list request -> request -> reply :=
  fun _ _ => Response 200 None (Some "abc") None "hello".

Definition unchanged : list request -> request -> reply :=
  fun _ _ => Response 304 None None None "".

Definition refusing : list request -> request -> reply :=
  fun _ _ => SocketError (Error "connect ECONNREFUSED").

(** A redirect whose [Location] is no URL. *)
Definition bad_redirect : list request -> request -> reply :=
  fun _ _ => Response 302 (Some "http://") None None "".

(** The headers of a reply, then the connection is lost. *)
Definition cut_off : list request -> request -> reply :=
  fun _ _ => BodyLost.

(** Two hosts redirecting to each other. *)
Definition ping_pong : list request -> request -> reply :=
  fun _ rq =>
    if String.eqb (rq_hostname rq) "a.test"
    then Response 302 (Some "http://b.test/llms.txt") None None ""
    else Response 302 (Some "http://a.test/llms.txt") None None "".


(** A disk that fills up ten bytes into the metadata file. *)
Definition env_torn_meta (srv : list request -> request -> reply) : Env :=
  {| Date_now := clock;
     LocalTZA := 0;
     server := srv;
     timer_fires := fun _ => false;
     mkdir_error := fun _ => None;
     write_fault := fun p =>
       if String.eqb p meta_path
       then Some (WriteFails (Error "ENOSPC: no space left on device") 10)
       else None |}.

(** The clock at [now], in a zone at UTC. *)
Definition env_at (now : Z) : Env :=
  {| Date_now := now;
     LocalTZA := 0;
     server := fun _ _ => NoReply;
     timer_fires := fun _ => false;
     mkdir_error := fun _ => None;
     write_fault := fun _ => None |}.

(** The configuration of a site at [url]. *)
Definition config_for (url : string) : Config :=
  {| publicUrl := url;
     outputDir := "public";
     outputFile := "llms.txt";
     runAt := "02:00";
     userAgent := "llms-fetcher/0.1";
     timeoutMs := ofZ 20000;
     intervalHours := ofZ 0;
     ttlHours := ofZ 24 |}.

(** The record of [https://example.com/docs/?v=1#top]. *)
Definition docs_url : Whatwg.url_record :=
  {| Whatwg.scheme := "https";
     Whatwg.username := "";
     Whatwg.password := "";
     Whatwg.host := Some "example.com";
     Whatwg.port := None;
     Whatwg.path := Whatwg.PathSegments ["docs"; ""];
     Whatwg.query := Some "v=1";
     Whatwg.fragment := Some "top" |}.

(** The request for [https://example.com/llms.txt]. *)
Definition llms_request (etag lastModified : value) : request :=
  get_options (web "https" "example.com" ["llms.txt"]) "llms-fetcher/0.1"
              etag lastModified.

Definition no_validators : fetch_opts :=
  {| o_userAgent := "llms-fetcher/0.1"; o_timeoutMs := ofZ 20000;
     o_etag := None; o_lastModified := None |}.

Definition empty_world : world :=
  {| files := ∅; requests := []; warnings := [] |}.

(** A cached copy fetched at time [last]. *)
Definition cached (last : Z) : world :=
  {| files := <[out_path := Text "old"]>
                (<[meta_path := JsonDoc (meta_record (JString "abc") JNull last)]> ∅);
     requests := [];
     warnings := [] |}.

(** Metadata without the content file. *)
Definition only_metadata (last : Z) : world :=
  {| files := <[meta_path := JsonDoc (meta_record (JString "abc") JNull last)]> ∅;
     requests := [];
     warnings := [] |}.

End Scenario.

(** * The callers: scheduler and command line

    [startDailyScheduler] with its [runOnce] and [resolveConfig] with
    [readPackageConfig] from [src/index.js], [parseArgs] and [main] from
    [bin/llms-fetcher.js]. *)

(** ** Loggers *)

(** A logger as the program probes it.  For each method: [None] when the
    logger has no such method; [Some r] when it has one, [r] telling
    whether the value the method returns is truthy. *)
Record Logger : Type := {
  log_info : option bool;
  log_error : option bool;
  log_log : option bool
}.

(** [console]: every method is there and returns [undefined]. *)
Definition console : Logger :=
  {| log_info := Some false; log_error := Some false; log_log := Some false |}.

(** One call of a logger method. *)
Inductive log_line : Type := Said (method : string) (msg : string).

(** [log.method?.(msg) || log.log(msg)], where [m] is the entry of
    [method]: the lines written, and the [TypeError] thrown when
    [log.log] has to be called and is not there. *)
Definition say (lg : Logger) (method : string) (m : option bool)
    (msg : string) (out : list log_line) : option error * list log_line :=
  let out1 := match m with
              | Some _ => (out ++ [Said method msg])%list
              | None => out
              end in
  match m with
  | Some true => (None, out1)
  | _ =>
      match log_log lg with
      | Some _ => (None, (out1 ++ [Said "log" msg])%list)
      | None => (Some (Error "log.log is not a function"), out1)
      end
  end.

Section Callers.

Context `{U : UrlApi} `{P : Platform}.

(** ** The scheduler *)

(** The [catch (err)] block of [runOnce]. *)
Definition runOnce_catch (lg : Logger) (err : error) (w : world)
    (out : list log_line) : promise unit * world * list log_line :=
  match say lg "error" (log_error lg)
            ("llms-fetcher error: " ++ message_of err) out with
  | (None, out') => (Fulfilled tt, w, out')
  | (Some e, out') => (Rejected e, w, out')
  end.

(** [runOnce] of [startDailyScheduler config log]. *)
Definition runOnce (fuel : nat) (E : Env) (config : Config) (lg : Logger)
    (w : world) (out : list log_line) : promise unit * world * list log_line :=
  let sourceUrl := joinUrl (publicUrl config) "/llms.txt" in
  match saveLlmsTextToFile fuel E w sourceUrl (outputDir config)
          (outputFile config) (userAgent config) (timeoutMs config) with
  | (Fulfilled savedPath, w') =>
      match say lg "info" (log_info lg)
                ("llms-fetcher: saved " ++ sourceUrl ++ " -> " ++ savedPath)
                out with
      | (None, out') => (Fulfilled tt, w', out')
      | (Some e, out') => runOnce_catch lg e w' out'
      end
  | (Rejected err, w') => runOnce_catch lg err w' out
  | (Unsettled, w') => (Unsettled, w', out)
  | (Uncaught e, w') => (Uncaught e, w', out)
  end.

(** The timers [startDailyScheduler] sets up. *)
Inductive schedule : Type :=
| RunNowThenEvery (intervalMs : number)
    (* [runOnce(); setInterval(runOnce, intervalMs)] *)
| RunAfterThenDaily (delay : number).
    (* [setTimeout(async () => { await runOnce();
        setInterval(runOnce, 24 * 60 * 60 * 1000) }, delay)] *)

(** [startDailyScheduler]: the error it throws or the timers it sets up.
    The outer [option] is that of [msUntilNextRunAt]. *)
Definition startDailyScheduler (E : Env) (config : Config)
  : option (error + schedule) :=
  if String.eqb (publicUrl config) "" then
    Some (inl (Error "publicUrl is required"))
  else if Number_isFinite (intervalHours config)
          && number_lt (ofZ 0) (intervalHours config) then
    (* Interval-based scheduling: run immediately, then every intervalHours *)
    Some (inr (RunNowThenEvery
                 (Math_max (ofZ 1)
                    (Math_floor
                       (number_mul
                          (number_mul
                             (number_mul (intervalHours config) (ofZ 60))
                             (ofZ 60))
                          (ofZ 1000))))))
  else
    delay ← msUntilNextRunAt E (runAt config);
    Some (inr (RunAfterThenDaily delay)).

(** ** The command line *)

(** The [cli] object [parseArgs] builds: [_] and the options; an option
    is [None] while unset and after a flag that came last, without a
    value. *)
Record Cli : Type := {
  cli_positional : list string;
  cli_publicUrl : option string;
  cli_outputDir : option string;
  cli_outputFile : option string;
  cli_runAt : option string;
  cli_userAgent : option string;
  cli_timeoutMs : option string;
  cli_dryRun : bool
}.

Definition empty_cli : Cli :=
  {| cli_positional := []; cli_publicUrl := None; cli_outputDir := None;
     cli_outputFile := None; cli_runAt := None; cli_userAgent := None;
     cli_timeoutMs := None; cli_dryRun := false |}.

Inductive value_flag : Type :=
| FlagPublicUrl | FlagOutputDir | FlagOutputFile
| FlagRunAt | FlagUserAgent | FlagTimeoutMs.

(** The flags that take the next argument as their value. *)
Definition value_flag_of (a : string) : option value_flag :=
  if String.eqb a "--public-url" || String.eqb a "-u" then Some FlagPublicUrl
  else if String.eqb a "--output-dir" || String.eqb a "-o" then Some FlagOutputDir
  else if String.eqb a "--output-file" || String.eqb a "-f" then Some FlagOutputFile
  else if String.eqb a "--run-at" || String.eqb a "-t" then Some FlagRunAt
  else if String.eqb a "--user-agent" then Some FlagUserAgent
  else if String.eqb a "--timeout-ms" then Some FlagTimeoutMs
  else None.

(** [cli.option = args[++i]] *)
Definition assign (f : value_flag) (v : option string) (cli : Cli) : Cli :=
  match f with
  | FlagPublicUrl =>
      {| cli_positional := cli_positional cli; cli_publicUrl := v;
         cli_outputDir := cli_outputDir cli; cli_outputFile := cli_outputFile cli;
         cli_runAt := cli_runAt cli; cli_userAgent := cli_userAgent cli;
         cli_timeoutMs := cli_timeoutMs cli; cli_dryRun := cli_dryRun cli |}
  | FlagOutputDir =>
      {| cli_positional := cli_positional cli; cli_publicUrl := cli_publicUrl cli;
         cli_outputDir := v; cli_outputFile := cli_outputFile cli;
         cli_runAt := cli_runAt cli; cli_userAgent := cli_userAgent cli;
         cli_timeoutMs := cli_timeoutMs cli; cli_dryRun := cli_dryRun cli |}
  | FlagOutputFile =>
      {| cli_positional := cli_positional cli; cli_publicUrl := cli_publicUrl cli;
         cli_outputDir := cli_outputDir cli; cli_outputFile := v;
         cli_runAt := cli_runAt cli; cli_userAgent := cli_userAgent cli;
         cli_timeoutMs := cli_timeoutMs cli; cli_dryRun := cli_dryRun cli |}
  | FlagRunAt =>
      {| cli_positional := cli_positional cli; cli_publicUrl := cli_publicUrl cli;
         cli_outputDir := cli_outputDir cli; cli_outputFile := cli_outputFile cli;
         cli_runAt := v; cli_userAgent := cli_userAgent cli;
         cli_timeoutMs := cli_timeoutMs cli; cli_dryRun := cli_dryRun cli |}
  | FlagUserAgent =>
      {| cli_positional := cli_positional cli; cli_publicUrl := cli_publicUrl cli;
         cli_outputDir := cli_outputDir cli; cli_outputFile := cli_outputFile cli;
         cli_runAt := cli_runAt cli; cli_userAgent := v;
         cli_timeoutMs := cli_timeoutMs cli; cli_dryRun := cli_dryRun cli |}
  | FlagTimeoutMs =>
      {| cli_positional := cli_positional cli; cli_publicUrl := cli_publicUrl cli;
         cli_outputDir := cli_outputDir cli; cli_outputFile := cli_outputFile cli;
         cli_runAt := cli_runAt cli; cli_userAgent := cli_userAgent cli;
         cli_timeoutMs := v; cli_dryRun := cli_dryRun cli |}
  end.

(** [cli.dryRun = true] *)
Definition set_dryRun (cli : Cli) : Cli :=
  {| cli_positional := cli_positional cli; cli_publicUrl := cli_publicUrl cli;
     cli_outputDir := cli_outputDir cli; cli_outputFile := cli_outputFile cli;
     cli_runAt := cli_runAt cli; cli_userAgent := cli_userAgent cli;
     cli_timeoutMs := cli_timeoutMs cli; cli_dryRun := true |}.

(** [cli._.push(a)] *)
Definition push (a : string) (cli : Cli) : Cli :=
  {| cli_positional := (cli_positional cli ++ [a])%list;
     cli_publicUrl := cli_publicUrl cli;
     cli_outputDir := cli_outputDir cli; cli_outputFile := cli_outputFile cli;
     cli_runAt := cli_runAt cli; cli_userAgent := cli_userAgent cli;
     cli_timeoutMs := cli_timeoutMs cli; cli_dryRun := cli_dryRun cli |}.

(** [a === 'run' || a === 'watch' || a === 'help' || a === '--help' ||
    a === '-h'] *)
Definition is_command (a : string) : bool :=
  String.eqb a "run" || String.eqb a "watch" || String.eqb a "help"
  || String.eqb a "--help" || String.eqb a "-h".

(** The loop of [parseArgs] over the arguments left, [inl a] standing
    for [console.error(`Unknown flag: ${a}`); process.exit(1)]. *)
Fixpoint parseArgs_loop (args : list string) (cli : Cli) : string + Cli :=
  match args with
  | [] => inr cli
  | a :: rest =>
      match value_flag_of a with
      | Some f =>
          match rest with
          | v :: rest' => parseArgs_loop rest' (assign f (Some v) cli)
          | [] => inr (assign f None cli)
          end
      | None =>
          if String.eqb a "--dry-run" then parseArgs_loop rest (set_dryRun cli)
          else if is_command a then parseArgs_loop rest (push a cli)
          else if String.prefix "-" a then inl a
          else parseArgs_loop rest (push a cli)
      end
  end.

(** [parseArgs] *)
Definition parseArgs (argv : list string) : string + Cli :=
  parseArgs_loop (skipn 2 argv) empty_cli.

(** ** Configuration *)

(** [a || b] *)
Definition js_or (a b : value) : value := if truthy a then a else b.

(** [pkgCfg && pkgCfg.k] *)
Definition pkg_field (pkgCfg : json) (k : string) : value :=
  if truthy (Some pkgCfg) then prop pkgCfg k else Some pkgCfg.

(** [Number] of an array element, as [ToPrimitive] presents it: the
    element turned into a string ([null] into the empty one) and that
    string into a number.  A number survives the round trip. *)
Fixpoint Number_of_element (j : json) : number :=
  match j with
  | JNull => ofZ 0
  | JBool _ => NaN
  | JNumber n => n
  | JString s => Number_of_string s
  | JArray [] => ofZ 0
  | JArray [x] => Number_of_element x
  | JArray (_ :: _ :: _) => NaN       (* the text has a comma *)
  | JObject _ => NaN                  (* ['[object Object]'] *)
  end.

(** [Number(v)] *)
Definition ToNumber (v : value) : number :=
  match v with
  | None => NaN
  | Some JNull => ofZ 0
  | Some (JBool b) => ofZ (if b then 1 else 0)
  | Some (JNumber n) => n
  | Some (JString s) => Number_of_string s
  | Some (JArray items) => Number_of_element (JArray items)
  | Some (JObject _) => NaN
  end.

(** [readPackageConfig], reading the file at
    [pkgPath = path.join(process.cwd(), 'package.json')]. *)
Definition readPackageConfig (w : world) (pkgPath : string) : json :=
  match read_json w pkgPath with
  | None => JNull
  | Some json => or_null (prop json "llmsFetcher")
  end.

(** What [resolveConfig] returns: the textual options as the values they
    resolve to, the numeric ones after [Number]. *)
Record Resolved : Type := {
  rs_publicUrl : value;
  rs_outputDir : value;
  rs_outputFile : value;
  rs_runAt : value;
  rs_userAgent : value;
  rs_timeoutMs : number;
  rs_intervalHours : number;
  rs_ttlHours : number
}.

(** [cli.k || env.K || (pkgCfg && pkgCfg.k) || dflt] *)
Definition resolve_option (cli : string -> value) (env : string -> option string)
    (pkgCfg : json) (k envk : string) (dflt : json) : value :=
  js_or (js_or (js_or (cli k) (JString <$> env envk)) (pkg_field pkgCfg k))
        (Some dflt).

(** [resolveConfig({ cli })] with [process.env = env]. *)
Definition resolveConfig (w : world) (pkgPath : string)
    (cli : string -> value) (env : string -> option string) : Resolved :=
  let pkgCfg := readPackageConfig w pkgPath in
  let opt := resolve_option cli env pkgCfg in
  {| rs_publicUrl := opt "publicUrl" "LLMS_PUBLIC_URL" (JString "");
     rs_outputDir := opt "outputDir" "LLMS_OUTPUT_DIR" (JString "public");
     rs_outputFile := opt "outputFile" "LLMS_OUTPUT_FILE" (JString "llms.txt");
     rs_runAt := opt "runAt" "LLMS_RUN_AT" (JString "02:00");
     rs_userAgent := opt "userAgent" "LLMS_USER_AGENT"
                         (JString "llms-fetcher/0.1");
     rs_timeoutMs :=
       ToNumber (opt "timeoutMs" "LLMS_TIMEOUT_MS" (JNumber (ofZ 20000)));
     rs_intervalHours :=
       ToNumber (opt "intervalHours" "LLMS_INTERVAL_HOURS" (JNumber (ofZ 0)));
     rs_ttlHours :=
       ToNumber (opt "ttlHours" "LLMS_TTL_HOURS" (JNumber (ofZ 24))) |}.

(** The properties of the [cli] object of [parseArgs] that [resolveConfig]
    reads; [parseArgs] sets neither [intervalHours] nor [ttlHours]. *)
Definition cli_object (c : Cli) (k : string) : value :=
  if String.eqb k "publicUrl" then JString <$> cli_publicUrl c
  else if String.eqb k "outputDir" then JString <$> cli_outputDir c
  else if String.eqb k "outputFile" then JString <$> cli_outputFile c
  else if String.eqb k "runAt" then JString <$> cli_runAt c
  else if String.eqb k "userAgent" then JString <$> cli_userAgent c
  else if String.eqb k "timeoutMs" then JString <$> cli_timeoutMs c
  else None.

(** ** [main] *)

(** The text of [printHelp]. *)
Definition help_text : string :=
"llms-fetcher - fetch and save llms.txt daily

Usage:
  llms-fetcher run [--public-url <url>] [--output-dir <dir>] [--output-file <name>]
  llms-fetcher watch [--run-at HH:MM] [--public-url <url>] [--output-dir <dir>] [--output-file <name>]

Config sources (by precedence): flags > env > package.json llmsFetcher > defaults

Environment variables:
  LLMS_PUBLIC_URL, LLMS_OUTPUT_DIR, LLMS_OUTPUT_FILE, LLMS_RUN_AT, LLMS_USER_AGENT, LLMS_TIMEOUT_MS
".

(** How [main] ends: [process.exit(code)]; the scheduler set up and the
    process left running (the timers of [s], its first run not yet
    made); an error thrown by [startDailyScheduler]; a fetch that has not
    settled within the fuel; an error thrown inside a response
    callback. *)
Inductive main_outcome : Type :=
| Exited (code : Z)
| Watching (s : schedule)
| SchedulerThrew (e : error)
| StillFetching
| MainUncaught (e : error).

(** [cli._.includes('help') || cli._.includes('--help') ||
    cli._.includes('-h')] *)
Definition wants_help (positional : list string) : bool :=
  existsb (String.eqb "help") positional
  || existsb (String.eqb "--help") positional
  || existsb (String.eqb "-h") positional.

(** [cli._.find((v) => v === 'run' || v === 'watch') || 'run'] *)
Definition mode_of (positional : list string) : string :=
  match List.find (fun v => String.eqb v "run" || String.eqb v "watch")
                  positional with
  | Some v => v
  | None => "run"
  end.

(** The resolved configuration with its textual options as strings;
    [None] when one of them is not a string, which only a
    [package.json] value can cause. *)
Definition to_Config (r : Resolved) : option Config :=
  match rs_publicUrl r, rs_outputDir r, rs_outputFile r,
        rs_runAt r, rs_userAgent r with
  | Some (JString url), Some (JString dir), Some (JString name),
    Some (JString at_), Some (JString ua) =>
      Some {| publicUrl := url; outputDir := dir; outputFile := name;
              runAt := at_; userAgent := ua;
              timeoutMs := rs_timeoutMs r;
              intervalHours := rs_intervalHours r;
              ttlHours := rs_ttlHours r |}
  | _, _, _, _, _ => None
  end.

(** [main] with [process.argv = argv] and [process.env = env]: how it
    ends, the world it leaves and what it wrote to the console.  [None]
    only where [to_Config] or, in [watch] mode, [startDailyScheduler]
    is. *)
Definition main (fuel : nat) (E : Env) (w : world) (pkgPath : string)
    (argv : list string) (env : string -> option string)
  : option (main_outcome * world * list log_line) :=
  match parseArgs argv with
  | inl a => Some (Exited 1, w, [Said "error" ("Unknown flag: " ++ a)])
  | inr cli =>
      if wants_help (cli_positional cli) then
        Some (Exited 0, w, [Said "log" help_text])
      else
        let mode := mode_of (cli_positional cli) in
        let resolved := resolveConfig w pkgPath (cli_object cli) env in
        if negb (truthy (rs_publicUrl resolved)) then
          Some (Exited 1, w,
                [Said "error" "Error: publicUrl is required. Pass --public-url or set LLMS_PUBLIC_URL or package.json llmsFetcher.publicUrl"])
        else
          config ← to_Config resolved;
          let sourceUrl := joinUrl (publicUrl config) "/llms.txt" in
          if String.eqb mode "run" then
            if cli_dryRun cli then
              Some (Exited 0, w,
                    [Said "log" ("Dry run: would fetch " ++ sourceUrl ++ " -> "
                                 ++ path_resolve (outputDir config)
                                                 (outputFile config))])
            else
              match saveLlmsTextToFile fuel E w sourceUrl (outputDir config)
                      (outputFile config) (userAgent config)
                      (timeoutMs config) with
              | (Fulfilled savedPath, w') =>
                  Some (Exited 0, w',
                        [Said "log" ("Saved " ++ sourceUrl ++ " -> " ++ savedPath)])
              | (Rejected err, w') =>
                  Some (Exited 1, w',
                        [Said "error" ("llms-fetcher error: " ++ message_of err)])
              | (Unsettled, w') => Some (StillFetching, w', [])
              | (Uncaught e, w') => Some (MainUncaught e, w', [])
              end
          else
            let out := [Said "log" ("Scheduling daily fetch at " ++ runAt config
                                    ++ " for " ++ sourceUrl)] in
            started ← startDailyScheduler E config;
            match started with
            | inl e => Some (SchedulerThrew e, w, out)
            | inr s => Some (Watching s, w, out)
            end
  end.

End Callers.

(** * Vocabulary of the properties *)

Section Vocabulary.

Context `{U : UrlApi} `{P : Platform}.

(** The metadata write of a call succeeds when neither [mkdirSync] on the
    directory of the metadata file nor [writeFileSync] on the file throws. *)
Definition meta_write_succeeds (E : Env) (config : Config) : Prop :=
  mkdir_error E (path_dirname (metaPath_of config)) = None
  /\ write_fault E (metaPath_of config) = None.

Definition meta_write_fails (E : Env) (config : Config) : Prop :=
  mkdir_error E (path_dirname (metaPath_of config)) <> None
  \/ write_fault E (metaPath_of config) <> None.

(** The metadata write fails before the file is opened: the directory
    cannot be created, or the file cannot be opened. *)
Definition meta_write_fails_early (E : Env) (config : Config) : Prop :=
  mkdir_error E (path_dirname (metaPath_of config)) <> None
  \/ exists e, write_fault E (metaPath_of config) = Some (OpenFails e).

(** The metadata write fails after [written] bytes. *)
Definition meta_write_fails_late (E : Env) (config : Config) (written : nat)
  : Prop :=
  mkdir_error E (path_dirname (metaPath_of config)) = None
  /\ exists e, write_fault E (metaPath_of config) = Some (WriteFails e written).

(** The stored validator under key [k] as the program takes it:
    [meta.k || null]. *)
Definition validator (meta : json) (k : string) : json := or_null (prop meta k).

(** A validator field as the data model has it: absent, [null] or a
    string. *)
Definition optional_string (v : value) : Prop :=
  match v with
  | None | Some JNull | Some (JString _) => True
  | _ => False
  end.

(** A TTL of at least one millisecond. *)
Definition ttl_positive (config : Config) : Prop :=
  number_lt (ofZ 0) (ttlMs_of (ttlHours config)) = true.

(** A duration that [req.setTimeout] accepts: finite and not negative. *)
Definition valid_timeout (t : number) : Prop :=
  exists q, t = Finite q /\ (0 <= q)%Q.


(** The timer of the request that brings the log to [log] is accepted
    and does not fire before the reply. *)
Definition in_time (E : Env) (timeout : number) (log : list request) : Prop :=
  valid_timeout timeout
  /\ (req_setTimeout timeout = Armed -> timer_fires E log = false).

(** A number above zero, and one below. *)
Definition positive_number (x : number) : Prop :=
  x = PosInfinity \/ exists v, x = Finite v /\ (0 < v)%Q.

Definition negative_number (x : number) : Prop :=
  x = NegInfinity \/ exists v, x = Finite v /\ (v < 0)%Q.


(** The record of an [http(s)] URL as the parser leaves it: a host, and
    a path of segments [l] without a code point to encode or a dot
    segment. *)
Definition web_record (r : Whatwg.url_record) (l : list string) : Prop :=
  (Whatwg.scheme r = "http" \/ Whatwg.scheme r = "https")
  /\ is_Some (Whatwg.host r)
  /\ Whatwg.path r = Whatwg.PathSegments l
  /\ forallb (Whatwg.stable_segment (Whatwg.scheme r)) l = true.



(** The local time of day, in milliseconds since local midnight. *)
Definition local_time_of_day (E : Env) (t : Z) : Z := (t + LocalTZA E) mod msPerDay.

End Vocabulary.

(** ** Further scenarios *)
Module CallerScenario.

Import Concrete Scenario.

(** A host that has moved: one redirect, then the text with validators. *)
Definition moved : list request -> request -> reply :=
  fun _ rq =>
    if String.eqb (rq_hostname rq) "a.test"
    then Response 301 (Some "https://b.test/llms.txt") None None ""
    else Response 200 None (Some "v2") (Some "Tue, 14 Nov 2023 22:00:00 GMT")
                  "moved text".

Definition with_etag : fetch_opts :=
  {| o_userAgent := "llms-fetcher/0.1"; o_timeoutMs := ofZ 20000;
     o_etag := Some (JString "abc"); o_lastModified := Some JNull |}.


(** A disk on which the content file cannot be written. *)
Definition env_full_disk (srv : list request -> request -> reply) : Env :=
  {| Date_now := clock;
     LocalTZA := 0;
     server := srv;
     timer_fires := fun _ => false;
     mkdir_error := fun _ => None;
     write_fault := fun p =>
       if String.eqb p out_path
       then Some (WriteFails (Error "ENOSPC: no space left on device") 2)
       else None |}.

(** A [publicUrl] without a scheme. *)
Definition config_without_scheme : Config :=
  {| publicUrl := "example.com";
     outputDir := "public";
     outputFile := "llms.txt";
     runAt := "02:00";
     userAgent := "llms-fetcher/0.1";
     timeoutMs := ofZ 20000;
     intervalHours := ofZ 0;
     ttlHours := ofZ 24 |}.

(** Every half hour. *)
Definition config_half_hourly : Config :=
  {| publicUrl := "https://example.com";
     outputDir := "public";
     outputFile := "llms.txt";
     runAt := "02:00";
     userAgent := "llms-fetcher/0.1";
     timeoutMs := ofZ 20000;
     intervalHours := Finite (1 # 2);
     ttlHours := ofZ 24 |}.

(** Every [hours] hours. *)
Definition config_every (hours : number) : Config :=
  {| publicUrl := "https://example.com";
     outputDir := "public";
     outputFile := "llms.txt";
     runAt := "02:00";
     userAgent := "llms-fetcher/0.1";
     timeoutMs := ofZ 20000;
     intervalHours := hours;
     ttlHours := ofZ 24 |}.


Definition package_json_path : string := "/app/package.json".

(** A project whose [package.json] sets [publicUrl] and a [ttlHours] of
    [0]. *)
Definition project : world :=
  {| files :=
       <[package_json_path :=
           JsonDoc (JObject
                      [("name", JString "site");
                       ("llmsFetcher",
                        JObject [("publicUrl", JString "https://example.com");
                                 ("ttlHours", JNumber (ofZ 0))])])]> ∅;
     requests := [];
     warnings := [] |}.

Definition no_env : string -> option string := fun _ => None.

Definition env_with_url : string -> option string :=
  fun k => if String.eqb k "LLMS_PUBLIC_URL"
           then Some "https://env.example" else None.

Definition env_with_half_hour_ttl : string -> option string :=
  fun k => if String.eqb k "LLMS_TTL_HOURS" then Some "0.5" else None.

(** [run --dry-run] *)
Definition dry_run : Cli :=
  {| cli_positional := ["run"];
     cli_publicUrl := None;
     cli_outputDir := None;
     cli_outputFile := None;
     cli_runAt := None;
     cli_userAgent := None;
     cli_timeoutMs := None;
     cli_dryRun := true |}.

(** [--timeout-ms abc] *)
Definition run_with_text_timeout : Cli :=
  {| cli_positional := ["run"];
     cli_publicUrl := None;
     cli_outputDir := None;
     cli_outputFile := None;
     cli_runAt := None;
     cli_userAgent := None;
     cli_timeoutMs := Some "abc";
     cli_dryRun := false |}.

Definition run_with_flags : Cli :=
  {| cli_positional := ["run"];
     cli_publicUrl := Some "https://example.com";
     cli_outputDir := Some "--dist";
     cli_outputFile := None;
     cli_runAt := None;
     cli_userAgent := Some "";
     cli_timeoutMs := Some "5000";
     cli_dryRun := true |}.

End CallerScenario.

(** * Further vocabulary *)

Section FurtherVocabulary.

Context `{U : UrlApi} `{P : Platform}.

(** A request as [fetchTextFileWithMetadata] builds it from [opts]: the
    configured user agent, a conditional header exactly for each truthy
    validator, and the [http:] or [https:] protocol. *)
Definition sent_with (opts : fetch_opts) (rq : request) : Prop :=
  rq_user_agent rq = o_userAgent opts
  /\ rq_if_none_match rq = (if truthy (o_etag opts) then o_etag opts else None)
  /\ rq_if_modified_since rq
     = (if truthy (o_lastModified opts) then o_lastModified opts else None)
  /\ (rq_protocol rq = "https:" \/ rq_protocol rq = "http:").

(** A request without conditional headers. *)
Definition unconditional (ua : string) (rq : request) : Prop :=
  rq_user_agent rq = ua
  /\ rq_if_none_match rq = None
  /\ rq_if_modified_since rq = None
  /\ (rq_protocol rq = "https:" \/ rq_protocol rq = "http:").

(** A validator as the program stores it: [null] or a non-empty string. *)
Definition null_or_nonempty (j : json) : Prop :=
  j = JNull \/ exists s, s <> "" /\ j = JString s.

(** What [fetchTextFile] makes of the outcome of
    [fetchTextFileWithMetadata]: a [304] is a failure, a [200] is its text. *)
Definition as_plain (p : promise fetch_result) : promise string :=
  match p with
  | Fulfilled r =>
      if (r_statusCode r =? 304)%Z then Rejected (status_error 304)
      else Fulfilled (r_text r)
  | Rejected e => Rejected e
  | Unsettled => Unsettled
  | Uncaught e => Uncaught e
  end.

(** The error, if any, of creating the output directory and writing the
    content file, in that order. *)
Definition content_write_error (E : Env) (config : Config) : option error :=
  match mkdir_error E (outputDir config) with
  | Some e => Some e
  | None => error_of <$> write_fault E (outPath_of config)
  end.

(** [ensureDirectoryExists(outputDir); fs.writeFileSync(outPath, text,
    'utf8')]: the error thrown, if any, and the world left. *)
Definition content_write (E : Env) (config : Config) (w : world)
    (text : string) : option error * world :=
  match ensureDirectoryExists E (outputDir config) with
  | Some e => (Some e, w)
  | None => writeFileSync E w (outPath_of config) (Text text)
  end.

(** The metadata file as the program leaves it: absent, or a document
    [{ etag, lastModified, lastFetchedAtMs }] whose validators are [null]
    or non-empty strings. *)
Definition metadata_well_formed (f : option file) : Prop :=
  f = None
  \/ exists a b t,
       f = Some (JsonDoc (meta_record a b t))
       /\ null_or_nonempty a /\ null_or_nonempty b.

(** The metadata file as a call can leave it: well formed, or the
    partial text of such a document, cut short by a failed write. *)
Definition metadata_sound (f : option file) : Prop :=
  metadata_well_formed f
  \/ exists n a b t,
       f = Some (TornJson n (meta_record a b t))
       /\ null_or_nonempty a /\ null_or_nonempty b.

(** The outcomes of a call, by the path taken through the function. *)
Inductive call_path (fuel : nat) (E : Env) (config : Config) (w : world)
  : promise string * world -> Prop :=
| path_unconfigured :
    publicUrl config = "" ->
    call_path fuel E config w (Rejected (Error "publicUrl is required"), w)
| path_fresh :
    fresh_now E config w = true ->
    call_path fuel E config w (Fulfilled (outPath_of config), w)
| path_rejected err log :
    conditional_fetch fuel E config w = (Rejected err, log) ->
    call_path fuel E config w
      (serve_cached_or_throw (existsSync w (outPath_of config))
                             (outPath_of config) err (with_requests w log))
| path_unsettled log :
    conditional_fetch fuel E config w = (Unsettled, log) ->
    call_path fuel E config w (Unsettled, with_requests w log)
| path_uncaught e log :
    conditional_fetch fuel E config w = (Uncaught e, log) ->
    call_path fuel E config w (Uncaught e, with_requests w log)
| path_not_modified resp log :
    conditional_fetch fuel E config w = (Fulfilled resp, log) ->
    r_statusCode resp = 304 ->
    call_path fuel E config w
      (Fulfilled (outPath_of config),
       writeJsonSafe E (with_requests w log) (metaPath_of config)
         (meta_record (or_null (prop (stored_meta config w) "etag"))
                      (or_null (prop (stored_meta config w) "lastModified"))
                      (Date_now E)))
| path_content_failed resp log err w2 :
    conditional_fetch fuel E config w = (Fulfilled resp, log) ->
    r_statusCode resp <> 304 ->
    content_write E config (with_requests w log) (r_text resp) = (Some err, w2) ->
    call_path fuel E config w
      (serve_cached_or_throw (existsSync w (outPath_of config))
                             (outPath_of config) err w2)
| path_updated resp log w2 :
    conditional_fetch fuel E config w = (Fulfilled resp, log) ->
    r_statusCode resp <> 304 ->
    content_write E config (with_requests w log) (r_text resp) = (None, w2) ->
    call_path fuel E config w
      (Fulfilled (outPath_of config),
       writeJsonSafe E w2 (metaPath_of config)
         (meta_record (or_null (Some (r_etag resp)))
                      (or_null (Some (r_lastModified resp))) (Date_now E))).

(** The options that are text, and a [package.json] in which each of
    them is absent, [null] or a string. *)
Definition textual_options : list string :=
  ["publicUrl"; "outputDir"; "outputFile"; "runAt"; "userAgent"].

Definition package_options_are_text (w : world) (pkgPath : string) : Prop :=
  Forall (fun k => optional_string (pkg_field (readPackageConfig w pkgPath) k))
         textual_options.

(** An argument list in which every flag that takes a value has one. *)
Fixpoint complete (args : list string) : bool :=
  match args with
  | [] => true
  | a :: rest =>
      match value_flag_of a with
      | Some _ =>
          match rest with
          | _ :: rest' => complete rest'
          | [] => false
          end
      | None => complete rest
      end
  end.

(** An argument that [parseArgs] does not know: it starts with a dash
    and is neither a flag nor one of the command words. *)
Definition unknown_flag (a : string) : Prop :=
  value_flag_of a = None
  /\ String.eqb a "--dry-run" = false
  /\ is_command a = false
  /\ String.prefix "-" a = true.

(** A positional argument: a command word, or a word without a leading
    dash. *)
Definition positional_word (a : string) : Prop :=
  is_command a = true \/ String.prefix "-" a = false.

Definition render_option (flag : string) (v : option string) : list string :=
  match v with
  | Some x => [flag; x]
  | None => []
  end.

(** A command line for the options and positional arguments of [c]. *)
Definition render (c : Cli) : list string :=
  (render_option "--public-url" (cli_publicUrl c)
   ++ render_option "--output-dir" (cli_outputDir c)
   ++ render_option "--output-file" (cli_outputFile c)
   ++ render_option "--run-at" (cli_runAt c)
   ++ render_option "--user-agent" (cli_userAgent c)
   ++ render_option "--timeout-ms" (cli_timeoutMs c)
   ++ (if cli_dryRun c then ["--dry-run"] else [])
   ++ cli_positional c)%list.

End FurtherVocabulary.

(** * Tactics *)

(** One case analysis of a hop in hypothesis [H], and in the goal with
    it. *)
Ltac hop_step H :=
  match type of H with
  | context [match new_URL ?u with _ => _ end] =>
      destruct (new_URL u) as [?parsed|] eqn:?
  | context [match client_rejects ?p with _ => _ end] =>
      destruct (client_rejects p) eqn:?
  | context [match req_setTimeout ?t with _ => _ end] =>
      destruct (req_setTimeout t) eqn:?; cbn [is_armed andb] in H |- *
  | context [if timer_fires ?E ?l then _ else _] =>
      destruct (timer_fires E l) eqn:?
  | context [match server ?E ?l ?r with _ => _ end] =>
      destruct (server E l r) as [?status ?loc ?et ?lm ?body| | |] eqn:?
  | context [match redirect_location ?s ?l with _ => _ end] =>
      destruct (redirect_location s l) eqn:?
  | context [match new_URL_base ?l ?p with _ => _ end] =>
      destruct (new_URL_base l p) eqn:?
  | context [if (?s =? 304)%Z then _ else _] =>
      destruct (s =? 304)%Z eqn:?
  | context [if negb (?s =? 200)%Z then _ else _] =>
      destruct (s =? 200)%Z eqn:?; cbn [negb] in H |- *
  end.

Ltac hop_cases H := repeat hop_step H.

(** * Properties *)

(** ** Rounding *)

Section Numbers.

(** *** Comparisons of rationals *)

Lemma Qle_bool_inject_Z a b : Qle_bool (inject_Z a) (inject_Z b) = (a <=? b)%Z.
Proof. unfold Qle_bool. simpl. now rewrite !Z.mul_1_r. Qed.

Lemma Qltb_inject_Z a b : Qltb (inject_Z a) (inject_Z b) = (a <? b)%Z.
Proof. unfold Qltb. rewrite Qle_bool_inject_Z. now rewrite Z.ltb_antisym. Qed.

Lemma Qltb_true a b : Qltb a b = true <-> (a < b)%Q.
Proof.
  unfold Qltb. rewrite negb_true_iff. split.
  - intros H. apply Qnot_le_lt. intros Hle. apply Qle_bool_iff in Hle. congruence.
  - intros H. destruct (Qle_bool b a) eqn:Hle; [|reflexivity].
    apply Qle_bool_iff in Hle. exfalso. now apply (Qlt_not_le a b).
Qed.

Lemma Qltb_false a b : Qltb a b = false <-> (b <= a)%Q.
Proof.
  unfold Qltb. rewrite negb_false_iff. apply Qle_bool_iff.
Qed.

Lemma Qzerob_false a : Qzerob a = false <-> ~ (a == 0)%Q.
Proof.
  unfold Qzerob. split.
  - intros H Heq. apply Qeq_bool_iff in Heq. congruence.
  - intros H. destruct (Qeq_bool a 0) eqn:Heq; [|reflexivity].
    apply Qeq_bool_iff in Heq. contradiction.
Qed.

Lemma Qminus_negative a t : (a - t < inject_Z 0)%Q <-> (a < t)%Q.
Proof.
  rewrite <- (Qplus_lt_l _ _ t).
  assert (H1 : (a - t + t == a)%Q) by ring.
  assert (H2 : (inject_Z 0 + t == t)%Q) by ring.
  rewrite H1, H2. reflexivity.
Qed.

Lemma nearest_Qeq b x y : (x == y)%Q -> nearest b x = nearest b y.
Proof. intros H. unfold nearest. now rewrite (Qred_complete _ _ H). Qed.

Lemma Qred_inject_Z z : Qred (inject_Z z) = inject_Z z.
Proof. apply Qred_identity. simpl. apply Z.gcd_1_r. Qed.

Lemma Qred_scaled z c : (0 < c)%Z -> Qred (z * c # Z.to_pos c) = inject_Z z.
Proof.
  intros Hc. rewrite <- (Qred_inject_Z z). apply Qred_complete.
  unfold Qeq, inject_Z. simpl. rewrite Z2Pos.id by exact Hc. ring.
Qed.

Lemma round_half_even_whole a : round_half_even a 1 = a.
Proof.
  unfold round_half_even. rewrite Z.mod_1_r, Z.div_1_r. reflexivity.
Qed.

Lemma nearest_pos_never_NaN b n d : nearest_pos b n d <> NaN.
Proof. unfold nearest_pos. cbv zeta. now destruct (Qle_bool _ _). Qed.

Lemma nearest_never_NaN b x : nearest b x <> NaN.
Proof.
  unfold nearest. destruct (Qnum (Qred x)) as [|n|n]; [discriminate| |].
  - apply nearest_pos_never_NaN.
  - pose proof (nearest_pos_never_NaN b n (Qden (Qred x))).
    now destruct (nearest_pos b n (Qden (Qred x))).
Qed.

(** Whole numbers below [2^53] are binary64 values. *)
Lemma nearest_pos_whole b n :
  (Zpos n < 2 ^ 53)%Z -> nearest_pos b n 1 = Finite (inject_Z (Zpos n)).
Proof.
  intros Hn. unfold nearest_pos. cbv zeta.
  assert (Hlog : (0 <= Z.log2 (Zpos n) <= 52)%Z).
  { split; [apply Z.log2_nonneg|].
    assert (Z.log2 (Zpos n) < 53)%Z; [|lia].
    apply Z.log2_lt_pow2; lia. }
  assert (Hfl : floor_log2 n 1 = Z.log2 (Zpos n)).
  { unfold floor_log2, pow2_le. cbv zeta.
    change (Z.log2 1) with 0%Z. rewrite Z.sub_0_r.
    rewrite Z.max_r by lia. rewrite Z.max_l by lia.
    change (2 ^ 0)%Z with 1%Z. rewrite Z.mul_1_l, Z.mul_1_r.
    destruct (Z.log2_spec (Zpos n) ltac:(lia)) as [Hlo _].
    apply Z.leb_le in Hlo. now rewrite Hlo. }
  rewrite Hfl.
  set (e := (Z.log2 (Zpos n) - 52)%Z).
  assert (He : (if b then Z.max e (-1074) else e) = e)
    by (destruct b; [apply Z.max_l; lia|reflexivity]).
  rewrite He.
  assert (Hv : round_at e n 1 = inject_Z (Zpos n)).
  { unfold round_at. rewrite (Z.max_l 0 e) by lia.
    rewrite (Z.max_r 0 (- e)) by lia.
    change (2 ^ 0)%Z with 1%Z. rewrite Z.mul_1_r, round_half_even_whole.
    rewrite ?Z.mul_1_r. apply Qred_scaled. apply Z.pow_pos_nonneg; lia. }
  rewrite Hv.
  assert (Hsmall : Qle_bool (inject_Z (2 ^ 1024)) (inject_Z (Zpos n)) = false).
  { unfold Qle_bool, inject_Z. cbn [Qnum Qden]. rewrite !Z.mul_1_r.
    apply Z.leb_gt. apply Z.lt_trans with (2 ^ 53)%Z; [exact Hn|].
    apply Z.pow_lt_mono_r; lia. }
  now rewrite Hsmall.
Qed.

Lemma nearest_whole b z :
  (Z.abs z < 2 ^ 53)%Z -> nearest b (inject_Z z) = ofZ z.
Proof.
  intros Hz. unfold nearest. rewrite Qred_inject_Z. cbn [Qnum Qden inject_Z].
  destruct z as [|n|n]; [reflexivity| |].
  - now apply nearest_pos_whole.
  - rewrite nearest_pos_whole by exact Hz. reflexivity.
Qed.

(** Without a least exponent nothing but zero is rounded to zero. *)
Lemma pow2_split e :
  (2 ^ Z.max 0 e > 0 /\ 2 ^ Z.max 0 (- e) > 0)%Z.
Proof. split; apply Z.lt_gt, Z.pow_pos_nonneg; lia. Qed.

Lemma floor_log2_below n d :
  forall e, (e <= floor_log2 n d)%Z ->
    (Zpos d * 2 ^ Z.max 0 e <= Zpos n * 2 ^ Z.max 0 (- e))%Z.
Proof.
  intros e He.
  assert (Hk : (e <= Z.log2 (Zpos n) - Z.log2 (Zpos d))%Z).
  { unfold floor_log2 in He. cbv zeta in He.
    destruct (pow2_le _ n d); lia. }
  destruct (Z.eq_dec e (Z.log2 (Zpos n) - Z.log2 (Zpos d))) as [->|Hne].
  - unfold floor_log2 in He. cbv zeta in He.
    destruct (pow2_le _ n d) eqn:Hle; [|lia].
    unfold pow2_le in Hle. now apply Z.leb_le in Hle.
  - assert (Hlt : (e <= Z.log2 (Zpos n) - Z.log2 (Zpos d) - 1)%Z) by lia.
    clear He Hk Hne.
    destruct (Z.log2_spec (Zpos n) ltac:(lia)) as [Hn _].
    destruct (Z.log2_spec (Zpos d) ltac:(lia)) as [_ Hd].
    pose proof (Z.log2_nonneg (Zpos n)). pose proof (Z.log2_nonneg (Zpos d)).
    set (a := Z.log2 (Zpos n)) in *. set (c := Z.log2 (Zpos d)) in *.
    destruct (Z_le_gt_dec 0 e) as [Hpos|Hneg].
    + rewrite (Z.max_r 0 e), (Z.max_l 0 (- e)) by lia.
      change (2 ^ 0)%Z with 1%Z. rewrite Z.mul_1_r.
      apply Z.le_trans with (2 ^ a)%Z; [|exact Hn].
      apply Z.le_trans with (2 ^ Z.succ c * 2 ^ e)%Z.
      * apply Z.mul_le_mono_nonneg_r; [apply Z.pow_nonneg; lia|lia].
      * rewrite <- Z.pow_add_r by lia. apply Z.pow_le_mono_r; lia.
    + rewrite (Z.max_l 0 e), (Z.max_r 0 (- e)) by lia.
      change (2 ^ 0)%Z with 1%Z. rewrite Z.mul_1_r.
      apply Z.le_trans with (2 ^ a * 2 ^ (- e))%Z.
      * rewrite <- Z.pow_add_r by lia.
        apply Z.le_trans with (2 ^ Z.succ c)%Z; [lia|].
        apply Z.pow_le_mono_r; lia.
      * apply Z.mul_le_mono_nonneg_r; [apply Z.pow_nonneg; lia|exact Hn].
Qed.

Lemma round_half_even_pos a b : (0 < b <= a)%Z -> (0 < round_half_even a b)%Z.
Proof.
  intros [Hb Hab]. unfold round_half_even.
  assert (Hk : (1 <= a / b)%Z) by (apply Z.div_le_lower_bound; lia).
  destruct (2 * (a mod b) ?= b)%Z; [destruct (Z.even (a / b))| |]; lia.
Qed.

Lemma Qred_pos a (c : positive) : (0 < a)%Z -> (0 < Qred (a # c))%Q.
Proof.
  intros Ha. rewrite Qred_correct. unfold Qlt. simpl. lia.
Qed.

Lemma round53_pos n d :
  nearest_pos false n d = PosInfinity
  \/ exists v, nearest_pos false n d = Finite v /\ (0 < v)%Q.
Proof.
  unfold nearest_pos. cbv zeta.
  destruct (Qle_bool _ _); [now left|right].
  eexists. split; [reflexivity|].
  unfold round_at. apply Qred_pos.
  set (e := (floor_log2 n d - 52)%Z).
  destruct (pow2_split e) as [H1 H2].
  apply Z.mul_pos_pos; [|lia].
  apply round_half_even_pos. split; [lia|].
  apply floor_log2_below. subst e. lia.
Qed.

Lemma Qred_sign x : (Qnum (Qred x) ?= 0)%Z = (Qnum x ?= 0)%Z.
Proof.
  pose proof (Qred_correct x) as H. unfold Qeq in H.
  destruct (Qnum (Qred x)) eqn:E1, (Qnum x) eqn:E2; simpl in *; try reflexivity; lia.
Qed.

(** [round53] keeps the sign. *)
Lemma round53_sign x :
  ((0 < x)%Q -> positive_number (round53 x))
  /\ ((x < 0)%Q -> negative_number (round53 x))
  /\ ((x == 0)%Q -> round53 x = Finite 0).
Proof.
  unfold round53, nearest.
  pose proof (Qred_sign x) as Hs.
  destruct x as [xn xd]. unfold Qlt, Qeq. simpl in *.
  rewrite !Z.mul_1_r.
  destruct (Qnum (Qred (xn # xd))) as [|n|n] eqn:Hn; simpl in Hs;
    symmetry in Hs.
  - apply Z.compare_eq in Hs. subst xn. repeat split; intros; lia || reflexivity.
  - apply Z.compare_gt_iff in Hs. repeat split; intros; try lia.
    apply round53_pos.
  - change (xn < 0)%Z in Hs. repeat split; intros; try lia.
    destruct (round53_pos n (Qden (Qred (xn # xd)))) as [-> | (v & -> & Hv)].
    + left. reflexivity.
    + right. exists (- v)%Q. split; [reflexivity|].
      unfold Qlt in *. simpl in *. lia.
Qed.

(** ** [Number] on a run of digits *)

Lemma string_append_nil_r (s : string) : s ++ "" = s.
Proof.
  induction s as [|c s IH]; [reflexivity|].
  change (String c (s ++ "") = String c s). now rewrite IH.
Qed.

Lemma digit_code c : is_digit c = true -> (48 <= nat_of_ascii c <= 57)%nat.
Proof.
  unfold is_digit. cbv zeta. rewrite andb_true_iff, !Nat.leb_le. lia.
Qed.

Lemma trim_start_digit c s :
  is_digit c = true -> trim_start (String c s) = String c s.
Proof.
  intros Hc. apply digit_code in Hc. cbn [trim_start].
  assert (H1 : white_space_1 (nat_of_ascii c) = false).
  { unfold white_space_1. apply orb_false_iff. split.
    - apply andb_false_iff. right. apply Nat.leb_gt. lia.
    - apply Nat.eqb_neq. lia. }
  assert (H2 : (nat_of_ascii c <? 128)%nat = true) by (apply Nat.ltb_lt; lia).
  now rewrite H1, H2.
Qed.

Lemma trim_digits s : all_digits s = true -> trim s = s.
Proof.
  unfold trim. intros Hs.
  assert (Hstart : trim_start s = s).
  { destruct s as [|c s]; [reflexivity|].
    simpl in Hs. apply andb_true_iff in Hs as [Hc _].
    now apply trim_start_digit. }
  rewrite Hstart. clear Hstart.
  induction s as [|c s IH]; [reflexivity|].
  simpl in Hs. apply andb_true_iff in Hs as [Hc Hs].
  cbn [trim_end]. rewrite (trim_start_digit _ _ Hc).
  change (String.eqb (String c s) "") with false. cbv iota.
  now rewrite (IH Hs).
Qed.

Lemma span_digits_all s : all_digits s = true -> span_digits s = (s, "").
Proof.
  induction s as [|c s IH]; [reflexivity|].
  simpl. intros H. apply andb_true_iff in H as [Hc Hs].
  now rewrite Hc, (IH Hs).
Qed.

Lemma digit_not_sign c :
  is_digit c = true -> Ascii.eqb c "-" = false /\ Ascii.eqb c "+" = false.
Proof.
  intros H. apply digit_code in H.
  split; apply Ascii.eqb_neq; intros ->; vm_compute in H; lia.
Qed.

Lemma radix_literal_digits s : all_digits s = true -> radix_literal s = None.
Proof.
  destruct s as [|z [|p [|d ds]]]; try reflexivity.
  simpl. intros H. apply andb_true_iff in H as [_ H].
  apply andb_true_iff in H as [Hp _]. apply digit_code in Hp.
  destruct (Ascii.eqb z "0"); [|reflexivity].
  assert (Hne : forall x, (nat_of_ascii x < 48 \/ 57 < nat_of_ascii x)%nat ->
                          Ascii.eqb p x = false).
  { intros x Hx. apply Ascii.eqb_neq. intros ->. lia. }
  rewrite !Hne by (vm_compute; lia). reflexivity.
Qed.

Lemma decimal_value_nonneg s :
  forall acc, all_digits s = true -> 0 <= acc -> 0 <= decimal_value acc s.
Proof.
  induction s as [|c s IH]; intros acc Hs Hacc; [exact Hacc|].
  simpl in Hs |- *. apply andb_true_iff in Hs as [Hc Hs].
  apply IH; [exact Hs|]. apply digit_code in Hc. unfold digit_value. lia.
Qed.

(** On a run of digits, [Number] is the binary64 value nearest to the
    number they denote. *)
Lemma Number_of_digit_run s :
  all_digits s = true ->
  Number_of_string s = binary64 (inject_Z (decimal_value 0 s)).
Proof.
  intros Hs. unfold Number_of_string. rewrite (trim_digits _ Hs).
  destruct s as [|c s]; [reflexivity|].
  change (String.eqb (String c s) "") with false. cbv iota.
  rewrite (radix_literal_digits _ Hs).
  pose proof Hs as Hc. simpl in Hc. apply andb_true_iff in Hc as [Hc _].
  destruct (digit_not_sign _ Hc) as [Hminus Hplus].
  unfold sign_of. rewrite Hminus, Hplus.
  assert (Hinf : String.eqb (String c s) "Infinity" = false).
  { apply String.eqb_neq. intros Heq. inversion Heq; subst. discriminate Hc. }
  rewrite Hinf. unfold decimal_literal. rewrite (span_digits_all _ Hs).
  change (String.eqb (String c s) "") with false.
  cbn [andb exponent_of mbind option_bind String.length].
  rewrite string_append_nil_r. unfold scale10.
  change (0 - Z.of_nat 0)%Z with 0%Z. change (0 <=? 0)%Z with true.
  cbv iota. now rewrite Z.pow_0_r, Z.mul_1_r.
Qed.

Lemma Number_of_digits s :
  all_digits s = true ->
  decimal_value 0 s < 2 ^ 53 ->
  Number_of_string s = ofZ (decimal_value 0 s).
Proof.
  intros Hs Hsmall. rewrite (Number_of_digit_run _ Hs).
  apply nearest_whole.
  pose proof (decimal_value_nonneg s 0 Hs ltac:(lia)). lia.
Qed.

Lemma Number_of_digits_not_NaN s :
  all_digits s = true -> Number_isNaN (Number_of_string s) = false.
Proof.
  intros Hs. rewrite (Number_of_digit_run _ Hs).
  pose proof (nearest_never_NaN true (inject_Z (decimal_value 0 s))) as H.
  unfold binary64. now destruct (nearest true _).
Qed.

End Numbers.

(** ** The path of a URL record *)

Section Paths.

Import Whatwg.

Lemma string_append_assoc (a b c : string) : (a ++ b) ++ c = a ++ (b ++ c).
Proof.
  induction a as [|x a IH]; [reflexivity|].
  change (String x ((a ++ b) ++ c) = String x (a ++ (b ++ c))).
  now rewrite IH.
Qed.

Section PathState.

Variable sch : string.
Hypothesis not_file : String.eqb sch "file" = false.

Lemma path_state_run seg :
  forallb (plain_path_char sch) (list_ascii_of_string seg) = true ->
  forall p buffer rest,
    path_state sch p buffer (seg ++ rest) = path_state sch p (buffer ++ seg) rest.
Proof.
  induction seg as [|c seg IH]; intros Hseg p buffer rest.
  - now rewrite string_append_nil_r.
  - simpl in Hseg. apply andb_true_iff in Hseg as [Hc Hseg].
    unfold plain_path_char in Hc. apply andb_true_iff in Hc as [Henc Hsep].
    apply negb_true_iff in Henc, Hsep.
    change (String c seg ++ rest) with (String c (seg ++ rest)).
    cbn [path_state]. rewrite Hsep. unfold encode_path_char. rewrite Henc.
    rewrite (IH Hseg). f_equal. rewrite string_append_assoc. reflexivity.
Qed.

Lemma end_segment_stable p seg sep :
  stable_segment sch seg = true -> end_segment sch p seg sep = (p ++ [seg])%list.
Proof.
  unfold stable_segment. rewrite !andb_true_iff, !negb_true_iff.
  intros [[_ Hsingle] Hdouble]. unfold end_segment.
  rewrite Hdouble, Hsingle, not_file. cbn [andb].
  now destruct seg as [|a [|b [|]]], p.
Qed.

Lemma path_state_segments l :
  forallb (stable_segment sch) l = true ->
  forall seg p,
    stable_segment sch seg = true ->
    path_state sch p "" (seg ++ serialize_segments l) = (p ++ seg :: l)%list.
Proof.
  induction l as [|next l IH]; intros Hl seg p Hseg.
  - cbn [serialize_segments]. rewrite string_append_nil_r.
    rewrite <- (string_append_nil_r seg) at 1.
    pose proof Hseg as Hplain. unfold stable_segment in Hplain.
    rewrite !andb_true_iff in Hplain. destruct Hplain as [[Hplain _] _].
    rewrite (path_state_run _ Hplain). cbn [path_state].
    change ("" ++ seg) with seg. now apply end_segment_stable.
  - cbn [forallb] in Hl. apply andb_true_iff in Hl as [Hnext Hl].
    pose proof Hseg as Hplain. unfold stable_segment in Hplain.
    rewrite !andb_true_iff in Hplain. destruct Hplain as [[Hplain _] _].
    rewrite (path_state_run _ Hplain). change ("" ++ seg) with seg.
    cbn [serialize_segments].
    change ("/" ++ next ++ serialize_segments l)
      with (String "/" (next ++ serialize_segments l)).
    cbn [path_state]. change (Ascii.eqb "/" "/") with true. cbn [orb].
    rewrite (end_segment_stable _ _ _ Hseg), (IH Hl _ _ Hnext).
    now rewrite <- app_assoc.
Qed.

Lemma remove_tab_newline_plain seg :
  forallb (plain_path_char sch) (list_ascii_of_string seg) = true ->
  remove_tab_newline seg = seg.
Proof.
  induction seg as [|c seg IH]; [reflexivity|].
  simpl. intros H. apply andb_true_iff in H as [Hc Hseg].
  unfold plain_path_char in Hc. apply andb_true_iff in Hc as [Henc _].
  apply negb_true_iff in Henc. unfold in_path_percent_encode_set in Henc.
  cbv zeta in Henc. apply orb_false_iff in Henc as [Henc _].
  apply orb_false_iff in Henc as [Hlow _]. apply Nat.leb_gt in Hlow.
  assert (Hkeep : ((nat_of_ascii c =? 9) || (nat_of_ascii c =? 10)
                   || (nat_of_ascii c =? 13))%nat = false).
  { rewrite !orb_false_iff, !Nat.eqb_neq. lia. }
  now rewrite Hkeep, (IH Hseg).
Qed.

Lemma remove_tab_newline_app a b :
  remove_tab_newline (a ++ b) = remove_tab_newline a ++ remove_tab_newline b.
Proof.
  induction a as [|c a IH]; [reflexivity|].
  change (String c a ++ b) with (String c (a ++ b)). cbn [remove_tab_newline].
  destruct ((nat_of_ascii c =? 9) || (nat_of_ascii c =? 10)
            || (nat_of_ascii c =? 13))%nat; [exact IH|].
  change (String c (remove_tab_newline a) ++ remove_tab_newline b)
    with (String c (remove_tab_newline a ++ remove_tab_newline b)).
  now rewrite IH.
Qed.

Lemma remove_tab_newline_segments l :
  forallb (stable_segment sch) l = true ->
  remove_tab_newline (serialize_segments l) = serialize_segments l.
Proof.
  induction l as [|seg l IH]; [reflexivity|].
  cbn [forallb serialize_segments]. intros H.
  apply andb_true_iff in H as [Hseg Hl].
  unfold stable_segment in Hseg. rewrite !andb_true_iff in Hseg.
  destruct Hseg as [[Hplain _] _].
  change ("/" ++ seg ++ serialize_segments l)
    with (String "/" (seg ++ serialize_segments l)).
  cbn [remove_tab_newline]. change (nat_of_ascii "/") with 47%nat.
  cbn [Nat.eqb orb]. rewrite remove_tab_newline_app.
  now rewrite (remove_tab_newline_plain _ Hplain), (IH Hl).
Qed.

(** Setting the pathname to a serialized list of stable segments makes
    them the path. *)
Lemma path_start_serialized (u : url_record) l :
  scheme u = sch ->
  l <> [] ->
  forallb (stable_segment sch) l = true ->
  path_start u (remove_tab_newline (serialize_segments l)) = l.
Proof.
  intros Hsch Hne Hl. rewrite (remove_tab_newline_segments _ Hl).
  destruct l as [|seg l]; [contradiction|].
  cbn [forallb] in Hl. apply andb_true_iff in Hl as [Hseg Hl].
  cbn [serialize_segments].
  change ("/" ++ seg ++ serialize_segments l)
    with (String "/" (seg ++ serialize_segments l)).
  unfold path_start. rewrite Hsch. change (Ascii.eqb "/" "/") with true.
  cbn [orb]. now rewrite (path_state_segments _ Hl _ _ Hseg).
Qed.

End PathState.

Lemma serialize_segments_app a b :
  serialize_segments (a ++ b) = serialize_segments a ++ serialize_segments b.
Proof.
  induction a as [|seg a IH]; [reflexivity|].
  cbn [app serialize_segments]. rewrite IH.
  change ("/" ++ seg ++ serialize_segments a ++ serialize_segments b)
    with (String "/" (seg ++ (serialize_segments a ++ serialize_segments b))).
  change (("/" ++ seg ++ serialize_segments a) ++ serialize_segments b)
    with (String "/" ((seg ++ serialize_segments a) ++ serialize_segments b)).
  now rewrite string_append_assoc.
Qed.

Lemma endsWith_slash_app a b :
  b <> "" -> endsWith_slash (a ++ b) = endsWith_slash b.
Proof.
  intros Hb. induction a as [|c a IH]; [reflexivity|].
  change (String c a ++ b) with (String c (a ++ b)). cbn [endsWith_slash].
  destruct (a ++ b) eqn:Hab; [|exact IH].
  destruct a; [change (b = "") in Hab; congruence|discriminate].
Qed.

Lemma slice_0_minus1_app a b :
  b <> "" -> slice_0_minus1 (a ++ b) = a ++ slice_0_minus1 b.
Proof.
  intros Hb. induction a as [|c a IH]; [reflexivity|].
  change (String c a ++ b) with (String c (a ++ b)). cbn [slice_0_minus1].
  destruct (a ++ b) eqn:Hab.
  - destruct a; [change (b = "") in Hab; congruence|discriminate].
  - rewrite IH. reflexivity.
Qed.

Lemma replace_trailing_slash_app a b :
  b <> "" -> replace_trailing_slash (a ++ b) = a ++ replace_trailing_slash b.
Proof.
  intros Hb. unfold replace_trailing_slash.
  rewrite (endsWith_slash_app _ _ Hb), (slice_0_minus1_app _ _ Hb).
  now destruct (endsWith_slash b).
Qed.

Lemma plain_segment_no_trailing_slash sch seg :
  forallb (plain_path_char sch) (list_ascii_of_string seg) = true ->
  endsWith_slash seg = false.
Proof.
  induction seg as [|c seg IH]; [reflexivity|].
  simpl. intros H. apply andb_true_iff in H as [Hc Hseg].
  destruct seg as [|c' seg]; [|exact (IH Hseg)].
  unfold plain_path_char in Hc. apply andb_true_iff in Hc as [_ Hsep].
  apply negb_true_iff, orb_false_iff in Hsep. tauto.
Qed.

(** Removing the trailing slash of a serialized path removes its empty
    last segment. *)
Lemma replace_trailing_slash_segments sch l :
  forallb (stable_segment sch) l = true ->
  replace_trailing_slash (serialize_segments l)
  = serialize_segments (drop_last_empty l).
Proof.
  induction l as [|seg l IH]; [reflexivity|].
  cbn [forallb]. intros H. apply andb_true_iff in H as [Hseg Hl].
  destruct l as [|next l].
  - cbn [serialize_segments drop_last_empty]. rewrite string_append_nil_r.
    destruct seg as [|c seg]; [reflexivity|].
    change (String.eqb (String c seg) "") with false. cbv iota.
    cbn [serialize_segments]. rewrite string_append_nil_r.
    rewrite replace_trailing_slash_app by discriminate.
    unfold stable_segment in Hseg. rewrite !andb_true_iff in Hseg.
    destruct Hseg as [[Hplain _] _].
    unfold replace_trailing_slash.
    now rewrite (plain_segment_no_trailing_slash _ _ Hplain).
  - change (drop_last_empty (seg :: next :: l))
      with (seg :: drop_last_empty (next :: l)).
    cbn [serialize_segments] in IH |- *.
    rewrite <- (string_append_assoc "/" seg ("/" ++ next ++ serialize_segments l)).
    rewrite replace_trailing_slash_app by discriminate.
    rewrite (IH Hl). now rewrite string_append_assoc.
Qed.

Lemma drop_last_empty_stable sch l :
  forallb (stable_segment sch) l = true ->
  forallb (stable_segment sch) (drop_last_empty l) = true.
Proof.
  induction l as [|seg l IH]; [reflexivity|].
  cbn [forallb]. intros H. apply andb_true_iff in H as [Hseg Hl].
  destruct l as [|next l].
  - cbn [drop_last_empty]. destruct (String.eqb seg ""); [reflexivity|].
    cbn [forallb]. now rewrite Hseg.
  - change (drop_last_empty (seg :: next :: l))
      with (seg :: drop_last_empty (next :: l)).
    cbn [forallb]. now rewrite Hseg, (IH Hl).
Qed.

(** What [joinUrl] does to the record of an [http(s)] URL. *)
Lemma set_pathname_joined (u : url_record) l suffix :
  scheme u = "http" \/ scheme u = "https" ->
  path u = PathSegments l ->
  forallb (stable_segment (scheme u)) l = true ->
  stable_segment (scheme u) suffix = true ->
  set_pathname u (replace_trailing_slash (pathname u) ++ "/" ++ suffix)
  = with_path u (PathSegments (drop_last_empty l ++ [suffix])).
Proof.
  intros Hweb Hpath Hl Hsuffix. unfold set_pathname, pathname. rewrite Hpath.
  f_equal. f_equal.
  rewrite (replace_trailing_slash_segments _ _ Hl).
  assert (Hs : "/" ++ suffix = serialize_segments [suffix]).
  { cbn [serialize_segments]. now rewrite string_append_nil_r. }
  rewrite Hs, <- serialize_segments_app.
  apply (path_start_serialized (scheme u)).
  - destruct Hweb as [-> | ->]; reflexivity.
  - reflexivity.
  - now destruct (drop_last_empty l).
  - rewrite forallb_app. cbn [forallb].
    now rewrite (drop_last_empty_stable _ _ Hl), Hsuffix.
Qed.

Lemma llms_txt_stable sch : stable_segment sch "llms.txt" = true.
Proof.
  unfold stable_segment, plain_path_char.
  destruct (is_special sch); reflexivity.
Qed.

End Paths.


Section Properties.

Context `{U : UrlApi} `{P : Platform}.

(** ** Fuel and the request log *)


(** More fuel does not change a promise that has left [Unsettled]. *)
Lemma fetchTextFileWithMetadata_more_fuel E opts :
  forall fuel log url p log',
    fetchTextFileWithMetadata fuel E log url opts = (p, log') ->
    p <> Unsettled ->
    forall extra,
      fetchTextFileWithMetadata (fuel + extra) E log url opts = (p, log').
Proof.
  induction fuel as [|fuel IH]; intros log url p log' Hrun Hp extra.
  - cbn [fetchTextFileWithMetadata] in Hrun. rewrite Nat.add_0_l.
    destruct (new_URL url) as [parsed|] eqn:Hurl;
      [|destruct extra; cbn [fetchTextFileWithMetadata]; rewrite Hurl;
        exact Hrun].
    destruct (client_rejects (url_protocol parsed)) eqn:Hproto;
      [destruct extra; cbn [fetchTextFileWithMetadata];
       rewrite Hurl, Hproto; exact Hrun|].
    inversion Hrun; subst; congruence.
  - cbn [fetchTextFileWithMetadata Nat.add] in Hrun |- *. cbv zeta in Hrun |- *.
    hop_cases Hrun; try exact Hrun; try (inversion Hrun; subst; congruence).
    all: now apply IH.
Qed.

Lemma fetchTextFile_more_fuel E ua t :
  forall fuel log url p log',
    fetchTextFile fuel E log url ua t = (p, log') ->
    p <> Unsettled ->
    forall extra, fetchTextFile (fuel + extra) E log url ua t = (p, log').
Proof.
  induction fuel as [|fuel IH]; intros log url p log' Hrun Hp extra.
  - cbn [fetchTextFile] in Hrun. rewrite Nat.add_0_l.
    destruct (new_URL url) as [parsed|] eqn:Hurl;
      [|destruct extra; cbn [fetchTextFile]; rewrite Hurl; exact Hrun].
    destruct (client_rejects (url_protocol parsed)) eqn:Hproto;
      [destruct extra; cbn [fetchTextFile]; rewrite Hurl, Hproto;
       exact Hrun|].
    inversion Hrun; subst; congruence.
  - cbn [fetchTextFile Nat.add] in Hrun |- *. cbv zeta in Hrun |- *.
    hop_cases Hrun; try exact Hrun; try (inversion Hrun; subst; congruence).
    all: now apply IH.
Qed.

(** A fetch only ever appends to the request log. *)
Lemma fetchTextFileWithMetadata_log E opts :
  forall fuel log url p log',
    fetchTextFileWithMetadata fuel E log url opts = (p, log') ->
    exists issued, log' = (log ++ issued)%list /\ (length issued <= fuel)%nat.
Proof.
  induction fuel as [|fuel IH]; intros log url p log' Hrun;
    cbn [fetchTextFileWithMetadata] in Hrun; cbv zeta in Hrun.
  - exists []. rewrite app_nil_r. split; [|simpl; lia].
    hop_cases Hrun; congruence.
  - destruct (new_URL url) as [parsed|];
      [|exists []; rewrite app_nil_r; split; [congruence|simpl; lia]].
    destruct (client_rejects (url_protocol parsed));
      [exists []; rewrite app_nil_r; split; [congruence|simpl; lia]|].
    set (rq := get_options parsed _ _ _) in *.
    hop_cases Hrun; try (exists [rq]; split; [congruence|simpl; lia]).
    all: apply IH in Hrun as (issued & -> & Hlen);
      exists (rq :: issued); rewrite <- app_assoc; simpl; split; [done|lia].
Qed.

(** With a well-formed [http(s)] URL and some fuel, a fetch issues at
    least one request. *)
Lemma fetchTextFileWithMetadata_issues E opts fuel log url parsed p log' :
  new_URL url = Some parsed ->
  client_rejects (url_protocol parsed) = None ->
  fetchTextFileWithMetadata (S fuel) E log url opts = (p, log') ->
  exists more,
    log' = (log ++ get_options parsed (o_userAgent opts) (o_etag opts)
                               (o_lastModified opts) :: more)%list.
Proof.
  intros Hurl Hproto Hrun. cbn [fetchTextFileWithMetadata] in Hrun.
  rewrite Hurl, Hproto in Hrun. cbv zeta in Hrun.
  set (rq := get_options parsed _ _ _) in *.
  hop_cases Hrun; try (exists []; congruence).
  all: apply fetchTextFileWithMetadata_log in Hrun as (issued & -> & _);
    exists issued; now rewrite <- app_assoc.
Qed.

(** ** The branches of [ensureFreshLlmsFile] *)

Lemma publicUrl_given config :
  publicUrl config <> "" -> String.eqb (publicUrl config) "" = false.
Proof. intros H. now apply String.eqb_neq. Qed.

Lemma ensureFresh_fresh fuel E config w :
  publicUrl config <> "" ->
  fresh_now E config w = true ->
  ensureFreshLlmsFile fuel E config w = (Fulfilled (outPath_of config), w).
Proof.
  intros Hurl Hfresh. unfold ensureFreshLlmsFile.
  rewrite (publicUrl_given _ Hurl). cbv zeta.
  unfold fresh_now, stored_meta in Hfresh. now rewrite Hfresh.
Qed.

Lemma ensureFresh_rejected fuel E config w err log :
  publicUrl config <> "" ->
  fresh_now E config w = false ->
  conditional_fetch fuel E config w = (Rejected err, log) ->
  ensureFreshLlmsFile fuel E config w =
    serve_cached_or_throw (existsSync w (outPath_of config)) (outPath_of config)
                          err (with_requests w log).
Proof.
  intros Hurl Hfresh Hfetch. unfold ensureFreshLlmsFile.
  rewrite (publicUrl_given _ Hurl). cbv zeta.
  unfold fresh_now, stored_meta in Hfresh. rewrite Hfresh.
  unfold conditional_fetch, stored_meta in Hfetch. now rewrite Hfetch.
Qed.

Lemma ensureFresh_not_modified fuel E config w resp log :
  publicUrl config <> "" ->
  fresh_now E config w = false ->
  conditional_fetch fuel E config w = (Fulfilled resp, log) ->
  r_statusCode resp = 304 ->
  ensureFreshLlmsFile fuel E config w =
    (Fulfilled (outPath_of config),
     writeJsonSafe E (with_requests w log) (metaPath_of config)
       (meta_record (or_null (prop (stored_meta config w) "etag"))
                    (or_null (prop (stored_meta config w) "lastModified"))
                    (Date_now E))).
Proof.
  intros Hurl Hfresh Hfetch Hstatus. unfold ensureFreshLlmsFile.
  rewrite (publicUrl_given _ Hurl). cbv zeta.
  unfold fresh_now, stored_meta in Hfresh. rewrite Hfresh.
  unfold conditional_fetch, stored_meta in Hfetch. rewrite Hfetch.
  now rewrite Hstatus.
Qed.

Lemma ensureFresh_body fuel E config w resp log :
  publicUrl config <> "" ->
  fresh_now E config w = false ->
  conditional_fetch fuel E config w = (Fulfilled resp, log) ->
  r_statusCode resp <> 304 ->
  ensureFreshLlmsFile fuel E config w =
    match content_write E config (with_requests w log) (r_text resp) with
    | (Some err, w2) =>
        serve_cached_or_throw (existsSync w (outPath_of config))
                              (outPath_of config) err w2
    | (None, w2) =>
        (Fulfilled (outPath_of config),
         writeJsonSafe E w2 (metaPath_of config)
           (meta_record (or_null (Some (r_etag resp)))
                        (or_null (Some (r_lastModified resp)))
                        (Date_now E)))
    end.
Proof.
  intros Hurl Hfresh Hfetch Hstatus. unfold ensureFreshLlmsFile, content_write.
  rewrite (publicUrl_given _ Hurl). cbv zeta.
  unfold fresh_now, stored_meta in Hfresh. rewrite Hfresh.
  unfold conditional_fetch, stored_meta in Hfetch. rewrite Hfetch.
  apply Z.eqb_neq in Hstatus. rewrite Hstatus.
  now destruct (ensureDirectoryExists E (outputDir config)).
Qed.

Lemma ensureFresh_unsettled fuel E config w log :
  publicUrl config <> "" ->
  fresh_now E config w = false ->
  conditional_fetch fuel E config w = (Unsettled, log) ->
  ensureFreshLlmsFile fuel E config w = (Unsettled, with_requests w log).
Proof.
  intros Hurl Hfresh Hfetch. unfold ensureFreshLlmsFile.
  rewrite (publicUrl_given _ Hurl). cbv zeta.
  unfold fresh_now, stored_meta in Hfresh. rewrite Hfresh.
  unfold conditional_fetch, stored_meta in Hfetch. now rewrite Hfetch.
Qed.

Lemma ensureFresh_uncaught fuel E config w e log :
  publicUrl config <> "" ->
  fresh_now E config w = false ->
  conditional_fetch fuel E config w = (Uncaught e, log) ->
  ensureFreshLlmsFile fuel E config w = (Uncaught e, with_requests w log).
Proof.
  intros Hurl Hfresh Hfetch. unfold ensureFreshLlmsFile.
  rewrite (publicUrl_given _ Hurl). cbv zeta.
  unfold fresh_now, stored_meta in Hfresh. rewrite Hfresh.
  unfold conditional_fetch, stored_meta in Hfetch. now rewrite Hfetch.
Qed.

(** Without a content file the freshness test fails. *)
Lemma fresh_now_needs_file E config w :
  existsSync w (outPath_of config) = false -> fresh_now E config w = false.
Proof. intros H. unfold fresh_now, is_fresh. now rewrite H. Qed.

Lemma conditional_fetch_more_fuel fuel E config w p log :
  conditional_fetch fuel E config w = (p, log) ->
  p <> Unsettled ->
  forall extra, conditional_fetch (fuel + extra) E config w = (p, log).
Proof. apply fetchTextFileWithMetadata_more_fuel. Qed.

(** The [catch] block touches no file. *)
Lemma serve_cached_or_throw_files fileExists outPath err w :
  files (snd (serve_cached_or_throw fileExists outPath err w)) = files w.
Proof. unfold serve_cached_or_throw. now destruct fileExists. Qed.

(** ** Failing fetches *)

Lemma valid_timeout_timer t :
  valid_timeout t -> req_setTimeout t = NoTimer \/ req_setTimeout t = Armed.
Proof.
  intros (q & -> & Hq). unfold req_setTimeout.
  destruct (Qltb q 0) eqn:Hneg.
  - apply Qltb_true in Hneg. exfalso. now apply (Qlt_not_le _ _ Hneg).
  - destruct (Qzerob q); [now left|now right].
Qed.

(** One request whose timer is accepted and does not fire before the
    reply. *)
Lemma fetchTextFileWithMetadata_hop fuel E log url opts parsed :
  new_URL url = Some parsed ->
  client_rejects (url_protocol parsed) = None ->
  let rq := get_options parsed (o_userAgent opts) (o_etag opts)
                        (o_lastModified opts) in
  let log' := (log ++ [rq])%list in
  in_time E (o_timeoutMs opts) log' ->
  fetchTextFileWithMetadata (S fuel) E log url opts =
    match server E log rq with
    | SocketError e => (Rejected e, log')
    | NoReply =>
        if is_armed (req_setTimeout (o_timeoutMs opts))
        then (Rejected timed_out, log') else (Unsettled, log')
    | BodyLost => (Unsettled, log')
    | Response status location etag last_modified body =>
        match redirect_location status location with
        | Some loc =>
            match new_URL_base loc parsed with
            | None => (Uncaught (Error "Invalid URL"), log')
            | Some target =>
                fetchTextFileWithMetadata fuel E log' (url_toString target) opts
            end
        | None =>
            if (status =? 304)%Z then
              (Fulfilled {| r_statusCode := 304; r_text := "";
                            r_etag := or_null (o_etag opts);
                            r_lastModified := or_null (o_lastModified opts) |},
               log')
            else if negb (status =? 200)%Z then
              (Rejected (status_error status), log')
            else
              (Fulfilled {| r_statusCode := 200; r_text := body;
                            r_etag := or_null (header etag);
                            r_lastModified := or_null (header last_modified) |},
               log')
        end
    end.
Proof.
  intros Hurl Hproto rq log' [Hvalid Hquiet].
  cbn [fetchTextFileWithMetadata]. rewrite Hurl, Hproto. cbv zeta.
  fold rq. fold log'.
  destruct (valid_timeout_timer _ Hvalid) as [Ht|Ht]; rewrite Ht.
  - reflexivity.
  - cbn [is_armed andb]. now rewrite (Hquiet Ht).
Qed.


(** The ways a fetch rejects after its first request: a duration that
    [req.setTimeout] refuses, the timer firing, no reply under an armed
    timer, an error on the socket, or a status other than [200] and [304]
    that is not a redirect to follow. *)
Lemma fetchTextFileWithMetadata_fails fuel E log url opts parsed :
  new_URL url = Some parsed ->
  client_rejects (url_protocol parsed) = None ->
  let rq := get_options parsed (o_userAgent opts) (o_etag opts)
                        (o_lastModified opts) in
  let log' := (log ++ [rq])%list in
  let run := fetchTextFileWithMetadata (S fuel) E log url opts in
  (forall e, req_setTimeout (o_timeoutMs opts) = TimerThrows e ->
     run = (Rejected e, log'))
  /\ (req_setTimeout (o_timeoutMs opts) = Armed ->
      timer_fires E log' = true ->
      run = (Rejected timed_out, log'))
  /\ (in_time E (o_timeoutMs opts) log' ->
      (req_setTimeout (o_timeoutMs opts) = Armed ->
       server E log rq = NoReply ->
       run = (Rejected timed_out, log'))
      /\ (forall e, server E log rq = SocketError e ->
          run = (Rejected e, log'))
      /\ (forall status loc et lm body,
          server E log rq = Response status loc et lm body ->
          redirect_location status loc = None ->
          status <> 304 -> status <> 200 ->
          run = (Rejected (status_error status), log'))).
Proof.
  intros Hurl Hproto rq log' run. split; [|split].
  - intros e Ht. subst run. cbn [fetchTextFileWithMetadata].
    rewrite Hurl, Hproto. cbv zeta. now rewrite Ht.
  - intros Ht Hfires. subst run. cbn [fetchTextFileWithMetadata].
    rewrite Hurl, Hproto. cbv zeta. fold rq. fold log'.
    rewrite Ht. cbn [is_armed andb]. now rewrite Hfires.
  - intros Hquiet. subst run.
    rewrite (fetchTextFileWithMetadata_hop _ _ _ _ _ _ Hurl Hproto Hquiet).
    fold rq. fold log'. repeat split.
    + intros Ht ->. now rewrite Ht.
    + intros e ->. reflexivity.
    + intros status loc et lm body -> -> H304 H200.
      apply Z.eqb_neq in H304, H200. now rewrite H304, H200.
Qed.

(** The failing fetches that never reject: the connection is lost after
    the headers of the reply, no reply arrives and no timer is set, or a
    redirect names a location that is no URL, which throws inside the
    response callback. *)
Lemma fetchTextFileWithMetadata_escapes fuel E log url opts parsed :
  new_URL url = Some parsed ->
  client_rejects (url_protocol parsed) = None ->
  let rq := get_options parsed (o_userAgent opts) (o_etag opts)
                        (o_lastModified opts) in
  let log' := (log ++ [rq])%list in
  let run := fetchTextFileWithMetadata (S fuel) E log url opts in
  in_time E (o_timeoutMs opts) log' ->
  (server E log rq = BodyLost -> run = (Unsettled, log'))
  /\ (req_setTimeout (o_timeoutMs opts) = NoTimer ->
      server E log rq = NoReply -> run = (Unsettled, log'))
  /\ (forall status loc et lm body l,
      server E log rq = Response status loc et lm body ->
      redirect_location status loc = Some l ->
      new_URL_base l parsed = None ->
      run = (Uncaught (Error "Invalid URL"), log')).
Proof.
  intros Hurl Hproto rq log' run Hquiet. subst run.
  rewrite (fetchTextFileWithMetadata_hop _ _ _ _ _ _ Hurl Hproto Hquiet).
  fold rq. fold log'. repeat split.
  - intros ->. reflexivity.
  - intros Ht ->. now rewrite Ht.
  - intros status loc et lm body l -> -> ->. reflexivity.
Qed.

(** When the conditional fetch rejects while a content file exists at the
    output path, [ensureFreshLlmsFile] returns the output path and leaves
    every file, in particular the content file and the metadata file, as
    it was. *)
Lemma rejected_fetch_serves_cached_file fuel E config w err log :
  publicUrl config <> "" ->
  existsSync w (outPath_of config) = true ->
  conditional_fetch fuel E config w = (Rejected err, log) ->
  forall extra,
    exists w',
      ensureFreshLlmsFile (fuel + extra) E config w
      = (Fulfilled (outPath_of config), w')
      /\ files w' = files w.
Proof.
  intros Hurl Hexists Hfetch extra.
  destruct (fresh_now E config w) eqn:Hfresh.
  - exists w. split; [|reflexivity]. now apply ensureFresh_fresh.
  - eapply conditional_fetch_more_fuel in Hfetch; [|discriminate].
    rewrite (ensureFresh_rejected _ _ _ _ _ _ Hurl Hfresh Hfetch).
    unfold serve_cached_or_throw. rewrite Hexists. eexists. split; reflexivity.
Qed.

(** When the conditional fetch rejects and no content file exists at the
    output path, [ensureFreshLlmsFile] rejects with the very error of the
    fetch, touches no file, and the content file still does not exist. *)
Lemma rejected_fetch_without_cache_propagates fuel E config w err log :
  publicUrl config <> "" ->
  existsSync w (outPath_of config) = false ->
  conditional_fetch fuel E config w = (Rejected err, log) ->
  forall extra,
    exists w',
      ensureFreshLlmsFile (fuel + extra) E config w = (Rejected err, w')
      /\ files w' = files w
      /\ existsSync w' (outPath_of config) = false.
Proof.
  intros Hurl Hmissing Hfetch extra.
  pose proof (fresh_now_needs_file E _ _ Hmissing) as Hfresh.
  eapply conditional_fetch_more_fuel in Hfetch; [|discriminate].
  rewrite (ensureFresh_rejected _ _ _ _ _ _ Hurl Hfresh Hfetch).
  unfold serve_cached_or_throw. rewrite Hmissing.
  eexists. repeat split. exact Hmissing.
Qed.

(** What a stale call makes of a conditional fetch that fails without
    rejecting. *)
Lemma escaped_fetch_escapes_the_call fuel E config w parsed :
  publicUrl config <> "" ->
  fresh_now E config w = false ->
  new_URL (sourceUrl_of config) = Some parsed ->
  client_rejects (url_protocol parsed) = None ->
  let rq := get_options parsed (userAgent config)
              (prop (stored_meta config w) "etag")
              (prop (stored_meta config w) "lastModified") in
  let w' := with_requests w (requests w ++ [rq]) in
  in_time E (timeoutMs config) (requests w ++ [rq]) ->
  (server E (requests w) rq = BodyLost ->
   ensureFreshLlmsFile (S fuel) E config w = (Unsettled, w'))
  /\ (req_setTimeout (timeoutMs config) = NoTimer ->
      server E (requests w) rq = NoReply ->
      ensureFreshLlmsFile (S fuel) E config w = (Unsettled, w'))
  /\ (forall status loc et lm body l,
      server E (requests w) rq = Response status loc et lm body ->
      redirect_location status loc = Some l ->
      new_URL_base l parsed = None ->
      ensureFreshLlmsFile (S fuel) E config w
      = (Uncaught (Error "Invalid URL"), w')).
Proof.
  intros Hurl Hfresh Hparsed Hproto rq w' Hquiet.
  destruct (fetchTextFileWithMetadata_escapes fuel E (requests w)
              (sourceUrl_of config)
              (conditional_opts config (stored_meta config w)) parsed
              Hparsed Hproto Hquiet) as (Hlost & Hsilent & Hbad).
  repeat split.
  - intros Hreply. apply ensureFresh_unsettled; try assumption.
    now apply Hlost.
  - intros Ht Hreply. apply ensureFresh_unsettled; try assumption.
    now apply Hsilent.
  - intros status loc et lm body l Hreply Hredirect Hloc.
    apply ensureFresh_uncaught; try assumption.
    now apply (Hbad status loc et lm body l).
Qed.

(** C2 (code bug): a conditional fetch that fails serves the cached copy
    only when the promise of the fetch rejects.  With a content file at
    the output path and a stale cache, a reply whose connection is lost
    after the headers leaves the call unsettled for ever, and a redirect
    whose [Location] is no URL throws outside the promise: in neither case
    is the output path returned, although no file has been touched. *)
Theorem fetch_failure_can_bypass_the_cached_file fuel E config w parsed :
  publicUrl config <> "" ->
  existsSync w (outPath_of config) = true ->
  fresh_now E config w = false ->
  new_URL (sourceUrl_of config) = Some parsed ->
  client_rejects (url_protocol parsed) = None ->
  let rq := get_options parsed (userAgent config)
              (prop (stored_meta config w) "etag")
              (prop (stored_meta config w) "lastModified") in
  let run := ensureFreshLlmsFile (S fuel) E config w in
  in_time E (timeoutMs config) (requests w ++ [rq]) ->
  (server E (requests w) rq = BodyLost ->
   fst run = Unsettled /\ files (snd run) = files w
   /\ warnings (snd run) = warnings w)
  /\ (forall status loc et lm body l,
      server E (requests w) rq = Response status loc et lm body ->
      redirect_location status loc = Some l ->
      new_URL_base l parsed = None ->
      fst run = Uncaught (Error "Invalid URL") /\ files (snd run) = files w
      /\ warnings (snd run) = warnings w).
Proof.
  intros Hurl _ Hfresh Hparsed Hproto rq run Hquiet.
  destruct (escaped_fetch_escapes_the_call fuel E config w parsed
              Hurl Hfresh Hparsed Hproto Hquiet) as (Hlost & _ & Hbad).
  split.
  - intros Hreply. subst run. now rewrite (Hlost Hreply).
  - intros status loc et lm body l Hreply Hredirect Hloc. subst run.
    now rewrite (Hbad status loc et lm body l Hreply Hredirect Hloc).
Qed.

(** C3 (code bug): a conditional fetch that fails is propagated to the
    caller only when the promise of the fetch rejects.  Without a content
    file at the output path, a reply whose connection is lost after the
    headers leaves the call unsettled for ever, and a redirect whose
    [Location] is no URL throws outside the promise: in neither case does
    the call reject, so the caller is given no error to handle.  No file
    is created. *)
Theorem fetch_failure_can_escape_the_caller fuel E config w parsed :
  publicUrl config <> "" ->
  existsSync w (outPath_of config) = false ->
  new_URL (sourceUrl_of config) = Some parsed ->
  client_rejects (url_protocol parsed) = None ->
  let rq := get_options parsed (userAgent config)
              (prop (stored_meta config w) "etag")
              (prop (stored_meta config w) "lastModified") in
  let run := ensureFreshLlmsFile (S fuel) E config w in
  in_time E (timeoutMs config) (requests w ++ [rq]) ->
  (server E (requests w) rq = BodyLost ->
   fst run = Unsettled /\ existsSync (snd run) (outPath_of config) = false)
  /\ (forall status loc et lm body l,
      server E (requests w) rq = Response status loc et lm body ->
      redirect_location status loc = Some l ->
      new_URL_base l parsed = None ->
      fst run = Uncaught (Error "Invalid URL")
      /\ existsSync (snd run) (outPath_of config) = false).
Proof.
  intros Hurl Hmissing Hparsed Hproto rq run Hquiet.
  pose proof (fresh_now_needs_file E _ _ Hmissing) as Hfresh.
  destruct (escaped_fetch_escapes_the_call fuel E config w parsed
              Hurl Hfresh Hparsed Hproto Hquiet) as (Hlost & _ & Hbad).
  split.
  - intros Hreply. subst run. now rewrite (Hlost Hreply).
  - intros status loc et lm body l Hreply Hredirect Hloc. subst run.
    now rewrite (Hbad status loc et lm body l Hreply Hredirect Hloc).
Qed.

(** ** Writing and reading back the metadata *)

Lemma writeJsonSafe_ok E w p data :
  mkdir_error E (path_dirname p) = None ->
  write_fault E p = None ->
  writeJsonSafe E w p data
  = with_files w (<[p := JsonDoc (JSON_roundtrip data)]> (files w)).
Proof.
  intros Hdir Hwrite. unfold writeJsonSafe, ensureDirectoryExists, writeFileSync.
  now rewrite Hdir, Hwrite.
Qed.

(** A failure before the file is opened leaves the world as it was. *)
Lemma writeJsonSafe_swallows E w p data :
  mkdir_error E (path_dirname p) <> None
  \/ (exists e, write_fault E p = Some (OpenFails e)) ->
  writeJsonSafe E w p data = w.
Proof.
  intros Hfail. unfold writeJsonSafe, ensureDirectoryExists, writeFileSync.
  destruct (mkdir_error E (path_dirname p)); [reflexivity|].
  destruct Hfail as [Hfail|[e ->]]; [congruence|reflexivity].
Qed.

(** A failure after the file is opened leaves a partial document. *)
Lemma writeJsonSafe_tears E w p data e written :
  mkdir_error E (path_dirname p) = None ->
  write_fault E p = Some (WriteFails e written) ->
  writeJsonSafe E w p data
  = with_files w (<[p := TornJson written (JSON_roundtrip data)]> (files w)).
Proof.
  intros Hdir Hwrite. unfold writeJsonSafe, ensureDirectoryExists, writeFileSync.
  now rewrite Hdir, Hwrite.
Qed.

Lemma writeFileSync_frame E w p data :
  requests (snd (writeFileSync E w p data)) = requests w
  /\ warnings (snd (writeFileSync E w p data)) = warnings w
  /\ forall q, q <> p ->
       files (snd (writeFileSync E w p data)) !! q = files w !! q.
Proof.
  unfold writeFileSync. destruct (write_fault E p) as [[e|e n]|]; simpl;
    repeat split; try done; intros q Hq; now rewrite lookup_insert_ne.
Qed.

Lemma writeJsonSafe_frame E w p data :
  requests (writeJsonSafe E w p data) = requests w
  /\ warnings (writeJsonSafe E w p data) = warnings w
  /\ forall q, q <> p -> files (writeJsonSafe E w p data) !! q = files w !! q.
Proof.
  unfold writeJsonSafe, ensureDirectoryExists.
  destruct (mkdir_error E (path_dirname p)); [done|].
  apply writeFileSync_frame.
Qed.



Lemma JSON_roundtrip_meta_record a b now :
  JSON_roundtrip (meta_record a b now)
  = meta_record (JSON_roundtrip a) (JSON_roundtrip b) now.
Proof. reflexivity. Qed.

(** Reading the metadata a successful [writeJsonSafe] has stored. *)
Lemma stored_meta_after_write config (w' : world) a b now :
  files w' !! metaPath_of config = Some (JsonDoc (meta_record a b now)) ->
  stored_meta config w' = meta_record a b now.
Proof.
  intros Hfile. unfold stored_meta, read_meta, readJsonSafe, read_json.
  now rewrite Hfile.
Qed.

Lemma lastFetchedAtMs_of_meta_record a b now :
  lastFetchedAtMs_of (meta_record a b now) = ofZ now.
Proof. reflexivity. Qed.


(** ** Not modified *)

(** What a [304] does, whether or not the metadata can be written: the
    output path is returned, no file other than the metadata file is
    touched, and a metadata write that fails before the file is opened
    leaves every file as it was. *)
Lemma not_modified_frame fuel E config w resp log :
  publicUrl config <> "" ->
  fresh_now E config w = false ->
  conditional_fetch fuel E config w = (Fulfilled resp, log) ->
  r_statusCode resp = 304 ->
  exists w',
    ensureFreshLlmsFile fuel E config w = (Fulfilled (outPath_of config), w')
    /\ requests w' = log
    /\ warnings w' = warnings w
    /\ (forall p, p <> metaPath_of config -> files w' !! p = files w !! p)
    /\ (meta_write_fails_early E config -> files w' = files w)
    /\ (meta_write_succeeds E config ->
        files w' !! metaPath_of config
        = Some (JsonDoc (meta_record
                           (JSON_roundtrip (validator (stored_meta config w) "etag"))
                           (JSON_roundtrip
                              (validator (stored_meta config w) "lastModified"))
                           (Date_now E)))).
Proof.
  intros Hurl Hfresh Hfetch Hstatus.
  rewrite (ensureFresh_not_modified _ _ _ _ _ _ Hurl Hfresh Hfetch Hstatus).
  eexists. split; [reflexivity|].
  destruct (writeJsonSafe_frame E (with_requests w log) (metaPath_of config)
              (meta_record (or_null (prop (stored_meta config w) "etag"))
                 (or_null (prop (stored_meta config w) "lastModified"))
                 (Date_now E))) as (Hreq & Hwarn & Hother).
  repeat split; try assumption.
  - intros Hfail. now rewrite writeJsonSafe_swallows.
  - intros [Hdir Hwrite]. rewrite writeJsonSafe_ok by assumption.
    simpl. now rewrite lookup_insert_eq.
Qed.




(** ** The TTL *)

Lemma number_mul_whole a b :
  (Z.abs (a * b) < 2 ^ 53)%Z -> number_mul (ofZ a) (ofZ b) = ofZ (a * b).
Proof.
  intros H. unfold number_mul, ofZ, round53.
  rewrite (nearest_Qeq _ _ (inject_Z (a * b))); [now apply nearest_whole|].
  now rewrite inject_Z_mult.
Qed.

Lemma number_sub_whole a b :
  (Z.abs (a - b) < 2 ^ 53)%Z -> number_sub (ofZ a) (ofZ b) = ofZ (a - b).
Proof.
  intros H. unfold number_sub, ofZ, round53.
  rewrite (nearest_Qeq _ _ (inject_Z (a - b))); [now apply nearest_whole|].
  unfold Z.sub. rewrite inject_Z_plus, inject_Z_opp. reflexivity.
Qed.

Lemma Math_floor_whole z : Math_floor (ofZ z) = ofZ z.
Proof. unfold Math_floor, ofZ. now rewrite Qfloor_Z. Qed.

(** A number that is not above zero. *)
Lemma Math_max_zero x :
  x <> NaN -> number_lt (ofZ 0) x = false -> Math_max (ofZ 0) x = ofZ 0.
Proof.
  intros Hx Hlt. unfold Math_max. change (ofZ 0) with (Finite (inject_Z 0)).
  cbv iota. destruct x; try congruence;
    change (Finite (inject_Z 0)) with (ofZ 0); now rewrite Hlt.
Qed.

Lemma not_above_zero_cases x :
  x <> NaN -> number_lt (ofZ 0) x = false ->
  x = NegInfinity \/ exists v, x = Finite v /\ (v <= 0)%Q.
Proof.
  intros Hx Hlt. destruct x as [| | |v]; try congruence; try discriminate.
  - now left.
  - right. exists v. split; [reflexivity|]. now apply Qltb_false in Hlt.
Qed.

Lemma negative_not_above_zero x :
  negative_number x -> x <> NaN /\ number_lt (ofZ 0) x = false.
Proof.
  intros [->|(v & -> & Hv)]; [now split|]. split; [discriminate|].
  apply Qltb_false. now apply Qlt_le_weak.
Qed.

(** Multiplying a number that is not above zero by a positive whole
    number gives a number that is not above zero. *)
Lemma number_mul_not_above_zero x c :
  (0 < c)%Z ->
  x <> NaN -> number_lt (ofZ 0) x = false ->
  number_mul x (ofZ c) <> NaN /\ number_lt (ofZ 0) (number_mul x (ofZ c)) = false.
Proof.
  intros Hc Hx Hlt.
  assert (Hcq : (0 < inject_Z c)%Q) by (unfold Qlt; simpl; lia).
  destruct (not_above_zero_cases _ Hx Hlt) as [->|(v & -> & Hv)].
  - unfold number_mul, ofZ.
    assert (Hz : Qzerob (inject_Z c) = false).
    { apply Qzerob_false. intros Heq. rewrite Heq in Hcq.
      now apply (Qlt_irrefl 0). }
    assert (Hn : Qltb (inject_Z c) 0 = false).
    { apply Qltb_false. now apply Qlt_le_weak. }
    rewrite Hz, Hn. now split.
  - unfold number_mul, ofZ. fold (ofZ 0).
    destruct (Qlt_le_dec v 0) as [Hneg|Hpos].
    + apply negative_not_above_zero, round53_sign.
      assert (H : (v * inject_Z c < 0 * inject_Z c)%Q)
        by now apply Qmult_lt_compat_r.
      now rewrite Qmult_0_l in H.
    + assert (Hzero : (v * inject_Z c == 0)%Q).
      { assert (Hv0 : (v == 0)%Q) by now apply Qle_antisym.
        rewrite Hv0. ring. }
      destruct (round53_sign (v * inject_Z c)) as (_ & _ & H).
      rewrite (H Hzero). now split.
Qed.

Lemma Math_floor_not_above_zero x :
  x <> NaN -> number_lt (ofZ 0) x = false ->
  Math_floor x <> NaN /\ number_lt (ofZ 0) (Math_floor x) = false.
Proof.
  intros Hx Hlt.
  destruct (not_above_zero_cases _ Hx Hlt) as [->|(v & -> & Hv)]; [now split|].
  split; [discriminate|]. unfold Math_floor, number_lt, ofZ.
  apply Qltb_false. apply Qfloor_resp_le in Hv.
  change (Qfloor 0) with 0%Z in Hv. unfold Qle. simpl. lia.
Qed.

Lemma ttlMs_of_not_finite ttl :
  Number_isFinite ttl = false -> ttlMs_of ttl = ofZ (24 * 60 * 60 * 1000).
Proof. destruct ttl; intros H; try discriminate; vm_compute; reflexivity. Qed.

Lemma ttlMs_of_not_positive q : (q <= 0)%Q -> ttlMs_of (Finite q) = ofZ 0.
Proof.
  intros Hq. unfold ttlMs_of. cbn [Number_isFinite].
  assert (H0 : Finite q <> NaN /\ number_lt (ofZ 0) (Finite q) = false).
  { split; [discriminate|]. now apply Qltb_false. }
  destruct H0 as [Ha Hb].
  destruct (number_mul_not_above_zero (Finite q) 60 ltac:(lia) Ha Hb) as [Ha1 Hb1].
  destruct (number_mul_not_above_zero _ 60 ltac:(lia) Ha1 Hb1) as [Ha2 Hb2].
  destruct (number_mul_not_above_zero _ 1000 ltac:(lia) Ha2 Hb2) as [Ha3 Hb3].
  destruct (Math_floor_not_above_zero _ Ha3 Hb3) as [Ha4 Hb4].
  now apply Math_max_zero.
Qed.

(** A whole number of hours is a whole number of milliseconds. *)
Lemma ttlMs_of_whole h :
  (0 <= h)%Z -> (h * 3600000 < 2 ^ 53)%Z ->
  ttlMs_of (ofZ h) = ofZ (h * 3600000).
Proof.
  intros Hh Hbound. unfold ttlMs_of. cbn [Number_isFinite ofZ]. fold (ofZ h).
  rewrite !number_mul_whole by lia. rewrite Math_floor_whole.
  replace (h * 60 * 60 * 1000)%Z with (h * 3600000)%Z by lia.
  unfold Math_max, ofZ, number_lt. rewrite Qltb_inject_Z.
  destruct (0 <? h * 3600000)%Z eqn:Hz; [reflexivity|].
  apply Z.ltb_ge in Hz. now replace (h * 3600000)%Z with 0%Z by lia.
Qed.

(** The sign of a rounded difference is that of the difference. *)
Lemma round53_below_zero x :
  number_lt (round53 x) (ofZ 0) = true <-> (x < 0)%Q.
Proof.
  destruct (round53_sign x) as (Hpos & Hneg & Hzero). split.
  - intros Hlt. destruct (Qlt_le_dec x 0) as [|Hge]; [assumption|].
    exfalso. destruct (Qle_lt_or_eq _ _ Hge) as [Hgt|Heq].
    + destruct (Hpos Hgt) as [Hx|(v & Hx & Hv)]; rewrite Hx in Hlt;
        [discriminate|].
      apply Qltb_true in Hlt. apply (Qlt_irrefl 0).
      now apply Qlt_trans with v.
    + symmetry in Heq. rewrite (Hzero Heq) in Hlt. discriminate.
  - intros Hx. destruct (Hneg Hx) as [->|(v & -> & Hv)]; [reflexivity|].
    now apply Qltb_true.
Qed.

(** The freshness test under a TTL of [0]. *)
Lemma is_fresh_zero_ttl fileExists t now :
  is_fresh fileExists (Finite t) now (ofZ 0) = true
  <-> fileExists = true /\ ~ (t == 0)%Q /\ (inject_Z now < t)%Q.
Proof.
  unfold is_fresh, number_sub, ofZ. fold (ofZ 0).
  rewrite !andb_true_iff, round53_below_zero. cbn [number_truthy].
  rewrite negb_true_iff, Qzerob_false, Qminus_negative. tauto.
Qed.

(** The freshness test on whole numbers: a timestamp in milliseconds and
    a TTL of a whole number of hours. *)
Lemma is_fresh_whole fileExists t now h :
  (Z.abs (now - t) < 2 ^ 53)%Z -> (0 <= h)%Z -> (h * 3600000 < 2 ^ 53)%Z ->
  is_fresh fileExists (ofZ t) now (ttlMs_of (ofZ h))
  = fileExists && negb (t =? 0)%Z && (now - t <? h * 3600000)%Z.
Proof.
  intros Hdiff Hh Hbound. unfold is_fresh.
  rewrite ttlMs_of_whole, number_sub_whole by assumption.
  unfold number_lt, number_truthy, ofZ. rewrite Qltb_inject_Z.
  do 2 f_equal. unfold Qzerob, Qeq_bool. simpl.
  rewrite Z.mul_1_r. destruct t; reflexivity.
Qed.

Lemma content_write_frame E config w text :
  requests (snd (content_write E config w text)) = requests w
  /\ warnings (snd (content_write E config w text)) = warnings w
  /\ forall q, q <> outPath_of config ->
       files (snd (content_write E config w text)) !! q = files w !! q.
Proof.
  unfold content_write.
  destruct (ensureDirectoryExists E (outputDir config)); [done|].
  apply writeFileSync_frame.
Qed.

(** The requests on record after a call that was not served from the
    cache are those of its conditional fetch. *)
Lemma ensureFresh_requests fuel E config w :
  publicUrl config <> "" ->
  fresh_now E config w = false ->
  requests (snd (ensureFreshLlmsFile fuel E config w))
  = snd (conditional_fetch fuel E config w).
Proof.
  intros Hurl Hfresh.
  destruct (conditional_fetch fuel E config w) as [p log] eqn:Hfetch.
  destruct p as [resp|err| |err].
  - destruct (Z.eq_dec (r_statusCode resp) 304) as [Hs|Hs].
    + rewrite (ensureFresh_not_modified _ _ _ _ _ _ Hurl Hfresh Hfetch Hs).
      simpl. now destruct (writeJsonSafe_frame E (with_requests w log)
        (metaPath_of config)
        (meta_record (or_null (prop (stored_meta config w) "etag"))
           (or_null (prop (stored_meta config w) "lastModified")) (Date_now E)))
        as (-> & _).
    + rewrite (ensureFresh_body _ _ _ _ _ _ Hurl Hfresh Hfetch Hs).
      pose proof (content_write_frame E config (with_requests w log)
                    (r_text resp)) as (Hreq & _).
      destruct (content_write E config (with_requests w log) (r_text resp))
        as [[err|] w2]; simpl in Hreq.
      * unfold serve_cached_or_throw.
        destruct (existsSync w (outPath_of config)); exact Hreq.
      * simpl. match goal with
               | |- requests (writeJsonSafe ?E ?w ?p ?d) = _ =>
                   destruct (writeJsonSafe_frame E w p d) as (-> & _)
               end. exact Hreq.
  - rewrite (ensureFresh_rejected _ _ _ _ _ _ Hurl Hfresh Hfetch).
    unfold serve_cached_or_throw.
    destruct (existsSync w (outPath_of config)); reflexivity.
  - now rewrite (ensureFresh_unsettled _ _ _ _ _ Hurl Hfresh Hfetch).
  - now rewrite (ensureFresh_uncaught _ _ _ _ _ _ Hurl Hfresh Hfetch).
Qed.

(** A call that is not served from the cache and has a well-formed
    [http(s)] source URL issues a request. *)
Lemma stale_call_issues_request fuel E config w parsed :
  publicUrl config <> "" ->
  fresh_now E config w = false ->
  new_URL (sourceUrl_of config) = Some parsed ->
  client_rejects (url_protocol parsed) = None ->
  exists more,
    requests (snd (ensureFreshLlmsFile (S fuel) E config w))
    = (requests w
       ++ get_options parsed (userAgent config)
            (prop (stored_meta config w) "etag")
            (prop (stored_meta config w) "lastModified") :: more)%list.
Proof.
  intros Hurl Hfresh Hparsed Hproto.
  rewrite (ensureFresh_requests _ _ _ _ Hurl Hfresh).
  destruct (conditional_fetch (S fuel) E config w) as [p log] eqn:Hfetch.
  unfold conditional_fetch in Hfetch.
  apply (fetchTextFileWithMetadata_issues _ _ _ _ _ _ _ _ Hparsed Hproto) in Hfetch.
  exact Hfetch.
Qed.

(** C5 (amended): a TTL of [0], like any negative finite TTL, gives a TTL
    of [0] ms, under which the cache is used only when a content file
    exists and the stored timestamp is non-zero and lies strictly in the
    future; with a
    stored timestamp not later than the current time a request is issued.
    A non-finite [ttlHours] ([NaN], [Infinity], [-Infinity]) is not
    treated as [0] but as 24 hours. *)
Theorem ttl_zero_revalidates_and_non_finite_ttl_is_a_day :
  (forall ttl, Number_isFinite ttl = false ->
     ttlMs_of ttl = ofZ (24 * 60 * 60 * 1000)
     /\ ttlMs_of ttl = ttlMs_of (ofZ 24))
  /\ (forall q, (q <= 0)%Q -> ttlMs_of (Finite q) = ofZ 0)
  /\ (forall E config w q t,
       ttlHours config = Finite q -> (q <= 0)%Q ->
       lastFetchedAtMs_of (stored_meta config w) = Finite t ->
       (fresh_now E config w = true
        <-> existsSync w (outPath_of config) = true
            /\ ~ (t == 0)%Q
            /\ (inject_Z (Date_now E) < t)%Q))
  /\ (forall fuel E config w q t parsed,
       publicUrl config <> "" ->
       ttlHours config = Finite q -> (q <= 0)%Q ->
       lastFetchedAtMs_of (stored_meta config w) = Finite t ->
       (t <= inject_Z (Date_now E))%Q ->
       new_URL (sourceUrl_of config) = Some parsed ->
       client_rejects (url_protocol parsed) = None ->
       exists more,
         requests (snd (ensureFreshLlmsFile (S fuel) E config w))
         = (requests w
            ++ get_options parsed (userAgent config)
                 (prop (stored_meta config w) "etag")
                 (prop (stored_meta config w) "lastModified") :: more)%list).
Proof.
  assert (Hiff : forall E config w q t,
    ttlHours config = Finite q -> (q <= 0)%Q ->
    lastFetchedAtMs_of (stored_meta config w) = Finite t ->
    (fresh_now E config w = true
     <-> existsSync w (outPath_of config) = true
         /\ ~ (t == 0)%Q
         /\ (inject_Z (Date_now E) < t)%Q)).
  { intros E config w q t Httl Hq Hlast. unfold fresh_now.
    rewrite Hlast, Httl, (ttlMs_of_not_positive _ Hq).
    apply is_fresh_zero_ttl. }
  split; [|split; [|split]].
  - intros ttl Hinf. rewrite (ttlMs_of_not_finite _ Hinf).
    split; [reflexivity|]. symmetry. now apply (ttlMs_of_whole 24).
  - intros q Hq. now apply ttlMs_of_not_positive.
  - exact Hiff.
  - intros fuel E config w q t parsed Hurl Httl Hq Hlast Hle Hparsed Hproto.
    apply stale_call_issues_request; try assumption.
    destruct (fresh_now E config w) eqn:Hfresh; [|reflexivity].
    apply (Hiff E config w q t Httl Hq Hlast) in Hfresh as (_ & _ & Hlt).
    exfalso. now apply (Qlt_not_le _ _ Hlt).
Qed.

(** ** New content *)

(** A [200] whose content is written. *)
Lemma body_written fuel E config w resp log :
  publicUrl config <> "" ->
  fresh_now E config w = false ->
  conditional_fetch fuel E config w = (Fulfilled resp, log) ->
  r_statusCode resp <> 304 ->
  mkdir_error E (outputDir config) = None ->
  write_fault E (outPath_of config) = None ->
  ensureFreshLlmsFile fuel E config w
  = (Fulfilled (outPath_of config),
     writeJsonSafe E
       {| files := <[outPath_of config := Text (r_text resp)]> (files w);
          requests := log;
          warnings := warnings w |}
       (metaPath_of config)
       (meta_record (or_null (Some (r_etag resp)))
                    (or_null (Some (r_lastModified resp))) (Date_now E))).
Proof.
  intros Hurl Hfresh Hfetch Hstatus Hdir Hwrite.
  rewrite (ensureFresh_body _ _ _ _ _ _ Hurl Hfresh Hfetch Hstatus).
  unfold content_write, ensureDirectoryExists, writeFileSync.
  now rewrite Hdir, Hwrite.
Qed.

(** A [200] whose content and metadata are both written. *)
Lemma body_stored fuel E config w resp log :
  publicUrl config <> "" ->
  fresh_now E config w = false ->
  conditional_fetch fuel E config w = (Fulfilled resp, log) ->
  r_statusCode resp <> 304 ->
  mkdir_error E (outputDir config) = None ->
  write_fault E (outPath_of config) = None ->
  meta_write_succeeds E config ->
  ensureFreshLlmsFile fuel E config w
  = (Fulfilled (outPath_of config),
     {| files :=
          <[metaPath_of config :=
              JsonDoc (meta_record
                         (JSON_roundtrip (or_null (Some (r_etag resp))))
                         (JSON_roundtrip (or_null (Some (r_lastModified resp))))
                         (Date_now E))]>
            (<[outPath_of config := Text (r_text resp)]> (files w));
        requests := log;
        warnings := warnings w |}).
Proof.
  intros Hurl Hfresh Hfetch Hstatus Hdir Hwrite [Hmdir Hmwrite].
  rewrite (body_written _ _ _ _ _ _ Hurl Hfresh Hfetch Hstatus Hdir Hwrite).
  now rewrite writeJsonSafe_ok by assumption.
Qed.

(** A failing metadata write fails before the file is opened, or after. *)
Lemma meta_write_fails_cases E config :
  meta_write_fails E config ->
  meta_write_fails_early E config
  \/ exists written, meta_write_fails_late E config written.
Proof.
  unfold meta_write_fails, meta_write_fails_early, meta_write_fails_late.
  intros Hfail.
  destruct (mkdir_error E (path_dirname (metaPath_of config))) eqn:Hdir;
    [left; left; congruence|].
  destruct (write_fault E (metaPath_of config)) as [[e|e n]|] eqn:Hwrite.
  - left. right. now exists e.
  - right. exists n. split; [reflexivity|]. now exists e.
  - destruct Hfail; congruence.
Qed.

(** C6 (amended): when new content has been written and the metadata
    write then fails, [writeJsonSafe] swallows the failure: the call is
    fulfilled with the output path exactly as on success, nothing is
    logged and the new content stays on disk.  No file other than the
    content and metadata files is touched; the metadata file is as it was
    when the write fails before the file is opened, and holds the part
    written, which reads as no metadata, when it fails later. *)
Theorem metadata_write_failure_is_swallowed fuel E config w resp log :
  publicUrl config <> "" ->
  fresh_now E config w = false ->
  conditional_fetch fuel E config w = (Fulfilled resp, log) ->
  r_statusCode resp <> 304 ->
  mkdir_error E (outputDir config) = None ->
  write_fault E (outPath_of config) = None ->
  meta_write_fails E config ->
  forall extra,
    exists w',
      ensureFreshLlmsFile (fuel + extra) E config w
      = (Fulfilled (outPath_of config), w')
      /\ requests w' = log
      /\ warnings w' = warnings w
      /\ files w' !! outPath_of config = Some (Text (r_text resp))
      /\ (forall p, p <> outPath_of config -> p <> metaPath_of config ->
          files w' !! p = files w !! p)
      /\ (meta_write_fails_early E config ->
          files w' = <[outPath_of config := Text (r_text resp)]> (files w))
      /\ (forall written, meta_write_fails_late E config written ->
          files w' !! metaPath_of config
          = Some (TornJson written
                    (meta_record
                       (JSON_roundtrip (or_null (Some (r_etag resp))))
                       (JSON_roundtrip (or_null (Some (r_lastModified resp))))
                       (Date_now E)))
          /\ stored_meta config w' = JObject []).
Proof.
  intros Hurl Hfresh Hfetch Hstatus Hdir Hwrite Hfail extra.
  eapply conditional_fetch_more_fuel in Hfetch; [|discriminate].
  rewrite (body_written _ _ _ _ _ _ Hurl Hfresh Hfetch Hstatus Hdir Hwrite).
  eexists. split; [reflexivity|].
  match goal with
  | |- context [writeJsonSafe ?E ?w ?p ?d] =>
      destruct (writeJsonSafe_frame E w p d) as (Hreq & Hwarn & Hother)
  end.
  split; [exact Hreq|]. split; [exact Hwarn|].
  assert (Hpaths : outPath_of config <> metaPath_of config
                   \/ meta_write_fails_early E config).
  { destruct (meta_write_fails_cases _ _ Hfail) as [Hearly|[n [_ [e He]]]];
      [now right|left]. intros Heq. rewrite Heq in Hwrite. congruence. }
  split; [|split; [|split]].
  - destruct Hpaths as [Hne|Hearly].
    + rewrite Hother by exact Hne. simpl. now rewrite lookup_insert_eq.
    + rewrite writeJsonSafe_swallows by exact Hearly.
      simpl. now rewrite lookup_insert_eq.
  - intros p Hp Hq. rewrite Hother by exact Hq.
    simpl. now rewrite lookup_insert_ne.
  - intros Hearly. now rewrite writeJsonSafe_swallows by exact Hearly.
  - intros written [Hmdir [e He]].
    rewrite (writeJsonSafe_tears _ _ _ _ _ _ Hmdir He). simpl.
    rewrite lookup_insert_eq. split; [reflexivity|].
    unfold stored_meta, read_meta, readJsonSafe, read_json. simpl.
    now rewrite lookup_insert_eq.
Qed.

(** ** Fresh cache *)

Lemma existsSync_insert (w : world) fs p q data :
  p = q \/ is_Some (fs !! q) ->
  existsSync (with_files w (<[p := data]> fs)) q = true.
Proof.
  intros H. unfold existsSync. apply bool_decide_eq_true. simpl.
  destruct (decide (p = q)) as [->|Hne].
  - rewrite lookup_insert_eq. eauto.
  - rewrite lookup_insert_ne by assumption. now destruct H.
Qed.

Lemma existsSync_is_Some (w : world) p :
  existsSync w p = true <-> is_Some (files w !! p).
Proof. unfold existsSync. apply bool_decide_eq_true. Qed.

Lemma number_sub_self now : number_sub (ofZ now) (ofZ now) = ofZ 0.
Proof.
  unfold number_sub, ofZ.
  destruct (round53_sign (inject_Z now - inject_Z now)) as (_ & _ & H).
  apply H. ring.
Qed.

Lemma number_truthy_whole z : z <> 0 -> number_truthy (ofZ z) = true.
Proof.
  intros Hz. unfold number_truthy, ofZ. apply negb_true_iff, Qzerob_false.
  intros Heq. apply Hz. unfold Qeq in Heq. simpl in Heq. lia.
Qed.

(** Once the content file exists and the metadata carries the current
    time, the freshness test succeeds for any positive TTL. *)
Lemma fresh_after_store E config (w1 : world) a b :
  existsSync w1 (outPath_of config) = true ->
  files w1 !! metaPath_of config = Some (JsonDoc (meta_record a b (Date_now E))) ->
  Date_now E <> 0 ->
  ttl_positive config ->
  fresh_now E config w1 = true.
Proof.
  intros Hfile Hmeta Hnow Httl. unfold fresh_now.
  rewrite (stored_meta_after_write _ _ _ _ _ Hmeta).
  rewrite lastFetchedAtMs_of_meta_record. unfold is_fresh.
  rewrite Hfile, number_sub_self, (number_truthy_whole _ Hnow).
  exact Httl.
Qed.

(** The freshness test reads the files only. *)
Lemma stored_meta_files config (w w' : world) :
  files w' = files w -> stored_meta config w' = stored_meta config w.
Proof.
  intros H. unfold stored_meta, read_meta, readJsonSafe, read_json.
  now rewrite H.
Qed.

Lemma fresh_now_files E config (w w' : world) :
  files w' = files w -> fresh_now E config w' = fresh_now E config w.
Proof.
  intros H. unfold fresh_now, existsSync.
  now rewrite (stored_meta_files _ _ _ H), H.
Qed.

(** C1 (amended): when the content file exists and the stored
    [lastFetchedAtMs] is a non-zero number with
    [now - lastFetchedAtMs < ttlMs], difference and TTL as the program
    computes them in binary64, [ensureFreshLlmsFile] returns the output
    path and leaves the world, request log included, as it was; for a
    timestamp in whole milliseconds and a TTL of [h] whole hours the test
    is [now - lastFetchedAtMs < h * 3600000].  Consequently, after a call
    whose conditional fetch succeeded and whose writes succeeded, at a
    non-zero time and with a TTL of at least one millisecond, any further
    call at the same time returns the output path without a request: the
    requests on record stay those of the first call's fetch.  After a call
    whose conditional fetch rejected no file has changed, and a further
    call at the same time issues a request again. *)
Theorem fresh_cache_is_served_without_request :
  (forall fuel E config w,
     publicUrl config <> "" ->
     existsSync w (outPath_of config) = true ->
     number_truthy (lastFetchedAtMs_of (stored_meta config w)) = true ->
     number_lt (number_sub (ofZ (Date_now E))
                           (lastFetchedAtMs_of (stored_meta config w)))
               (ttlMs_of (ttlHours config)) = true ->
     ensureFreshLlmsFile fuel E config w = (Fulfilled (outPath_of config), w))
  /\ (forall fuel E config w t h,
       publicUrl config <> "" ->
       existsSync w (outPath_of config) = true ->
       lastFetchedAtMs_of (stored_meta config w) = ofZ t ->
       ttlHours config = ofZ h ->
       0 <= h -> h * 3600000 < 2 ^ 53 -> Z.abs (Date_now E - t) < 2 ^ 53 ->
       t <> 0 ->
       Date_now E - t < h * 3600000 ->
       ensureFreshLlmsFile fuel E config w = (Fulfilled (outPath_of config), w))
  /\ (forall fuel E config w resp log,
       publicUrl config <> "" ->
       fresh_now E config w = false ->
       conditional_fetch fuel E config w = (Fulfilled resp, log) ->
       (r_statusCode resp = 304 -> existsSync w (outPath_of config) = true) ->
       (r_statusCode resp <> 304 ->
        mkdir_error E (outputDir config) = None
        /\ write_fault E (outPath_of config) = None) ->
       meta_write_succeeds E config ->
       Date_now E <> 0 ->
       ttl_positive config ->
       exists w1,
         ensureFreshLlmsFile fuel E config w = (Fulfilled (outPath_of config), w1)
         /\ requests w1 = log
         /\ forall fuel2,
             ensureFreshLlmsFile fuel2 E config w1
             = (Fulfilled (outPath_of config), w1))
  /\ (forall fuel E config w err log parsed,
       publicUrl config <> "" ->
       fresh_now E config w = false ->
       conditional_fetch fuel E config w = (Rejected err, log) ->
       new_URL (sourceUrl_of config) = Some parsed ->
       client_rejects (url_protocol parsed) = None ->
       exists p w1,
         ensureFreshLlmsFile fuel E config w = (p, w1)
         /\ requests w1 = log
         /\ files w1 = files w
         /\ forall fuel2,
             exists more,
               requests (snd (ensureFreshLlmsFile (S fuel2) E config w1))
               = (log
                  ++ get_options parsed (userAgent config)
                       (prop (stored_meta config w) "etag")
                       (prop (stored_meta config w) "lastModified")
                       :: more)%list).
Proof.
  split; [|split; [|split]].
  - intros fuel E config w Hurl Hfile Hlast Hlt.
    apply ensureFresh_fresh; [exact Hurl|]. unfold fresh_now, is_fresh.
    now rewrite Hfile, Hlast, Hlt.
  - intros fuel E config w t h Hurl Hfile Hlast Httl Hh Hbound Hdiff Ht Hlt.
    apply ensureFresh_fresh; [exact Hurl|]. unfold fresh_now.
    rewrite Hlast, Httl, is_fresh_whole, Hfile by assumption.
    apply Z.eqb_neq in Ht. apply Z.ltb_lt in Hlt. now rewrite Ht, Hlt.
  - intros fuel E config w resp log Hurl Hfresh Hfetch H304 H200 Hmeta Hnow Httl.
    destruct (Z.eq_dec (r_statusCode resp) 304) as [Hs|Hs].
    + destruct (not_modified_frame _ _ _ _ _ _ Hurl Hfresh Hfetch Hs)
        as (w1 & Hrun & Hreq & _ & Hother & _ & Hstored).
      specialize (Hstored Hmeta). exists w1. repeat split; try assumption.
      intros fuel2. apply ensureFresh_fresh; [exact Hurl|].
      eapply fresh_after_store; eauto.
      apply existsSync_is_Some.
      destruct (decide (outPath_of config = metaPath_of config)) as [Heq|Hne].
      * rewrite Heq, Hstored. eauto.
      * rewrite Hother by assumption. now apply existsSync_is_Some, H304.
    + destruct (H200 Hs) as [Hdir Hwrite].
      rewrite (body_stored _ _ _ _ _ _ Hurl Hfresh Hfetch Hs Hdir Hwrite Hmeta).
      eexists. split; [reflexivity|]. split; [reflexivity|].
      intros fuel2. apply ensureFresh_fresh; [exact Hurl|].
      eapply fresh_after_store; eauto.
      * apply existsSync_is_Some. simpl.
        destruct (decide (metaPath_of config = outPath_of config)) as [Heq|Hne].
        -- rewrite Heq, lookup_insert_eq. eauto.
        -- rewrite lookup_insert_ne, lookup_insert_eq by assumption. eauto.
      * simpl. now rewrite lookup_insert_eq.
  - intros fuel E config w err log parsed Hurl Hfresh Hfetch Hparsed Hproto.
    rewrite (ensureFresh_rejected _ _ _ _ _ _ Hurl Hfresh Hfetch).
    set (run := serve_cached_or_throw _ _ _ _).
    assert (Hfiles : files (snd run) = files w)
      by (subst run; now rewrite serve_cached_or_throw_files).
    assert (Hreq : requests (snd run) = log).
    { subst run. unfold serve_cached_or_throw.
      now destruct (existsSync w (outPath_of config)). }
    exists (fst run), (snd run). split; [now destruct run|].
    split; [exact Hreq|]. split; [exact Hfiles|].
    intros fuel2.
    rewrite <- Hreq, <- (stored_meta_files config _ _ Hfiles).
    apply stale_call_issues_request; try assumption.
    now rewrite (fresh_now_files _ _ _ _ Hfiles).
Qed.

(** ** Redirects *)






(** ** Joining the source URL *)

Lemma endsWith_slash_append s : endsWith_slash (s ++ "/") = true.
Proof.
  induction s as [|c s IH]; [reflexivity|].
  simpl. destruct s; [reflexivity|exact IH].
Qed.

Lemma slice_0_minus1_append s c : slice_0_minus1 (s ++ String c "") = s.
Proof.
  induction s as [|c' s IH]; [reflexivity|].
  simpl. destruct s as [|c'' s]; [reflexivity|].
  simpl in IH |- *. now rewrite IH.
Qed.

Lemma replace_trailing_slash_append s : replace_trailing_slash (s ++ "/") = s.
Proof.
  unfold replace_trailing_slash.
  now rewrite endsWith_slash_append, slice_0_minus1_append.
Qed.

Lemma endsWith_slash_inv s :
  endsWith_slash s = true -> s = slice_0_minus1 s ++ "/".
Proof.
  induction s as [|c s IH]; [discriminate|].
  destruct s as [|c' s].
  - simpl. intros H. apply Ascii.eqb_eq in H. now subst.
  - intros H.
    change (endsWith_slash (String c' s) = true) in H.
    change (String c (String c' s)
            = String c (slice_0_minus1 (String c' s) ++ "/")).
    f_equal. now apply IH.
Qed.

(** After the replacement the string still ends in a slash exactly when
    it ended in two. *)
Lemma replace_trailing_slash_double s :
  endsWith_slash (replace_trailing_slash s) = true <-> exists r, s = r ++ "//".
Proof.
  split.
  - unfold replace_trailing_slash.
    destruct (endsWith_slash s) eqn:Hs; [|congruence].
    intros Hr. exists (slice_0_minus1 (slice_0_minus1 s)).
    apply endsWith_slash_inv in Hs. apply endsWith_slash_inv in Hr.
    rewrite Hs at 1. rewrite Hr at 1. now rewrite string_append_assoc.
  - intros [r ->]. change (r ++ "//") with (r ++ ("/" ++ "/")).
    rewrite <- string_append_assoc, replace_trailing_slash_append.
    apply endsWith_slash_append.
Qed.

Lemma joinUrl_parsed base suffix u :
  new_URL base = Some u ->
  joinUrl base suffix
  = url_toString
      (url_set_pathname u (replace_trailing_slash (url_pathname u) ++ suffix)).
Proof. intros H. unfold joinUrl. now rewrite H. Qed.

Lemma joinUrl_fallback base suffix :
  new_URL base = None ->
  joinUrl base suffix = replace_trailing_slash base ++ suffix.
Proof. intros H. unfold joinUrl. now rewrite H. Qed.

(** A string that does not end in two slashes does not end in a slash
    once [joinUrl] has taken one off. *)
Lemma replace_trailing_slash_single s :
  (forall r, s <> r ++ "//") ->
  endsWith_slash (replace_trailing_slash s) = false.
Proof.
  intros Hs. destruct (endsWith_slash (replace_trailing_slash s)) eqn:H;
    [|reflexivity].
  apply replace_trailing_slash_double in H as [r Hr]. now destruct (Hs r).
Qed.

Section Joining.

Context `{R : !UrlRecords}.

Import Whatwg.

Lemma before_path_with_path (r : url_record) p :
  is_Some (host r) -> before_path (with_path r p) = before_path r.
Proof. intros [h Hh]. unfold before_path, with_path. simpl. now rewrite Hh. Qed.

(** The source URL of an [http(s)] base: the suffix is appended to the
    path, one trailing slash taken off, between what the serializer puts
    before the path and after it. *)
Lemma joinUrl_web base u l :
  new_URL base = Some u ->
  web_record (record_of u) l ->
  joinUrl base "/llms.txt"
  = before_path (record_of u)
    ++ (replace_trailing_slash (pathname (record_of u)) ++ "/llms.txt")
    ++ after_path (record_of u).
Proof.
  intros Hbase (Hweb & Hhost & Hpath & Hl).
  rewrite (joinUrl_parsed _ _ _ Hbase), record_toString, record_set_pathname,
    record_pathname.
  change "/llms.txt" with ("/" ++ "llms.txt").
  rewrite (set_pathname_joined _ _ _ Hweb Hpath Hl (llms_txt_stable _)).
  unfold href. rewrite (before_path_with_path _ _ Hhost).
  f_equal. f_equal. unfold pathname at 1. cbn [path with_path].
  rewrite serialize_segments_app. unfold pathname. rewrite Hpath.
  now rewrite (replace_trailing_slash_segments _ _ Hl).
Qed.

(** The path of the URL the join builds. *)
Lemma joinUrl_web_pathname u l :
  web_record (record_of u) l ->
  url_pathname
    (url_set_pathname u (replace_trailing_slash (url_pathname u) ++ "/llms.txt"))
  = replace_trailing_slash (url_pathname u) ++ "/llms.txt".
Proof.
  intros (Hweb & Hhost & Hpath & Hl).
  rewrite !record_pathname, record_set_pathname.
  change "/llms.txt" with ("/" ++ "llms.txt").
  rewrite (set_pathname_joined _ _ _ Hweb Hpath Hl (llms_txt_stable _)).
  unfold pathname at 1. cbn [path with_path].
  rewrite serialize_segments_app. unfold pathname. rewrite Hpath.
  now rewrite (replace_trailing_slash_segments _ _ Hl).
Qed.

Lemma web_record_slash (r : url_record) l :
  web_record r l ->
  web_record (with_path r (PathSegments (l ++ [""]))) (l ++ [""])
  /\ pathname (with_path r (PathSegments (l ++ [""]))) = pathname r ++ "/".
Proof.
  intros (Hweb & Hhost & Hpath & Hl). split.
  - repeat split; try assumption. cbn [scheme with_path].
    rewrite forallb_app, Hl. reflexivity.
  - unfold pathname. cbn [path with_path]. rewrite Hpath.
    rewrite serialize_segments_app. reflexivity.
Qed.

(** C8 (amended): for a base that parses as an [http(s)] URL the derived
    source URL is that URL with ["/llms.txt"] appended to its path, one
    trailing slash of the path taken off first: what precedes the path
    stays in front, query and fragment stay behind, and the path of the
    result is the path of the base without that slash, followed by
    ["/llms.txt"].  For a base that does not parse the suffix is appended
    to the string, one trailing slash taken off.  A base with an extra
    trailing slash gives the same URL when it parses to the same URL,
    when the slash lands at the end of a path that did not end in one, or
    when neither string parses and the base does not end in a slash.
    Where the path of the base (or the base itself) does not end in two
    slashes, no slash precedes the one of ["/llms.txt"]. *)
Theorem joinUrl_strips_one_trailing_slash :
  (forall config u l,
     new_URL (publicUrl config) = Some u ->
     web_record (record_of u) l ->
     sourceUrl_of config
     = before_path (record_of u)
       ++ (replace_trailing_slash (pathname (record_of u)) ++ "/llms.txt")
       ++ after_path (record_of u)
     /\ url_pathname
          (url_set_pathname u
             (replace_trailing_slash (url_pathname u) ++ "/llms.txt"))
        = replace_trailing_slash (url_pathname u) ++ "/llms.txt")
  /\ (forall base suffix,
       new_URL base = None ->
       joinUrl base suffix = replace_trailing_slash base ++ suffix)
  /\ (forall base u u' l,
       new_URL base = Some u ->
       new_URL (base ++ "/") = Some u' ->
       web_record (record_of u) l ->
       record_of u' = record_of u
       \/ (record_of u' = with_path (record_of u) (PathSegments (l ++ [""]))
           /\ endsWith_slash (pathname (record_of u)) = false) ->
       joinUrl (base ++ "/") "/llms.txt" = joinUrl base "/llms.txt")
  /\ (forall base suffix,
       new_URL base = None ->
       new_URL (base ++ "/") = None ->
       endsWith_slash base = false ->
       joinUrl (base ++ "/") suffix = joinUrl base suffix
       /\ joinUrl base suffix = base ++ suffix)
  /\ (forall p,
       (forall r, p <> r ++ "//") ->
       endsWith_slash (replace_trailing_slash p) = false).
Proof.
  repeat apply conj.
  - intros config u l Hbase Hweb. split.
    + now apply joinUrl_web with l.
    + now apply joinUrl_web_pathname with l.
  - exact joinUrl_fallback.
  - intros base u u' l Hb Hb' Hweb [Hsame|[Hslash Hend]].
    + rewrite (joinUrl_web _ _ _ Hb Hweb).
      rewrite <- Hsame in Hweb. rewrite (joinUrl_web _ _ _ Hb' Hweb).
      now rewrite Hsame.
    + destruct (web_record_slash _ _ Hweb) as [Hweb' Hpath'].
      rewrite <- Hslash in Hweb', Hpath'.
      rewrite (joinUrl_web _ _ _ Hb Hweb), (joinUrl_web _ _ _ Hb' Hweb').
      rewrite Hpath', replace_trailing_slash_append.
      unfold replace_trailing_slash. rewrite Hend.
      destruct Hweb as (_ & Hhost & _).
      rewrite Hslash, (before_path_with_path _ _ Hhost). reflexivity.
  - intros base suffix Hb Hb' Hend.
    rewrite (joinUrl_fallback _ _ Hb), (joinUrl_fallback _ _ Hb').
    rewrite replace_trailing_slash_append.
    unfold replace_trailing_slash. now rewrite Hend.
  - exact replace_trailing_slash_single.
Qed.

End Joining.

(** ** The next run *)

Lemma is_digit_not_colon c : is_digit c = true -> Ascii.eqb c ":" = false.
Proof.
  destruct c as [[] [] [] [] [] [] [] []]; simpl; intros H;
    try discriminate; reflexivity.
Qed.




Lemma MakeTime_in_range h m :
  0 <= h -> 0 <= m -> h * 3600000 + m * 60000 < 2 ^ 53 ->
  MakeTime h m = Some (h * msPerHour + m * msPerMinute).
Proof.
  intros Hh Hm Hsum. unfold MakeTime, safe_integer, msPerHour, msPerMinute.
  assert (H1 : (Z.abs (h * (60 * 60 * 1000)) <? 2 ^ 53)%Z = true)
    by (apply Z.ltb_lt; lia).
  assert (H2 : (Z.abs (m * (60 * 1000)) <? 2 ^ 53)%Z = true)
    by (apply Z.ltb_lt; lia).
  assert (H3 : (Z.abs (h * (60 * 60 * 1000) + m * (60 * 1000)) <? 2 ^ 53)%Z = true)
    by (apply Z.ltb_lt; lia).
  now rewrite H1, H2, H3.
Qed.

Lemma to_integer_ofZ z : to_integer (ofZ z) = Some z.
Proof.
  unfold to_integer, ofZ. rewrite Qceiling_Z, Qfloor_Z.
  now destruct (Qltb (inject_Z z) 0).
Qed.

Lemma TimeClip_in_range t :
  Z.abs t <= 8640000000000000 -> TimeClip t = Some t.
Proof. intros H. unfold TimeClip. apply Z.leb_le in H. now rewrite H. Qed.



End Properties.

(** * Further properties *)

Section FurtherProperties.

Context `{U : UrlApi} `{P : Platform}.

(** ** The requests of a fetch *)

Lemma client_accepts protocol :
  client_rejects protocol = None -> protocol = "https:" \/ protocol = "http:".
Proof.
  unfold client_rejects.
  destruct (String.eqb protocol "https:") eqn:Hs;
    [intros _; left; now apply String.eqb_eq|].
  destruct (String.eqb protocol "http:") eqn:Hp;
    [intros _; right; now apply String.eqb_eq|].
  discriminate.
Qed.

Lemma get_options_sent_with parsed opts :
  client_rejects (url_protocol parsed) = None ->
  sent_with opts (get_options parsed (o_userAgent opts) (o_etag opts)
                              (o_lastModified opts)).
Proof.
  intros Hproto. unfold sent_with, get_options. simpl.
  repeat split. now apply client_accepts.
Qed.

(** X1: every request [fetchTextFileWithMetadata] issues, on the first
    hop and on every redirect hop, carries the configured user agent, an
    [If-None-Match] header exactly when the given etag is truthy, an
    [If-Modified-Since] header exactly when the given date is truthy, and
    goes over [http:] or [https:]; earlier requests stay on the log. *)
Theorem fetchTextFileWithMetadata_requests E opts :
  forall fuel log url p log',
    fetchTextFileWithMetadata fuel E log url opts = (p, log') ->
    exists issued,
      log' = (log ++ issued)%list /\ Forall (sent_with opts) issued.
Proof.
  induction fuel as [|fuel IH]; intros log url p log' Hrun;
    cbn [fetchTextFileWithMetadata] in Hrun; cbv zeta in Hrun.
  - exists []. rewrite app_nil_r. split; [|constructor].
    hop_cases Hrun; congruence.
  - destruct (new_URL url) as [parsed|];
      [|exists []; rewrite app_nil_r; split; [congruence|constructor]].
    destruct (client_rejects (url_protocol parsed)) eqn:Hproto;
      [exists []; rewrite app_nil_r; split; [congruence|constructor]|].
    pose proof (get_options_sent_with parsed opts Hproto) as Hrq.
    set (rq := get_options parsed _ _ _) in *.
    hop_cases Hrun;
      try (exists [rq]; split;
           [congruence|constructor; [exact Hrq|constructor]]).
    all: apply IH in Hrun as (issued & -> & Hall);
      exists (rq :: issued); rewrite <- app_assoc; split; [done|];
      now constructor.
Qed.

(** ** The result of a fetch *)

Lemma or_null_header h : null_or_nonempty (or_null (header h)).
Proof.
  destruct h as [s|]; [|now left]. simpl.
  destruct (String.eqb s "") eqn:Hs; simpl; [now left|].
  right. exists s. split; [|reflexivity]. now apply String.eqb_neq.
Qed.

(** X2: a fulfilled [fetchTextFileWithMetadata] is either a [200] whose
    validators are [null] or non-empty strings (an absent or empty [ETag]
    or [Last-Modified] header becomes [null]), or a [304] with an empty
    text that hands back the validators it was given ([null] for a falsy
    one); no other status is ever fulfilled. *)
Theorem fetchTextFileWithMetadata_fulfilled E opts :
  forall fuel log url r log',
    fetchTextFileWithMetadata fuel E log url opts = (Fulfilled r, log') ->
    (r_statusCode r = 200
     /\ null_or_nonempty (r_etag r) /\ null_or_nonempty (r_lastModified r))
    \/ (r_statusCode r = 304
        /\ r_text r = ""
        /\ r_etag r = or_null (o_etag opts)
        /\ r_lastModified r = or_null (o_lastModified opts)).
Proof.
  induction fuel as [|fuel IH]; intros log url r log' Hrun;
    cbn [fetchTextFileWithMetadata] in Hrun; cbv zeta in Hrun.
  - hop_cases Hrun; discriminate.
  - hop_cases Hrun; try discriminate; try (now apply IH in Hrun).
    all: inversion Hrun; subst; cbn [r_statusCode r_text r_etag r_lastModified];
      first [ right; repeat split; reflexivity
            | left; split; [reflexivity|]; split; apply or_null_header ].
Qed.

(** ** The two fetch functions *)

Lemma get_options_falsy parsed ua etag lastModified :
  truthy etag = false -> truthy lastModified = false ->
  get_options parsed ua etag lastModified = get_options parsed ua None None.
Proof. intros He Hl. unfold get_options. now rewrite He, Hl. Qed.

(** X3: given no truthy validator, [fetchTextFile] and
    [fetchTextFileWithMetadata] issue the same requests and settle alike,
    except that a [304] reply, which the second fulfils with an empty
    text, makes the first fail with [Request failed with status 304]. *)
Theorem fetchTextFile_as_fetchTextFileWithMetadata E opts :
  truthy (o_etag opts) = false ->
  truthy (o_lastModified opts) = false ->
  forall fuel log url,
    fetchTextFile fuel E log url (o_userAgent opts) (o_timeoutMs opts)
    = (as_plain (fst (fetchTextFileWithMetadata fuel E log url opts)),
       snd (fetchTextFileWithMetadata fuel E log url opts)).
Proof.
  intros He Hl. induction fuel as [|fuel IH]; intros log url;
    cbn [fetchTextFile fetchTextFileWithMetadata]; cbv zeta.
  - destruct (new_URL url) as [parsed|]; [|reflexivity].
    destruct (client_rejects (url_protocol parsed)); reflexivity.
  - destruct (new_URL url) as [parsed|]; [|reflexivity].
    destruct (client_rejects (url_protocol parsed)); [reflexivity|].
    rewrite (get_options_falsy _ _ _ _ He Hl).
    destruct (req_setTimeout (o_timeoutMs opts)); [reflexivity| |];
      cbn [is_armed andb];
      [|destruct (timer_fires E _); [reflexivity|]];
      (destruct (server E log _) as [status loc et lm body| |e|];
       try reflexivity;
       destruct (redirect_location status loc) as [l|];
       [destruct (new_URL_base l parsed) as [target|]; [apply IH|reflexivity]
       |destruct (status =? 304)%Z eqn:H304;
        [apply Z.eqb_eq in H304; subst status; reflexivity
        |destruct (negb (status =? 200)%Z) eqn:H200; [reflexivity|];
         cbn [fst snd as_plain r_statusCode r_text];
         apply negb_false_iff, Z.eqb_eq in H200; subst status;
         reflexivity]]).
Qed.

(** ** Every way a call can go *)

Lemma ensureFresh_unconfigured fuel E config w :
  publicUrl config = "" ->
  ensureFreshLlmsFile fuel E config w
  = (Rejected (Error "publicUrl is required"), w).
Proof. intros H. unfold ensureFreshLlmsFile. now rewrite H. Qed.

Lemma content_write_error_none E config :
  content_write_error E config = None ->
  mkdir_error E (outputDir config) = None
  /\ write_fault E (outPath_of config) = None.
Proof.
  unfold content_write_error.
  destruct (mkdir_error E (outputDir config)); [discriminate|].
  now destruct (write_fault E (outPath_of config)).
Qed.

Lemma content_write_ok E config w text :
  content_write_error E config = None ->
  content_write E config w text
  = (None, with_files w (<[outPath_of config := Text text]> (files w))).
Proof.
  intros H. apply content_write_error_none in H as [Hdir Hwrite].
  unfold content_write, ensureDirectoryExists, writeFileSync.
  now rewrite Hdir, Hwrite.
Qed.

(** A failing content write: the error is the one [content_write_error]
    names, and the file is as it was unless the write failed after the
    file was opened. *)
Lemma content_write_fails E config w text err :
  content_write_error E config = Some err ->
  exists w2,
    content_write E config w text = (Some err, w2)
    /\ requests w2 = requests w
    /\ warnings w2 = warnings w
    /\ (files w2 = files w
        \/ exists written,
             mkdir_error E (outputDir config) = None
             /\ write_fault E (outPath_of config)
                = Some (WriteFails err written)
             /\ files w2
                = <[outPath_of config := Text (String.substring 0 written text)]>
                    (files w)).
Proof.
  unfold content_write_error, content_write, ensureDirectoryExists,
    writeFileSync.
  destruct (mkdir_error E (outputDir config)) as [e|].
  - intros [= ->]. exists w. auto.
  - destruct (write_fault E (outPath_of config)) as [[e|e n]|];
      [| |discriminate]; intros [= ->].
    + exists w. auto.
    + eexists. split; [reflexivity|]. repeat split. right. now exists n.
Qed.

Lemma content_write_outcome E config w text :
  fst (content_write E config w text) = content_write_error E config.
Proof.
  unfold content_write_error, content_write, ensureDirectoryExists,
    writeFileSync.
  destruct (mkdir_error E (outputDir config)) as [e|]; [reflexivity|].
  now destruct (write_fault E (outPath_of config)) as [[e|e n]|].
Qed.

Lemma ensureFresh_content_write_fails fuel E config w resp log err :
  publicUrl config <> "" ->
  fresh_now E config w = false ->
  conditional_fetch fuel E config w = (Fulfilled resp, log) ->
  r_statusCode resp <> 304 ->
  content_write_error E config = Some err ->
  ensureFreshLlmsFile fuel E config w
  = serve_cached_or_throw (existsSync w (outPath_of config)) (outPath_of config)
      err (snd (content_write E config (with_requests w log) (r_text resp))).
Proof.
  intros Hurl Hfresh Hfetch Hstatus Herr.
  rewrite (ensureFresh_body _ _ _ _ _ _ Hurl Hfresh Hfetch Hstatus).
  destruct (content_write_fails E config (with_requests w log) (r_text resp)
              err Herr) as (w2 & -> & _).
  reflexivity.
Qed.


Lemma ensureFresh_call_path fuel E config w :
  call_path fuel E config w (ensureFreshLlmsFile fuel E config w).
Proof.
  destruct (String.eqb_spec (publicUrl config) "") as [Hempty|Hurl].
  { rewrite (ensureFresh_unconfigured _ _ _ _ Hempty). now constructor. }
  destruct (fresh_now E config w) eqn:Hfresh.
  { rewrite (ensureFresh_fresh _ _ _ _ Hurl Hfresh). now constructor. }
  destruct (conditional_fetch fuel E config w) as [p log] eqn:Hfetch.
  destruct p as [resp|err| |e].
  - destruct (Z.eq_dec (r_statusCode resp) 304) as [Hs|Hs].
    + rewrite (ensureFresh_not_modified _ _ _ _ _ _ Hurl Hfresh Hfetch Hs).
      now apply (path_not_modified _ _ _ _ resp log).
    + rewrite (ensureFresh_body _ _ _ _ _ _ Hurl Hfresh Hfetch Hs).
      destruct (content_write E config (with_requests w log) (r_text resp))
        as [[err|] w2] eqn:Hwrite.
      * now apply (path_content_failed _ _ _ _ resp log).
      * now apply (path_updated _ _ _ _ resp log).
  - rewrite (ensureFresh_rejected _ _ _ _ _ _ Hurl Hfresh Hfetch).
    now constructor.
  - rewrite (ensureFresh_unsettled _ _ _ _ _ Hurl Hfresh Hfetch).
    now constructor.
  - rewrite (ensureFresh_uncaught _ _ _ _ _ _ Hurl Hfresh Hfetch).
    now constructor.
Qed.

(** ** What a call leaves alone *)

Lemma writeJsonSafe_cases E w p data :
  writeJsonSafe E w p data = w
  \/ writeJsonSafe E w p data
     = with_files w (<[p := JsonDoc (JSON_roundtrip data)]> (files w))
  \/ exists written,
       writeJsonSafe E w p data
       = with_files w (<[p := TornJson written (JSON_roundtrip data)]> (files w)).
Proof.
  unfold writeJsonSafe, ensureDirectoryExists, writeFileSync.
  destruct (mkdir_error E (path_dirname p)); [now left|].
  destruct (write_fault E p) as [[e|e n]|]; simpl;
    [now left|right; right; now exists n|right; now left].
Qed.

Lemma conditional_fetch_log fuel E config w p log :
  conditional_fetch fuel E config w = (p, log) ->
  exists issued, log = (requests w ++ issued)%list.
Proof.
  intros H. apply fetchTextFileWithMetadata_log in H as (issued & -> & _).
  now exists issued.
Qed.

Lemma serve_cached_or_throw_cases fileExists outPath err w :
  serve_cached_or_throw fileExists outPath err w
  = (if fileExists then Fulfilled outPath else Rejected err,
     if fileExists
     then warn w ("llms-fetcher ensureFresh: " ++ message_of err
                  ++ " (serving cached)")
     else w).
Proof. unfold serve_cached_or_throw. now destruct fileExists. Qed.

Lemma is_Some_insert (fs : gmap string file) p q data :
  is_Some (fs !! q) -> is_Some (<[p := data]> fs !! q).
Proof.
  intros H. destruct (decide (p = q)) as [->|Hne].
  - rewrite lookup_insert_eq. eauto.
  - now rewrite lookup_insert_ne.
Qed.

(** A write removes no file. *)
Lemma writeFileSync_keeps E w p data q :
  is_Some (files w !! q) ->
  is_Some (files (snd (writeFileSync E w p data)) !! q).
Proof.
  intros H. unfold writeFileSync.
  destruct (write_fault E p) as [[e|e n]|]; simpl;
    [exact H|now apply is_Some_insert|now apply is_Some_insert].
Qed.

Lemma writeJsonSafe_keeps E w p data q :
  is_Some (files w !! q) -> is_Some (files (writeJsonSafe E w p data) !! q).
Proof.
  intros H. unfold writeJsonSafe.
  destruct (ensureDirectoryExists E (path_dirname p)); [exact H|].
  now apply writeFileSync_keeps.
Qed.

Lemma content_write_keeps E config w text q :
  is_Some (files w !! q) ->
  is_Some (files (snd (content_write E config w text)) !! q).
Proof.
  intros H. unfold content_write.
  destruct (ensureDirectoryExists E (outputDir config)); [exact H|].
  now apply writeFileSync_keeps.
Qed.

(** X4: whatever happens, [ensureFreshLlmsFile] changes no file other
    than the content file and the metadata file, removes no file, only
    appends to the request log, and logs at most one warning. *)
Theorem ensureFreshLlmsFile_frame fuel E config w :
  let w' := snd (ensureFreshLlmsFile fuel E config w) in
  (forall p, p <> outPath_of config -> p <> metaPath_of config ->
             files w' !! p = files w !! p)
  /\ (forall p, is_Some (files w !! p) -> is_Some (files w' !! p))
  /\ (exists issued, requests w' = (requests w ++ issued)%list)
  /\ (warnings w' = warnings w
      \/ exists msg, warnings w' = (warnings w ++ [msg])%list).
Proof.
  cbv zeta.
  destruct (ensureFresh_call_path fuel E config w)
    as [ | | err log Hfetch | log Hfetch | e log Hfetch
       | resp log Hfetch _ | resp log err w2 Hfetch _ Hwrite
       | resp log w2 Hfetch _ Hwrite ].
  - simpl. repeat split; auto. exists []. now rewrite app_nil_r.
  - simpl. repeat split; auto. exists []. now rewrite app_nil_r.
  - rewrite serve_cached_or_throw_cases. simpl.
    apply conditional_fetch_log in Hfetch as [issued ->].
    destruct (existsSync w (outPath_of config)); simpl; repeat split; eauto.
  - simpl. apply conditional_fetch_log in Hfetch as [issued ->].
    repeat split; eauto.
  - simpl. apply conditional_fetch_log in Hfetch as [issued ->].
    repeat split; eauto.
  - cbn [snd]. apply conditional_fetch_log in Hfetch as [issued ->].
    match goal with
    | |- context [writeJsonSafe ?E ?w0 ?p ?d] =>
        destruct (writeJsonSafe_frame E w0 p d) as (Hreq & Hwarn & Hother);
        pose proof (writeJsonSafe_keeps E w0 p d) as Hkeep
    end.
    rewrite Hreq, Hwarn. repeat split; eauto;
      intros p _ Hm; now rewrite Hother.
  - pose proof (content_write_frame E config (with_requests w log)
                  (r_text resp)) as (Hreq & Hwarn & Hother).
    pose proof (content_write_keeps E config (with_requests w log)
                  (r_text resp)) as Hkeep.
    rewrite Hwrite in Hreq, Hwarn, Hother, Hkeep. cbn [snd] in *.
    simpl in Hreq, Hwarn, Hother, Hkeep.
    apply conditional_fetch_log in Hfetch as [issued ->].
    rewrite serve_cached_or_throw_cases. cbn [snd].
    destruct (existsSync w (outPath_of config)); simpl;
      rewrite ?Hreq, ?Hwarn; repeat split; eauto.
  - pose proof (content_write_frame E config (with_requests w log)
                  (r_text resp)) as (Hreq & Hwarn & Hother).
    pose proof (content_write_keeps E config (with_requests w log)
                  (r_text resp)) as Hkeep.
    rewrite Hwrite in Hreq, Hwarn, Hother, Hkeep. cbn [snd] in *.
    simpl in Hreq, Hwarn, Hother, Hkeep.
    apply conditional_fetch_log in Hfetch as [issued ->].
    match goal with
    | |- context [writeJsonSafe ?E ?w0 ?p ?d] =>
        destruct (writeJsonSafe_frame E w0 p d) as (Hreq' & Hwarn' & Hother');
        pose proof (writeJsonSafe_keeps E w0 p d) as Hkeep'
    end.
    rewrite Hreq', Hwarn', Hreq, Hwarn. repeat split; eauto;
      intros p Ho Hm; now rewrite Hother', Hother.
Qed.

(** X5: a call of [ensureFreshLlmsFile] that rejects has changed no
    file, unless it rejects because the write of the content file failed
    after the file was opened: then no content file existed before, the
    file now holds the part of the new text written before the failure,
    and no other file has changed. *)
Theorem ensureFreshLlmsFile_rejection_leaves_files fuel E config w err w' :
  ensureFreshLlmsFile fuel E config w = (Rejected err, w') ->
  files w' = files w
  \/ exists resp log written,
       conditional_fetch fuel E config w = (Fulfilled resp, log)
       /\ r_statusCode resp <> 304
       /\ existsSync w (outPath_of config) = false
       /\ mkdir_error E (outputDir config) = None
       /\ write_fault E (outPath_of config) = Some (WriteFails err written)
       /\ files w'
          = <[outPath_of config
                := Text (String.substring 0 written (r_text resp))]> (files w).
Proof.
  intros Hrun.
  destruct (ensureFresh_call_path fuel E config w)
    as [ | | err' log Hfetch | log Hfetch | e log Hfetch
       | resp log Hfetch _ | resp log err' w2 Hfetch Hs Hwrite
       | resp log w2 Hfetch _ Hwrite ];
    try (inversion Hrun; subst; left; reflexivity); try discriminate.
  - rewrite serve_cached_or_throw_cases in Hrun. left.
    destruct (existsSync w (outPath_of config)); inversion Hrun; reflexivity.
  - rewrite serve_cached_or_throw_cases in Hrun.
    destruct (existsSync w (outPath_of config)) eqn:Hfile;
      inversion Hrun; subst.
    pose proof (content_write_outcome E config (with_requests w log)
                  (r_text resp)) as Herr.
    rewrite Hwrite in Herr. cbn [fst] in Herr. symmetry in Herr.
    destruct (content_write_fails E config (with_requests w log)
                (r_text resp) err Herr)
      as (w2 & Hagain & _ & _ & [Hsame|(written & Hdir & Hfault & Hfiles)]);
      rewrite Hwrite in Hagain; inversion Hagain; subst.
    + now left.
    + right. exists resp, log, written. auto 10.
Qed.

(** X6: when [ensureFreshLlmsFile] is fulfilled, its value is the
    resolved output path, and a file exists at that path afterwards
    unless the content file was missing and the server answered the
    conditional request with [304]. *)
Theorem ensureFreshLlmsFile_fulfilled fuel E config w a w' :
  ensureFreshLlmsFile fuel E config w = (Fulfilled a, w') ->
  a = outPath_of config
  /\ (existsSync w' (outPath_of config) = true
      \/ (existsSync w (outPath_of config) = false
          /\ exists resp log,
               conditional_fetch fuel E config w = (Fulfilled resp, log)
               /\ r_statusCode resp = 304)).
Proof.
  intros Hrun.
  destruct (ensureFresh_call_path fuel E config w)
    as [ | Hfresh | err' log Hfetch | log Hfetch | e log Hfetch
       | resp log Hfetch Hs | resp log err' w2 Hfetch _ Hwrite
       | resp log w2 Hfetch _ Hwrite ];
    try discriminate.
  - inversion Hrun; subst. split; [reflexivity|]. left.
    unfold fresh_now, is_fresh in Hfresh.
    now apply andb_true_iff in Hfresh as [Hfresh _];
      apply andb_true_iff in Hfresh as [Hfresh _].
  - rewrite serve_cached_or_throw_cases in Hrun.
    destruct (existsSync w (outPath_of config)) eqn:Hfile;
      inversion Hrun; subst.
    split; [reflexivity|]. left. exact Hfile.
  - inversion Hrun; subst. split; [reflexivity|].
    destruct (existsSync w (outPath_of config)) eqn:Hfile;
      [left|right; eauto].
    apply existsSync_is_Some. apply existsSync_is_Some in Hfile.
    now apply writeJsonSafe_keeps.
  - rewrite serve_cached_or_throw_cases in Hrun.
    destruct (existsSync w (outPath_of config)) eqn:Hfile;
      inversion Hrun; subst.
    split; [reflexivity|]. left.
    apply existsSync_is_Some. apply existsSync_is_Some in Hfile.
    pose proof (content_write_keeps E config (with_requests w log)
                  (r_text resp) (outPath_of config) Hfile) as Hkeep.
    now rewrite Hwrite in Hkeep.
  - inversion Hrun; subst. split; [reflexivity|]. left.
    apply existsSync_is_Some. apply writeJsonSafe_keeps.
    pose proof (content_write_outcome E config (with_requests w log)
                  (r_text resp)) as Herr.
    rewrite Hwrite in Herr. cbn [fst] in Herr. symmetry in Herr.
    rewrite (content_write_ok _ _ _ _ Herr) in Hwrite.
    inversion Hwrite; subst. simpl. rewrite lookup_insert_eq. eauto.
Qed.

(** ** When the disk fails *)

(** X7: when the server sends new content but the output directory
    cannot be created or the content file cannot be written, the error is
    handled like a failed fetch: with a content file already present the
    call returns the output path and logs a warning that ends in
    [(serving cached)]; without one it rejects with the file-system
    error.  Either way no file other than the content file is changed, so
    that no metadata is written beside it; the content file is as it was
    when the failure precedes its opening, and otherwise holds the part
    of the new text written before the failure, also where it is served
    as the cached copy. *)
Theorem content_write_failure_is_handled_like_fetch_failure
    fuel E config w resp log err :
  publicUrl config <> "" ->
  fresh_now E config w = false ->
  conditional_fetch fuel E config w = (Fulfilled resp, log) ->
  r_statusCode resp <> 304 ->
  content_write_error E config = Some err ->
  exists fs,
    (existsSync w (outPath_of config) = true ->
     ensureFreshLlmsFile fuel E config w
     = (Fulfilled (outPath_of config),
        {| files := fs;
           requests := log;
           warnings := (warnings w
                        ++ [("llms-fetcher ensureFresh: " ++ message_of err
                             ++ " (serving cached)")%string])%list |}))
    /\ (existsSync w (outPath_of config) = false ->
        ensureFreshLlmsFile fuel E config w
        = (Rejected err,
           {| files := fs; requests := log; warnings := warnings w |}))
    /\ (forall q, q <> outPath_of config -> fs !! q = files w !! q)
    /\ (fs = files w
        \/ exists written,
             mkdir_error E (outputDir config) = None
             /\ write_fault E (outPath_of config)
                = Some (WriteFails err written)
             /\ fs = <[outPath_of config
                         := Text (String.substring 0 written (r_text resp))]>
                       (files w)).
Proof.
  intros Hurl Hfresh Hfetch Hstatus Herr.
  rewrite (ensureFresh_content_write_fails _ _ _ _ _ _ _
             Hurl Hfresh Hfetch Hstatus Herr).
  destruct (content_write_fails E config (with_requests w log) (r_text resp)
              err Herr) as (w2 & Hwrite & Hreq & Hwarn & Hfiles).
  rewrite Hwrite. cbn [snd]. simpl in Hreq, Hwarn, Hfiles.
  exists (files w2). rewrite serve_cached_or_throw_cases.
  split; [|split; [|split]].
  - intros ->. unfold warn. now rewrite Hreq, Hwarn.
  - intros ->. f_equal. destruct w2. simpl in *. now subst.
  - intros q Hq. destruct Hfiles as [->|(written & _ & _ & ->)];
      [reflexivity|now rewrite lookup_insert_ne].
  - exact Hfiles.
Qed.

(** ** A base that is not a URL *)

(** X8: when [publicUrl] is not a URL and neither is the joined source
    address, [ensureFreshLlmsFile] issues no request and changes no file:
    it returns the output path when a content file exists and otherwise
    rejects with [Invalid URL: ] followed by [publicUrl], stripped of one
    trailing slash, and [/llms.txt]. *)
Theorem ensureFreshLlmsFile_with_invalid_url fuel E config w :
  publicUrl config <> "" ->
  new_URL (publicUrl config) = None ->
  new_URL (replace_trailing_slash (publicUrl config) ++ "/llms.txt") = None ->
  requests (snd (ensureFreshLlmsFile fuel E config w)) = requests w
  /\ files (snd (ensureFreshLlmsFile fuel E config w)) = files w
  /\ (existsSync w (outPath_of config) = true ->
      fst (ensureFreshLlmsFile fuel E config w) = Fulfilled (outPath_of config))
  /\ (existsSync w (outPath_of config) = false ->
      fst (ensureFreshLlmsFile fuel E config w)
      = Rejected (Error ("Invalid URL: "
                         ++ replace_trailing_slash (publicUrl config)
                         ++ "/llms.txt"))).
Proof.
  intros Hurl Hbase Hjoined.
  assert (Hsource : sourceUrl_of config
                    = replace_trailing_slash (publicUrl config) ++ "/llms.txt").
  { unfold sourceUrl_of. now apply joinUrl_fallback. }
  assert (Hfetch : conditional_fetch fuel E config w
                   = (Rejected (Error ("Invalid URL: "
                                       ++ replace_trailing_slash (publicUrl config)
                                       ++ "/llms.txt")),
                      requests w)).
  { unfold conditional_fetch. rewrite Hsource.
    destruct fuel; simpl; now rewrite Hjoined. }
  destruct (fresh_now E config w) eqn:Hfresh.
  - rewrite (ensureFresh_fresh _ _ _ _ Hurl Hfresh). simpl.
    repeat split.
    intros Hmissing. apply (fresh_now_needs_file E) in Hmissing. congruence.
  - rewrite (ensureFresh_rejected _ _ _ _ _ _ Hurl Hfresh Hfetch).
    rewrite serve_cached_or_throw_cases.
    destruct (existsSync w (outPath_of config)); simpl;
      repeat split; try reflexivity; discriminate.
Qed.

(** ** The metadata file *)

Lemma null_or_nonempty_or_null a :
  null_or_nonempty a ->
  or_null (Some a) = a /\ JSON_roundtrip a = a.
Proof.
  intros [-> | (s & Hs & ->)]; [now split|]. simpl.
  apply String.eqb_neq in Hs. now rewrite Hs.
Qed.

Lemma fulfilled_body_validators E opts fuel log url r log' :
  fetchTextFileWithMetadata fuel E log url opts = (Fulfilled r, log') ->
  r_statusCode r <> 304 ->
  null_or_nonempty (r_etag r) /\ null_or_nonempty (r_lastModified r).
Proof.
  intros Hrun Hs.
  destruct (fetchTextFileWithMetadata_fulfilled _ _ _ _ _ _ _ Hrun)
    as [(_ & Ha & Hb)|(H304 & _)]; [now split|contradiction].
Qed.

Lemma meta_record_stored a b t :
  null_or_nonempty a -> null_or_nonempty b ->
  JSON_roundtrip (meta_record (or_null (Some a)) (or_null (Some b)) t)
  = meta_record a b t.
Proof.
  intros Ha Hb.
  destruct (null_or_nonempty_or_null _ Ha) as [-> Hra].
  destruct (null_or_nonempty_or_null _ Hb) as [-> Hrb].
  now rewrite JSON_roundtrip_meta_record, Hra, Hrb.
Qed.

Lemma metadata_well_formed_stored a b t :
  null_or_nonempty a -> null_or_nonempty b ->
  metadata_well_formed
    (Some (JsonDoc (JSON_roundtrip (meta_record (or_null (Some a))
                                                (or_null (Some b)) t)))).
Proof.
  intros Ha Hb. right. exists a, b, t.
  rewrite (meta_record_stored _ _ _ Ha Hb). auto.
Qed.

Lemma metadata_sound_torn written a b t :
  null_or_nonempty a -> null_or_nonempty b ->
  metadata_sound
    (Some (TornJson written
             (JSON_roundtrip (meta_record (or_null (Some a))
                                          (or_null (Some b)) t)))).
Proof.
  intros Ha Hb. right. exists written, a, b, t.
  rewrite (meta_record_stored _ _ _ Ha Hb). auto.
Qed.

(** The validators read from a sound metadata file. *)
Lemma sound_validators config w :
  metadata_sound (files w !! metaPath_of config) ->
  exists a b,
    null_or_nonempty a /\ null_or_nonempty b
    /\ or_null (prop (stored_meta config w) "etag") = or_null (Some a)
    /\ or_null (prop (stored_meta config w) "lastModified") = or_null (Some b).
Proof.
  unfold stored_meta, read_meta, readJsonSafe, read_json.
  intros [[-> | (a & b & t & -> & Ha & Hb)] | (n & a & b & t & -> & Ha & Hb)].
  - exists JNull, JNull. repeat split; now left.
  - exists a, b. repeat split; assumption.
  - exists JNull, JNull. repeat split; now left.
Qed.

(** What [writeJsonSafe] leaves at the path it writes to. *)
Lemma writeJsonSafe_at E w p data :
  files (writeJsonSafe E w p data) !! p = files w !! p
  \/ (write_fault E p = None
      /\ files (writeJsonSafe E w p data) !! p
         = Some (JsonDoc (JSON_roundtrip data)))
  \/ exists e written,
       write_fault E p = Some (WriteFails e written)
       /\ files (writeJsonSafe E w p data) !! p
          = Some (TornJson written (JSON_roundtrip data)).
Proof.
  unfold writeJsonSafe, ensureDirectoryExists, writeFileSync.
  destruct (mkdir_error E (path_dirname p)); [now left|].
  destruct (write_fault E p) as [[e|e n]|]; simpl.
  - now left.
  - right. right. exists e, n. now rewrite lookup_insert_eq.
  - right. left. now rewrite lookup_insert_eq.
Qed.

(** X9: with distinct content and metadata paths, a call of
    [ensureFreshLlmsFile] keeps the metadata file sound: if it was absent,
    held [{ etag, lastModified, lastFetchedAtMs }] with validators that
    are [null] or non-empty strings, or held the part of such a document
    that a failed write had left, the same is true afterwards, whatever
    the server replied and whichever writes failed.  Where no write of the
    metadata file fails after the file is opened, a file that was absent
    or held a whole document still is or does. *)
Theorem ensureFreshLlmsFile_keeps_metadata_sound fuel E config w :
  outPath_of config <> metaPath_of config ->
  let after :=
    files (snd (ensureFreshLlmsFile fuel E config w)) !! metaPath_of config in
  (metadata_sound (files w !! metaPath_of config) -> metadata_sound after)
  /\ (metadata_well_formed (files w !! metaPath_of config) ->
      (forall e written,
         write_fault E (metaPath_of config) <> Some (WriteFails e written)) ->
      metadata_well_formed after).
Proof.
  intros Hpaths after.
  assert (Hstep : forall w0 a b,
    null_or_nonempty a -> null_or_nonempty b ->
    let f := files (writeJsonSafe E w0 (metaPath_of config)
                      (meta_record (or_null (Some a)) (or_null (Some b))
                                   (Date_now E))) !! metaPath_of config in
    (metadata_sound (files w0 !! metaPath_of config) -> metadata_sound f)
    /\ (metadata_well_formed (files w0 !! metaPath_of config) ->
        (forall e written,
           write_fault E (metaPath_of config) <> Some (WriteFails e written)) ->
        metadata_well_formed f)).
  { intros w0 a b Ha Hb f. subst f.
    destruct (writeJsonSafe_at E w0 (metaPath_of config)
                (meta_record (or_null (Some a)) (or_null (Some b))
                             (Date_now E)))
      as [-> | [(_ & ->) | (e & n & Hfault & ->)]].
    - split; [auto|]. intros Hwf _. exact Hwf.
    - split; intros; [left|]; now apply metadata_well_formed_stored.
    - split; [intros _; now apply metadata_sound_torn|].
      intros _ Hnever. now destruct (Hnever e n). }
  subst after.
  destruct (ensureFresh_call_path fuel E config w)
    as [ | | err log Hfetch | log Hfetch | e log Hfetch
       | resp log Hfetch _ | resp log err w2 Hfetch _ Hwrite
       | resp log w2 Hfetch Hs Hwrite ];
    try (cbn [snd]; split; [auto|intros Hwf _; exact Hwf]; fail).
  - rewrite serve_cached_or_throw_cases.
    destruct (existsSync w (outPath_of config)); cbn [snd]; simpl;
      (split; [auto|intros Hwf _; exact Hwf]).
  - cbn [snd].
    assert (Hsound : metadata_sound (files w !! metaPath_of config) ->
      exists a b,
        null_or_nonempty a /\ null_or_nonempty b
        /\ or_null (prop (stored_meta config w) "etag") = or_null (Some a)
        /\ or_null (prop (stored_meta config w) "lastModified")
           = or_null (Some b)) by apply sound_validators.
    split.
    + intros Hpre. destruct (Hsound Hpre) as (a & b & Ha & Hb & -> & ->).
      now apply (Hstep (with_requests w log) a b Ha Hb).
    + intros Hpre Hnever.
      destruct (Hsound (or_introl Hpre)) as (a & b & Ha & Hb & -> & ->).
      now apply (Hstep (with_requests w log) a b Ha Hb).
  - pose proof (content_write_frame E config (with_requests w log)
                  (r_text resp)) as (_ & _ & Hother).
    rewrite Hwrite in Hother. cbn [snd] in Hother. simpl in Hother.
    rewrite serve_cached_or_throw_cases.
    destruct (existsSync w (outPath_of config)); cbn [snd]; simpl;
      rewrite Hother by (intros Heq; now apply Hpaths);
      (split; [auto|intros Hwf _; exact Hwf]).
  - pose proof (content_write_frame E config (with_requests w log)
                  (r_text resp)) as (_ & _ & Hother).
    rewrite Hwrite in Hother. cbn [snd] in Hother. simpl in Hother.
    specialize (Hother (metaPath_of config)
                       (fun Heq => Hpaths (eq_sym Heq))).
    cbn [snd].
    destruct (fulfilled_body_validators _ _ _ _ _ _ _ Hfetch Hs) as [Ha Hb].
    destruct (Hstep w2 _ _ Ha Hb) as [Hs1 Hs2].
    rewrite Hother in Hs1, Hs2. now split.
Qed.

(** ** From one call to the next *)


(** ** The unconditional save *)

Lemma fetchTextFile_log E ua t :
  forall fuel log url p log',
    fetchTextFile fuel E log url ua t = (p, log') ->
    exists issued,
      log' = (log ++ issued)%list /\ Forall (unconditional ua) issued.
Proof.
  induction fuel as [|fuel IH]; intros log url p log' Hrun;
    cbn [fetchTextFile] in Hrun; cbv zeta in Hrun.
  - exists []. rewrite app_nil_r. split; [|constructor].
    hop_cases Hrun; congruence.
  - destruct (new_URL url) as [parsed|];
      [|exists []; rewrite app_nil_r; split; [congruence|constructor]].
    destruct (client_rejects (url_protocol parsed)) eqn:Hproto;
      [exists []; rewrite app_nil_r; split; [congruence|constructor]|].
    assert (Hrq : unconditional ua (get_options parsed ua None None)).
    { unfold unconditional, get_options. simpl. repeat split.
      now apply client_accepts. }
    set (rq := get_options parsed ua None None) in *.
    hop_cases Hrun;
      try (exists [rq]; split;
           [congruence|constructor; [exact Hrq|constructor]]).
    all: apply IH in Hrun as (issued & -> & Hall);
      exists (rq :: issued); rewrite <- app_assoc; split; [done|];
      now constructor.
Qed.

(** What [saveLlmsTextToFile] does to the world. *)
Lemma saveLlmsTextToFile_world fuel E w url dir name ua t :
  let r := saveLlmsTextToFile fuel E w url dir name ua t in
  let fetched := fetchTextFile fuel E (requests w) url ua t in
  requests (snd r) = snd fetched
  /\ (exists issued,
        requests (snd r) = (requests w ++ issued)%list
        /\ Forall (unconditional ua) issued)
  /\ warnings (snd r) = warnings w
  /\ (forall q, q <> path_resolve dir name ->
        files (snd r) !! q = files w !! q)
  /\ match fst r with
     | Fulfilled a =>
         a = path_resolve dir name
         /\ exists text,
              fst fetched = Fulfilled text
              /\ files (snd r) = <[a := Text text]> (files w)
     | Rejected e =>
         files (snd r) = files w
         \/ exists text written,
              fst fetched = Fulfilled text
              /\ mkdir_error E dir = None
              /\ write_fault E (path_resolve dir name)
                 = Some (WriteFails e written)
              /\ files (snd r)
                 = <[path_resolve dir name
                       := Text (String.substring 0 written text)]> (files w)
     | _ => files (snd r) = files w
     end.
Proof.
  cbv zeta. unfold saveLlmsTextToFile.
  destruct (fetchTextFile fuel E (requests w) url ua t) as [p log] eqn:Hfetch.
  apply fetchTextFile_log in Hfetch as (issued & -> & Hall).
  destruct p as [text|e| |e]; cbn [fst snd];
    try (simpl; repeat split; eauto; fail).
  unfold ensureDirectoryExists, writeFileSync.
  destruct (mkdir_error E dir) eqn:Hdir; [simpl; repeat split; eauto|].
  destruct (write_fault E (path_resolve dir name)) as [[e|e n]|] eqn:Hfault;
    simpl; repeat split; eauto.
  - intros q Hq. now rewrite lookup_insert_ne.
  - right. exists text, n. auto.
  - intros q Hq. now rewrite lookup_insert_ne.
Qed.

(** X11: [saveLlmsTextToFile] issues the requests of [fetchTextFile],
    none with a conditional header, and logs nothing; it changes no file
    other than the one at the resolved output path.  When it is
    fulfilled, its value is that path and the file there holds the text
    that [fetchTextFile] was fulfilled with.  When it rejects, no file is
    changed unless the write failed after the file was opened: the file
    then holds the part of the fetched text written before the failure.
    A call that does not settle changes no file. *)
Theorem saveLlmsTextToFile_outcome fuel E w url dir name ua t :
  let r := saveLlmsTextToFile fuel E w url dir name ua t in
  let fetched := fetchTextFile fuel E (requests w) url ua t in
  requests (snd r) = snd fetched
  /\ (exists issued,
        requests (snd r) = (requests w ++ issued)%list
        /\ Forall (unconditional ua) issued)
  /\ warnings (snd r) = warnings w
  /\ (forall q, q <> path_resolve dir name ->
        files (snd r) !! q = files w !! q)
  /\ match fst r with
     | Fulfilled a =>
         a = path_resolve dir name
         /\ exists text,
              fst fetched = Fulfilled text
              /\ files (snd r) = <[a := Text text]> (files w)
     | Rejected e =>
         files (snd r) = files w
         \/ exists text written,
              fst fetched = Fulfilled text
              /\ mkdir_error E dir = None
              /\ write_fault E (path_resolve dir name)
                 = Some (WriteFails e written)
              /\ files (snd r)
                 = <[path_resolve dir name
                       := Text (String.substring 0 written text)]> (files w)
     | _ => files (snd r) = files w
     end.
Proof. exact (saveLlmsTextToFile_world fuel E w url dir name ua t). Qed.

(** ** Run times out of range *)

Lemma string_append_snoc (cur : string) c s :
  (cur ++ String c "") ++ s = cur ++ String c s.
Proof. now rewrite string_append_assoc. Qed.

Lemma all_digits_cons c s :
  all_digits (String c s) = true -> is_digit c = true /\ all_digits s = true.
Proof. simpl. now rewrite andb_true_iff. Qed.

Lemma split_colon_aux_digits s :
  forall cur, all_digits s = true -> split_colon_aux s cur = [cur ++ s].
Proof.
  induction s as [|c s IH]; intros cur Hs.
  - simpl. now rewrite string_append_nil_r.
  - apply all_digits_cons in Hs as [Hc Hs]. cbn [split_colon_aux].
    rewrite (is_digit_not_colon _ Hc), (IH _ Hs).
    now rewrite string_append_snoc.
Qed.

Lemma split_colon_aux_colon hs rest :
  forall cur,
    all_digits hs = true ->
    split_colon_aux (hs ++ String ":" rest) cur
    = (cur ++ hs) :: split_colon_aux rest "".
Proof.
  induction hs as [|c hs IH]; intros cur Hs.
  - change ("" ++ String ":" rest) with (String ":" rest).
    cbn [split_colon_aux]. change (Ascii.eqb ":" ":") with true. cbv iota.
    now rewrite string_append_nil_r.
  - apply all_digits_cons in Hs as [Hc Hs].
    change (String c hs ++ String ":" rest)
      with (String c (hs ++ String ":" rest)).
    cbn [split_colon_aux].
    rewrite (is_digit_not_colon _ Hc), (IH _ Hs).
    now rewrite string_append_snoc.
Qed.

(** X12: [msUntilNextRunAt] does not check the range or the width of
    hours and minutes.  For any two runs of digits around a colon, the
    empty run counting as [0], it returns a strictly positive whole delay
    after which the local time of day is the given hours and minutes
    reduced modulo one day; the delay is at most a day, or at most the
    given time when that exceeds a day. *)
Theorem msUntilNextRunAt_accepts_any_digits E hs ms :
  all_digits hs = true ->
  all_digits ms = true ->
  let given := decimal_value 0 hs * msPerHour + decimal_value 0 ms * msPerMinute in
  Z.abs (Date_now E) + given + 2 * msPerDay <= 8640000000000000 ->
  exists d,
    msUntilNextRunAt E (hs ++ String ":" ms) = Some (ofZ d)
    /\ 0 < d <= Z.max msPerDay given
    /\ local_time_of_day E (Date_now E + d) = given mod msPerDay.
Proof.
  intros Hhs Hms given Hrange.
  pose proof (decimal_value_nonneg _ 0 Hhs ltac:(lia)) as Hh.
  pose proof (decimal_value_nonneg _ 0 Hms ltac:(lia)) as Hm.
  unfold msUntilNextRunAt, split_colon.
  rewrite (split_colon_aux_colon _ _ "" Hhs), (split_colon_aux_digits _ "" Hms).
  change ("" ++ hs) with hs. change ("" ++ ms) with ms. cbn [hd tl].
  subst given. unfold msPerDay, msPerHour, msPerMinute in Hrange.
  rewrite (Number_of_digits _ Hhs), (Number_of_digits _ Hms) by lia.
  set (hh := decimal_value 0 hs) in *. set (mm := decimal_value 0 ms) in *.
  cbn [Number_isNaN ofZ orb from_option default]. unfold id.
  fold (ofZ hh). fold (ofZ mm). unfold setHours.
  rewrite !to_integer_ofZ, MakeTime_in_range by lia.
  cbn [mbind option_bind].
  unfold local_time_of_day, setDate_tomorrow. unfold msPerDay, msPerHour, msPerMinute in *.
  change (24 * 60 * 60 * 1000) with 86400000 in *.
  change (60 * 60 * 1000) with 3600000 in *.
  change (60 * 1000) with 60000 in *.
  set (now := Date_now E) in *. set (tz := LocalTZA E) in *.
  pose proof (Z.div_mod (now + tz) 86400000 ltac:(lia)) as Hdiv.
  pose proof (Z.mod_pos_bound (now + tz) 86400000 ltac:(lia)) as Hmod.
  set (q := (now + tz) / 86400000) in *.
  set (r := (now + tz) mod 86400000) in *.
  set (tod := hh * 3600000 + mm * 60000) in *.
  assert (Htod : 0 <= tod) by (subst tod; lia).
  rewrite TimeClip_in_range by lia.
  destruct (q * 86400000 + tod - tz <=? now)%Z eqn:Hpast.
  - apply Z.leb_le in Hpast. rewrite ?TimeClip_in_range by lia.
    eexists. split; [reflexivity|]. split; [lia|].
    replace (now + (q * 86400000 + tod - tz + 86400000 - now) + tz)
      with (tod + (q + 1) * 86400000) by lia.
    apply Z.mod_add. lia.
  - apply Z.leb_gt in Hpast.
    eexists. split; [reflexivity|]. split; [lia|].
    replace (now + (q * 86400000 + tod - tz - now) + tz)
      with (tod + q * 86400000) by lia.
    apply Z.mod_add. lia.
Qed.

(** X13: a run time without a colon, however many digits it has, does
    not fall back to the 24-hour default: the minutes are [undefined],
    which [Number.isNaN] lets through, the date becomes invalid and
    [msUntilNextRunAt] returns [NaN]. *)
Theorem msUntilNextRunAt_without_minutes E s :
  all_digits s = true -> msUntilNextRunAt E s = Some NaN.
Proof.
  intros Hs. unfold msUntilNextRunAt, split_colon.
  rewrite (split_colon_aux_digits _ "" Hs). change ("" ++ s) with s.
  cbn [hd tl from_option default]. rewrite orb_false_r.
  rewrite (Number_of_digits_not_NaN _ Hs). unfold setHours, id.
  now destruct (to_integer (Number_of_string s)).
Qed.

(** ** The scheduler *)

Lemma say_with_log lg method m msg out :
  log_log lg <> None ->
  exists out', say lg method m msg out = (None, out').
Proof.
  intros Hlog. unfold say.
  destruct m as [[|]|]; eauto; destruct (log_log lg); eauto; congruence.
Qed.

Lemma runOnce_catch_with_log lg err w out :
  log_log lg <> None ->
  exists out', runOnce_catch lg err w out = (Fulfilled tt, w, out').
Proof.
  intros Hlog. unfold runOnce_catch.
  destruct (say_with_log lg "error" (log_error lg)
              ("llms-fetcher error: " ++ message_of err) out Hlog) as [out' ->].
  eauto.
Qed.

(** X14: with a logger that has a [log] method, [runOnce] never
    rejects, whatever the fetch and the disk do: a save that fails is
    caught and logged, and the run is fulfilled.  The run leaves the
    world as the save left it.  With [console], the outcome is logged
    twice: a save through [info] and again through [log], a failure
    through [error] and again through [log]. *)
Theorem runOnce_never_rejects fuel E config lg w out :
  log_log lg <> None ->
  let saved := saveLlmsTextToFile fuel E w (joinUrl (publicUrl config) "/llms.txt")
                 (outputDir config) (outputFile config) (userAgent config)
                 (timeoutMs config) in
  let run := runOnce fuel E config lg w out in
  (forall e, fst (fst run) <> Rejected e)
  /\ snd (fst run) = snd saved
  /\ (forall err, fst saved = Rejected err -> fst (fst run) = Fulfilled tt)
  /\ (forall savedPath, fst saved = Fulfilled savedPath ->
      fst (fst run) = Fulfilled tt)
  /\ (lg = console ->
      match fst saved with
      | Fulfilled savedPath =>
          let msg := "llms-fetcher: saved " ++ joinUrl (publicUrl config) "/llms.txt"
                     ++ " -> " ++ savedPath in
          snd run = (out ++ [Said "info" msg; Said "log" msg])%list
      | Rejected err =>
          let msg := "llms-fetcher error: " ++ message_of err in
          snd run = (out ++ [Said "error" msg; Said "log" msg])%list
      | _ => snd run = out
      end).
Proof.
  intros Hlog saved run.
  subst run. unfold runOnce. fold saved.
  destruct saved as [[path|err| |e] w'] eqn:Hsaved; cbn [fst snd].
  - destruct (say_with_log lg "info" (log_info lg)
                ("llms-fetcher: saved " ++ joinUrl (publicUrl config) "/llms.txt"
                 ++ " -> " ++ path) out Hlog) as [out' Hsay].
    rewrite Hsay. simpl. repeat split; try discriminate.
    intros ->. unfold say in Hsay. simpl in Hsay. inversion Hsay.
    now rewrite <- app_assoc.
  - destruct (runOnce_catch_with_log lg err w' out Hlog) as [out' Hcatch].
    rewrite Hcatch. simpl. repeat split; try discriminate.
    intros ->. unfold runOnce_catch, say in Hcatch. simpl in Hcatch.
    inversion Hcatch. now rewrite <- app_assoc.
  - repeat split; discriminate.
  - repeat split; discriminate.
Qed.


Lemma positive_above_zero x :
  positive_number x -> x <> NaN /\ number_lt (ofZ 0) x = true.
Proof.
  intros [->|(v & -> & Hv)]; [now split|]. split; [discriminate|].
  now apply Qltb_true.
Qed.




(** ** The command line *)

(** Arguments are taken from left to right: a complete prefix is parsed
    first and the rest continues from the options it left. *)
Lemma parseArgs_loop_app_bounded n :
  forall pre, (length pre <= n)%nat ->
  forall cli rest,
    complete pre = true ->
    parseArgs_loop (pre ++ rest) cli
    = match parseArgs_loop pre cli with
      | inl a => inl a
      | inr cli' => parseArgs_loop rest cli'
      end.
Proof.
  induction n as [|n IH]; intros pre Hlen cli rest Hc.
  - destruct pre; [reflexivity|simpl in Hlen; lia].
  - destruct pre as [|a pre]; [reflexivity|].
    simpl in Hlen, Hc |- *.
    destruct (value_flag_of a) as [f|].
    + destruct pre as [|v pre]; [discriminate|].
      simpl in Hlen |- *. apply IH; [lia|exact Hc].
    + destruct (String.eqb a "--dry-run"); [apply IH; [lia|exact Hc]|].
      destruct (is_command a); [apply IH; [lia|exact Hc]|].
      destruct (String.prefix "-" a); [reflexivity|].
      apply IH; [lia|exact Hc].
Qed.

Lemma parseArgs_loop_app pre cli rest :
  complete pre = true ->
  parseArgs_loop (pre ++ rest) cli
  = match parseArgs_loop pre cli with
    | inl a => inl a
    | inr cli' => parseArgs_loop rest cli'
    end.
Proof. now apply (parseArgs_loop_app_bounded (length pre)). Qed.

(** X16: an argument that starts with a dash and is not one of the
    flags [parseArgs] knows ends the program with [Unknown flag],
    wherever it stands after complete arguments that parse, and whatever
    follows it. *)
Theorem parseArgs_unknown_flag node script pre cli a post :
  complete pre = true ->
  parseArgs (node :: script :: pre) = inr cli ->
  unknown_flag a ->
  parseArgs (node :: script :: pre ++ a :: post) = inl a.
Proof.
  unfold parseArgs. intros Hc Hpre (Hflag & Hdry & Hcmd & Hdash).
  change (parseArgs_loop pre empty_cli = inr cli) in Hpre.
  change (parseArgs_loop (pre ++ a :: post) empty_cli = inl a).
  rewrite (parseArgs_loop_app _ _ _ Hc), Hpre. simpl.
  now rewrite Hflag, Hdry, Hcmd, Hdash.
Qed.

Lemma no_dash_not_flag a :
  String.prefix "-" a = false ->
  value_flag_of a = None /\ String.eqb a "--dry-run" = false.
Proof.
  destruct a as [|c a]; [intros _; split; reflexivity|].
  intros H. simpl in H. destruct (ascii_dec "-" c) as [<-|Hc].
  - now destruct a.
  - assert (Hneq : forall s, String.eqb (String c a) (String "-" s) = false).
    { intros s. apply String.eqb_neq. congruence. }
    unfold value_flag_of. rewrite !Hneq. split; reflexivity.
Qed.

Lemma command_not_flag a :
  is_command a = true ->
  value_flag_of a = None /\ String.eqb a "--dry-run" = false.
Proof.
  unfold is_command. rewrite !orb_true_iff, !String.eqb_eq.
  intros [[[[-> | ->] | ->] | ->] | ->]; split; reflexivity.
Qed.

Lemma parseArgs_loop_positional a rest cli :
  positional_word a ->
  parseArgs_loop (a :: rest) cli = parseArgs_loop rest (push a cli).
Proof.
  intros [Hcmd | Hdash].
  - destruct (command_not_flag _ Hcmd) as [Hf Hd]. simpl.
    now rewrite Hf, Hd, Hcmd.
  - destruct (no_dash_not_flag _ Hdash) as [Hf Hd]. simpl.
    rewrite Hf, Hd, Hdash. now destruct (is_command a).
Qed.

Lemma parseArgs_loop_positionals ws :
  forall p u d f r g t dry,
    Forall positional_word ws ->
    parseArgs_loop ws
      {| cli_positional := p; cli_publicUrl := u; cli_outputDir := d;
         cli_outputFile := f; cli_runAt := r; cli_userAgent := g;
         cli_timeoutMs := t; cli_dryRun := dry |}
    = inr {| cli_positional := (p ++ ws)%list; cli_publicUrl := u;
             cli_outputDir := d; cli_outputFile := f; cli_runAt := r;
             cli_userAgent := g; cli_timeoutMs := t; cli_dryRun := dry |}.
Proof.
  induction ws as [|a ws IH]; intros p u d f r g t dry Hws.
  - simpl. now rewrite app_nil_r.
  - inversion Hws as [|? ? Ha Hrest]; subst.
    rewrite (parseArgs_loop_positional _ _ _ Ha). unfold push. simpl.
    rewrite (IH _ _ _ _ _ _ _ _ Hrest). now rewrite <- app_assoc.
Qed.

(** X17: [parseArgs] reads back what a command line says: given each
    option at most once, [--dry-run] or not, and then the positional
    arguments, it returns exactly these options and arguments.  Option
    values are taken as they come, also when empty or when they look
    like a flag. *)
Theorem parseArgs_render node script c :
  Forall positional_word (cli_positional c) ->
  parseArgs (node :: script :: render c) = inr c.
Proof.
  destruct c as [ws u d f r g t dry]. unfold parseArgs, render.
  match goal with
  | |- _ -> parseArgs_loop (skipn 2 (node :: script :: ?args)) _ = _ =>
      change (skipn 2 (node :: script :: args)) with args
  end.
  cbn [cli_positional cli_publicUrl cli_outputDir cli_outputFile cli_runAt
       cli_userAgent cli_timeoutMs cli_dryRun].
  intros Hws.
  destruct u, d, f, r, g, t, dry; simpl;
    unfold assign, set_dryRun, empty_cli; simpl;
    now rewrite (parseArgs_loop_positionals ws) by exact Hws.
Qed.

(** ** Configuration *)

Lemma js_or_falsy a b : truthy a = false -> js_or a b = b.
Proof. intros H. unfold js_or. now rewrite H. Qed.

Lemma js_or_truthy a b : truthy a = true -> js_or a b = a.
Proof. intros H. unfold js_or. now rewrite H. Qed.

Lemma truthy_nonempty_string s : s <> "" -> truthy (Some (JString s)) = true.
Proof. intros H. simpl. apply String.eqb_neq in H. now rewrite H. Qed.

Lemma env_not_set (env : string -> option string) k :
  env k = None \/ env k = Some "" -> truthy (JString <$> env k) = false.
Proof. intros [-> | ->]; reflexivity. Qed.

(** X18: [resolveConfig] on the options of [parseArgs].  A non-empty
    [--public-url] is the resolved [publicUrl] whatever the environment
    and [package.json] hold; without one (or with an empty one) a
    non-empty [LLMS_PUBLIC_URL] is; without either, the [package.json]
    value if truthy, else the empty string.  [parseArgs] gives no
    [ttlHours], so the TTL is [Number] of a non-empty [LLMS_TTL_HOURS],
    whatever that text is, else a truthy [package.json] value, else
    [24]: a [ttlHours] of [0] is honoured from the environment (as the
    text [0]) and replaced by [24] when it comes from [package.json]. *)
Theorem resolveConfig_precedence w pkgPath c env :
  let r := resolveConfig w pkgPath (cli_object c) env in
  let pkg := pkg_field (readPackageConfig w pkgPath) in
  (forall v, cli_publicUrl c = Some v -> v <> "" ->
             rs_publicUrl r = Some (JString v))
  /\ (cli_publicUrl c = None \/ cli_publicUrl c = Some "" ->
      forall s, env "LLMS_PUBLIC_URL" = Some s -> s <> "" ->
                rs_publicUrl r = Some (JString s))
  /\ (cli_publicUrl c = None \/ cli_publicUrl c = Some "" ->
      env "LLMS_PUBLIC_URL" = None \/ env "LLMS_PUBLIC_URL" = Some "" ->
      rs_publicUrl r
      = (if truthy (pkg "publicUrl") then pkg "publicUrl" else Some (JString "")))
  /\ (forall s, env "LLMS_TTL_HOURS" = Some s -> s <> "" ->
                rs_ttlHours r = Number_of_string s)
  /\ (env "LLMS_TTL_HOURS" = Some "0" -> rs_ttlHours r = ofZ 0)
  /\ (env "LLMS_TTL_HOURS" = None \/ env "LLMS_TTL_HOURS" = Some "" ->
      forall n, pkg "ttlHours" = Some (JNumber n) ->
                rs_ttlHours r = (if number_truthy n then n else ofZ 24)).
Proof.
  cbv zeta. unfold resolveConfig. cbv zeta.
  set (pkgCfg := readPackageConfig w pkgPath).
  cbn [rs_publicUrl rs_ttlHours].
  unfold resolve_option.
  change (cli_object c "publicUrl") with (JString <$> cli_publicUrl c).
  change (cli_object c "ttlHours") with (@None json).
  rewrite (js_or_falsy None) by reflexivity.
  assert (Hcli : cli_publicUrl c = None \/ cli_publicUrl c = Some "" ->
                 truthy (JString <$> cli_publicUrl c) = false).
  { intros [-> | ->]; reflexivity. }
  assert (Httl : forall s, env "LLMS_TTL_HOURS" = Some s -> s <> "" ->
    ToNumber (js_or (js_or (JString <$> env "LLMS_TTL_HOURS")
                           (pkg_field pkgCfg "ttlHours"))
                    (Some (JNumber (ofZ 24))))
    = Number_of_string s).
  { intros s Hs Hne. rewrite Hs. cbn [fmap option_fmap option_map].
    now rewrite !(js_or_truthy (Some (JString s)))
      by now apply truthy_nonempty_string. }
  repeat split.
  - intros v -> Hv. cbn [fmap option_fmap option_map].
    now rewrite !(js_or_truthy (Some (JString v)))
      by now apply truthy_nonempty_string.
  - intros Hc s Hs Hne. rewrite (js_or_falsy _ _ (Hcli Hc)), Hs.
    cbn [fmap option_fmap option_map].
    now rewrite !(js_or_truthy (Some (JString s)))
      by now apply truthy_nonempty_string.
  - intros Hc He. rewrite (js_or_falsy _ _ (Hcli Hc)).
    rewrite (js_or_falsy _ _ (env_not_set env _ He)). reflexivity.
  - exact Httl.
  - intros He. rewrite (Httl "0" He) by discriminate. reflexivity.
  - intros He n Hn. rewrite (js_or_falsy _ _ (env_not_set env _ He)).
    rewrite Hn. unfold js_or. cbn [truthy].
    now destruct (number_truthy n).
Qed.

(** ** [main] *)

Lemma js_or_text a b :
  (truthy a = true -> exists s, a = Some (JString s)) ->
  (exists s, b = Some (JString s)) ->
  exists s, js_or a b = Some (JString s).
Proof.
  intros Ha Hb. unfold js_or. destruct (truthy a); [now apply Ha|exact Hb].
Qed.

Lemma js_or_maybe_text a b :
  (truthy a = true -> exists s, a = Some (JString s)) ->
  (truthy b = true -> exists s, b = Some (JString s)) ->
  truthy (js_or a b) = true -> exists s, js_or a b = Some (JString s).
Proof.
  intros Ha Hb. unfold js_or. destruct (truthy a) eqn:H; [intros _; auto|auto].
Qed.

Lemma maybe_text_string (o : option string) :
  truthy (JString <$> o) = true -> exists s, JString <$> o = Some (JString s).
Proof. destruct o as [s|]; [eauto|discriminate]. Qed.

Lemma maybe_text_optional v :
  optional_string v -> truthy v = true -> exists s, v = Some (JString s).
Proof.
  destruct v as [[| | | s | |]|]; try contradiction; try discriminate; eauto.
Qed.

(** A textual option resolves to a string where [package.json] holds
    one, or nothing. *)
Lemma resolve_option_text c env pkgCfg k envk d :
  optional_string (pkg_field pkgCfg k) ->
  (exists o, cli_object c k = JString <$> o) ->
  exists s,
    resolve_option (cli_object c) env pkgCfg k envk (JString d)
    = Some (JString s).
Proof.
  intros Hpkg [o Ho]. unfold resolve_option. rewrite Ho.
  apply js_or_text; [|eauto].
  apply js_or_maybe_text; [|now apply maybe_text_optional].
  apply js_or_maybe_text; apply maybe_text_string.
Qed.

(** With such a [package.json] the resolved configuration is one of
    strings and numbers. *)
Lemma to_Config_defined w pkgPath c env :
  package_options_are_text w pkgPath ->
  exists config,
    to_Config (resolveConfig w pkgPath (cli_object c) env) = Some config.
Proof.
  unfold package_options_are_text, textual_options. intros Htext.
  repeat match goal with
         | H : Forall _ (_ :: _) |- _ =>
             apply Forall_cons in H as [? H]
         end.
  unfold resolveConfig, to_Config. cbv zeta.
  cbn [rs_publicUrl rs_outputDir rs_outputFile rs_runAt rs_userAgent].
  set (pkgCfg := readPackageConfig w pkgPath) in *.
  destruct (resolve_option_text c env pkgCfg "publicUrl" "LLMS_PUBLIC_URL" "")
    as [s1 ->]; [assumption|now exists (cli_publicUrl c)|].
  destruct (resolve_option_text c env pkgCfg "outputDir" "LLMS_OUTPUT_DIR"
              "public") as [s2 ->]; [assumption|now exists (cli_outputDir c)|].
  destruct (resolve_option_text c env pkgCfg "outputFile" "LLMS_OUTPUT_FILE"
              "llms.txt") as [s3 ->]; [assumption|now exists (cli_outputFile c)|].
  destruct (resolve_option_text c env pkgCfg "runAt" "LLMS_RUN_AT" "02:00")
    as [s4 ->]; [assumption|now exists (cli_runAt c)|].
  destruct (resolve_option_text c env pkgCfg "userAgent" "LLMS_USER_AGENT"
              "llms-fetcher/0.1") as [s5 ->];
    [assumption|now exists (cli_userAgent c)|].
  eauto.
Qed.


(** X20: asking for help, by [help], [--help] or [-h] anywhere among the
    arguments, prints the help text and exits with [0] before any
    configuration is read.  A dry run in [run] mode exits with [1] and a
    line on [console.error] when the resolved [publicUrl] is falsy; when
    it is truthy and the textual options of [package.json] are strings,
    it exits with [0] after one line on [console.log] that names the
    source URL and the resolved output path.  Neither issues a request,
    writes a file or logs a warning. *)
Theorem main_help_and_dry_run fuel E w pkgPath argv env cli :
  parseArgs argv = inr cli ->
  (wants_help (cli_positional cli) = true ->
   main fuel E w pkgPath argv env = Some (Exited 0, w, [Said "log" help_text]))
  /\ (wants_help (cli_positional cli) = false ->
      cli_dryRun cli = true ->
      mode_of (cli_positional cli) = "run" ->
      let resolved := resolveConfig w pkgPath (cli_object cli) env in
      (truthy (rs_publicUrl resolved) = false ->
       exists msg,
         main fuel E w pkgPath argv env
         = Some (Exited 1, w, [Said "error" msg]))
      /\ (truthy (rs_publicUrl resolved) = true ->
          package_options_are_text w pkgPath ->
          exists config,
            to_Config resolved = Some config
            /\ main fuel E w pkgPath argv env
               = Some (Exited 0, w,
                       [Said "log" ("Dry run: would fetch "
                                    ++ sourceUrl_of config ++ " -> "
                                    ++ outPath_of config)]))).
Proof.
  intros Hparse. unfold main. rewrite Hparse. split.
  - intros ->. reflexivity.
  - intros -> Hdry Hmode. cbv zeta. split.
    + intros ->. cbn [negb]. eauto.
    + intros -> Htext. cbn [negb].
      destruct (to_Config_defined w pkgPath cli env Htext) as [config Hc].
      exists config. split; [exact Hc|]. rewrite Hc.
      cbn [mbind option_bind]. rewrite Hmode, Hdry. reflexivity.
Qed.

End FurtherProperties.

(** * The program on the scenarios *)

Import Concrete Scenario.


Lemma twenty_seconds_valid : valid_timeout (ofZ 20000).
Proof. exists (inject_Z 20000). split; [reflexivity|]. unfold Qle. simpl. lia. Qed.

Lemma quiet_in_time (srv : list request -> request -> reply) log :
  in_time (env srv) (ofZ 20000) log.
Proof. split; [exact twenty_seconds_valid|]. intros _. reflexivity. Qed.

Lemma fetch_failure_can_bypass_the_cached_file_witness :
  (let run := ensureFreshLlmsFile 1 (env cut_off) (config (ofZ 24))
                                  (cached 1000) in
   fst run = Unsettled
   /\ files (snd run) = files (cached 1000)
   /\ warnings (snd run) = warnings (cached 1000))
  /\ (let run := ensureFreshLlmsFile 1 (env bad_redirect) (config (ofZ 24))
                                     (cached 1000) in
      fst run = Uncaught (Error "Invalid URL")
      /\ files (snd run) = files (cached 1000)
      /\ warnings (snd run) = warnings (cached 1000)).
Proof.
  split.
  - refine (proj1 (fetch_failure_can_bypass_the_cached_file 0 (env cut_off)
                     (config (ofZ 24)) (cached 1000)
                     (web "https" "example.com" ["llms.txt"])
                     _ _ _ _ _ (quiet_in_time _ _)) _);
      try discriminate; reflexivity.
  - refine (proj2 (fetch_failure_can_bypass_the_cached_file 0 (env bad_redirect)
                     (config (ofZ 24)) (cached 1000)
                     (web "https" "example.com" ["llms.txt"])
                     _ _ _ _ _ (quiet_in_time _ _))
                  302 (Some "http://") None None "" "http://" _ _ _);
      try discriminate; reflexivity.
Defined.

Lemma fetch_failure_can_escape_the_caller_witness :
  (let run := ensureFreshLlmsFile 1 (env cut_off) (config (ofZ 24))
                                  empty_world in
   fst run = Unsettled
   /\ existsSync (snd run) (outPath_of (config (ofZ 24))) = false)
  /\ (let run := ensureFreshLlmsFile 1 (env bad_redirect) (config (ofZ 24))
                                     empty_world in
      fst run = Uncaught (Error "Invalid URL")
      /\ existsSync (snd run) (outPath_of (config (ofZ 24))) = false).
Proof.
  split.
  - refine (proj1 (fetch_failure_can_escape_the_caller 0 (env cut_off)
                     (config (ofZ 24)) empty_world
                     (web "https" "example.com" ["llms.txt"])
                     _ _ _ _ (quiet_in_time _ _)) _);
      try discriminate; reflexivity.
  - refine (proj2 (fetch_failure_can_escape_the_caller 0 (env bad_redirect)
                     (config (ofZ 24)) empty_world
                     (web "https" "example.com" ["llms.txt"])
                     _ _ _ _ (quiet_in_time _ _))
                  302 (Some "http://") None None "" "http://" _ _ _);
      try discriminate; reflexivity.
Defined.

(** The failing fetches that reject are handled as the catch block says:
    a refused connection with a cached copy serves the copy, and without
    one rejects with the error of the socket. *)
Example rejected_fetch_computed :
  (let r := ensureFreshLlmsFile 1 (env refusing) (config (ofZ 24))
                                (cached 1000) in
   fst r = Fulfilled out_path
   /\ files (snd r) = files (cached 1000)
   /\ warnings (snd r)
      = ["llms-fetcher ensureFresh: connect ECONNREFUSED (serving cached)"])
  /\ (let r := ensureFreshLlmsFile 1 (env refusing) (config (ofZ 24))
                                   empty_world in
      fst r = Rejected (Error "connect ECONNREFUSED")
      /\ files (snd r) = files empty_world).
Proof. vm_compute. repeat split. Qed.



(** The stale copy, the refreshed timestamp and the missing file, computed. *)
Example not_modified_without_content_computed :
  let r := ensureFreshLlmsFile 1 (env unchanged) (config (ofZ 24))
                               (only_metadata 1000) in
  fst r = Fulfilled out_path
  /\ files (snd r) !! out_path = None
  /\ files (snd r) !! meta_path
     = Some (JsonDoc (meta_record (JString "abc") JNull clock)).
Proof. vm_compute. repeat split. Qed.

Lemma metadata_write_failure_is_swallowed_witness :
  exists w',
    ensureFreshLlmsFile (1 + 0) (env_torn_meta origin) (config (ofZ 24))
                        empty_world
    = (Fulfilled (outPath_of (config (ofZ 24))), w')
    /\ requests w' = [llms_request None None]
    /\ warnings w' = warnings empty_world
    /\ files w' !! outPath_of (config (ofZ 24)) = Some (Text "hello")
    /\ (forall p, p <> outPath_of (config (ofZ 24)) ->
                  p <> metaPath_of (config (ofZ 24)) ->
                  files w' !! p = files empty_world !! p)
    /\ (meta_write_fails_early (env_torn_meta origin) (config (ofZ 24)) ->
        files w'
        = <[outPath_of (config (ofZ 24)) := Text "hello"]> (files empty_world))
    /\ (forall written,
          meta_write_fails_late (env_torn_meta origin) (config (ofZ 24))
                                written ->
          files w' !! metaPath_of (config (ofZ 24))
          = Some (TornJson written
                    (meta_record
                       (JSON_roundtrip (or_null (Some (JString "abc"))))
                       (JSON_roundtrip (or_null (Some JNull)))
                       (Date_now (env_torn_meta origin))))
          /\ stored_meta (config (ofZ 24)) w' = JObject []).
Proof.
  eapply (metadata_write_failure_is_swallowed 1 (env_torn_meta origin)
            (config (ofZ 24)) empty_world
            {| r_statusCode := 200; r_text := "hello";
               r_etag := JString "abc"; r_lastModified := JNull |}).
  - discriminate.
  - reflexivity.
  - vm_compute. reflexivity.
  - discriminate.
  - reflexivity.
  - reflexivity.
  - right. discriminate.
Defined.

(** The failing metadata write is invisible to the caller: the promise
    is fulfilled with the same value as when the write succeeds and no
    warning is recorded, while the content is on disk and the metadata is
    not: with a metadata file that cannot be opened there is none, and
    with a disk that fills up there is the start of one, which the next
    call reads as no metadata. *)
Lemma swallowed_metadata_failure_is_not_reported :
  let failed := ensureFreshLlmsFile 1 (env_readonly_meta origin)
                                    (config (ofZ 24)) empty_world in
  let torn := ensureFreshLlmsFile 1 (env_torn_meta origin)
                                  (config (ofZ 24)) empty_world in
  let succeeded := ensureFreshLlmsFile 1 (env origin) (config (ofZ 24))
                                       empty_world in
  fst failed = Fulfilled out_path
  /\ fst failed = fst succeeded
  /\ warnings (snd failed) = []
  /\ files (snd failed) !! out_path = Some (Text "hello")
  /\ files (snd failed) !! meta_path = None
  /\ fst torn = fst succeeded
  /\ warnings (snd torn) = []
  /\ files (snd torn) !! out_path = Some (Text "hello")
  /\ files (snd torn) !! meta_path
     = Some (TornJson 10 (meta_record (JString "abc") JNull clock))
  /\ stored_meta (config (ofZ 24)) (snd torn) = JObject []
  /\ files (snd succeeded) !! meta_path
     = Some (JsonDoc (meta_record (JString "abc") JNull clock)).
Proof. vm_compute. repeat split. Qed.

Lemma fresh_cache_is_served_without_request_witness :
  ensureFreshLlmsFile 1 (env origin) (config (ofZ 24)) (cached (clock - 1000))
  = (Fulfilled (outPath_of (config (ofZ 24))), cached (clock - 1000))
  /\ ensureFreshLlmsFile 2 (env origin) (config (ofZ 24))
                         (cached (clock - 86399999))
     = (Fulfilled (outPath_of (config (ofZ 24))), cached (clock - 86399999))
  /\ (exists w1,
        ensureFreshLlmsFile 1 (env origin) (config (ofZ 24)) (cached 1000)
        = (Fulfilled (outPath_of (config (ofZ 24))), w1)
        /\ requests w1 = [llms_request (Some (JString "abc")) None]
        /\ forall fuel2,
             ensureFreshLlmsFile fuel2 (env origin) (config (ofZ 24)) w1
             = (Fulfilled (outPath_of (config (ofZ 24))), w1))
  /\ (exists p w1,
        ensureFreshLlmsFile 1 (env refusing) (config (ofZ 24)) (cached 1000)
        = (p, w1)
        /\ requests w1 = [llms_request (Some (JString "abc")) None]
        /\ files w1 = files (cached 1000)
        /\ forall fuel2,
             exists more,
               requests (snd (ensureFreshLlmsFile (S fuel2) (env refusing)
                                                  (config (ofZ 24)) w1))
               = ([llms_request (Some (JString "abc")) None]
                  ++ get_options (web "https" "example.com" ["llms.txt"])
                       (userAgent (config (ofZ 24)))
                       (prop (stored_meta (config (ofZ 24)) (cached 1000)) "etag")
                       (prop (stored_meta (config (ofZ 24)) (cached 1000))
                             "lastModified")
                       :: more)%list).
Proof.
  destruct (fresh_cache_is_served_without_request
              (U := url_api) (P := platform))
    as (Hfresh & Hwhole & Htwice & Hagain).
  split; [|split; [|split]].
  - apply (Hfresh 1%nat (env origin) (config (ofZ 24)) (cached (clock - 1000)));
      try discriminate; reflexivity.
  - apply (Hwhole 2%nat (env origin) (config (ofZ 24))
             (cached (clock - 86399999)) (clock - 86399999) 24);
      try discriminate; try reflexivity; vm_compute; congruence.
  - apply (Htwice 1%nat (env origin) (config (ofZ 24)) (cached 1000)
             {| r_statusCode := 200; r_text := "hello";
                r_etag := JString "abc"; r_lastModified := JNull |}).
    + discriminate.
    + reflexivity.
    + vm_compute. reflexivity.
    + discriminate.
    + intros _. split; reflexivity.
    + split; reflexivity.
    + discriminate.
    + reflexivity.
  - apply (Hagain 1%nat (env refusing) (config (ofZ 24)) (cached 1000)
             (Error "connect ECONNREFUSED")).
    + discriminate.
    + reflexivity.
    + vm_compute. reflexivity.
    + reflexivity.
    + reflexivity.
Defined.

(** Where the fresh-cache claim fails.  First: a content file, a stored
    timestamp of [0] and a TTL of a million hours, so that [now - 0] is
    below the TTL; the call issues a request all the same.  Then three
    pairs of successive calls at the same time in which the second call
    issues a request too: a stale copy and a server refusing connections;
    a metadata file that cannot be written; a positive TTL of less than
    one millisecond. *)
Lemma zero_timestamp_and_failed_fetch_refetch :
  (let cfg := config (ofZ 1000000) in
   let w := cached 0 in
   existsSync w (outPath_of cfg) = true
   /\ lastFetchedAtMs_of (stored_meta cfg w) = ofZ 0
   /\ number_lt (ofZ 0) (ttlMs_of (ttlHours cfg)) = true
   /\ number_lt (number_sub (ofZ clock) (ofZ 0)) (ttlMs_of (ttlHours cfg)) = true
   /\ length (requests (snd (ensureFreshLlmsFile 1 (env origin) cfg w))) = 1%nat)
  /\ (let cfg := config (ofZ 24) in
      let first := ensureFreshLlmsFile 1 (env refusing) cfg (cached 1000) in
      let second := ensureFreshLlmsFile 1 (env refusing) cfg (snd first) in
      fst first = Fulfilled out_path
      /\ fst second = Fulfilled out_path
      /\ length (requests (snd first)) = 1%nat
      /\ length (requests (snd second)) = 2%nat)
  /\ (let cfg := config (ofZ 24) in
      let E := env_readonly_meta origin in
      let first := ensureFreshLlmsFile 1 E cfg (cached 1000) in
      let second := ensureFreshLlmsFile 1 E cfg (snd first) in
      fst first = Fulfilled out_path
      /\ fst second = Fulfilled out_path
      /\ length (requests (snd first)) = 1%nat
      /\ length (requests (snd second)) = 2%nat)
  /\ (let cfg := config (Finite (1 # 16777216)) in
      let first := ensureFreshLlmsFile 1 (env origin) cfg empty_world in
      let second := ensureFreshLlmsFile 1 (env origin) cfg (snd first) in
      number_lt (ofZ 0) (ttlHours cfg) = true
      /\ fst first = Fulfilled out_path
      /\ fst second = Fulfilled out_path
      /\ length (requests (snd first)) = 1%nat
      /\ length (requests (snd second)) = 2%nat).
Proof. vm_compute. repeat split. Qed.

(** The TTL in milliseconds is the floor of a product of binary64
    numbers: 2.27 hours are 8171999 ms, not 8172000, and a copy of that
    age is fetched again. *)
Example ttlMs_of_is_rounded :
  ttlMs_of (binary64 (227 # 100)) = ofZ 8171999
  /\ ttlMs_of (binary64 (7 # 10)) = ofZ 2520000
  /\ (let cfg := config (binary64 (227 # 100)) in
      fresh_now (env origin) cfg (cached (clock - 8171998)) = true
      /\ fresh_now (env origin) cfg (cached (clock - 8171999)) = false).
Proof. vm_compute. repeat split. Qed.



(** What [req.setTimeout] makes of the configured duration: [NaN]
    rejects the fetch at once, after the request has been sent, and [0]
    sets no timer, so that a server that never replies leaves the promise
    pending. *)
Example timeout_is_read :
  fst (fetchTextFile 3 (env ping_pong) [] "http://a.test/llms.txt"
                     "llms-fetcher/0.1" NaN)
  = Rejected (out_of_range NaN)
  /\ length (snd (fetchTextFile 3 (env ping_pong) [] "http://a.test/llms.txt"
                                "llms-fetcher/0.1" NaN)) = 1%nat
  /\ fetchTextFile 3 three_am [] "http://a.test/llms.txt"
                   "llms-fetcher/0.1" (ofZ 20000)
     = (Rejected timed_out,
        [get_options (web "http" "a.test" ["llms.txt"]) "llms-fetcher/0.1"
                     None None])
  /\ fetchTextFile 3 three_am [] "http://a.test/llms.txt"
                   "llms-fetcher/0.1" (ofZ 0)
     = (Unsettled,
        [get_options (web "http" "a.test" ["llms.txt"]) "llms-fetcher/0.1"
                     None None]).
Proof. vm_compute. repeat split. Qed.

Lemma ttl_zero_revalidates_and_non_finite_ttl_is_a_day_witness :
  (ttlMs_of NaN = ofZ (24 * 60 * 60 * 1000) /\ ttlMs_of NaN = ttlMs_of (ofZ 24))
  /\ ttlMs_of (ofZ (-3)) = ofZ 0
  /\ (fresh_now (env origin) (config (ofZ 0)) (cached (clock + 1)) = true
      <-> existsSync (cached (clock + 1)) (outPath_of (config (ofZ 0))) = true
          /\ ~ (inject_Z (clock + 1) == 0)%Q
          /\ (inject_Z (Date_now (env origin)) < inject_Z (clock + 1))%Q)
  /\ exists more,
       requests (snd (ensureFreshLlmsFile 1 (env origin) (config (ofZ 0))
                                          (cached clock)))
       = (requests (cached clock)
          ++ get_options (web "https" "example.com" ["llms.txt"])
               (userAgent (config (ofZ 0)))
               (prop (stored_meta (config (ofZ 0)) (cached clock)) "etag")
               (prop (stored_meta (config (ofZ 0)) (cached clock)) "lastModified")
          :: more)%list.
Proof.
  destruct (ttl_zero_revalidates_and_non_finite_ttl_is_a_day
              (U := url_api) (P := platform)) as (Hnan & Hneg & Hiff & Hreq).
  split; [|split; [|split]].
  - apply Hnan. reflexivity.
  - apply Hneg. discriminate.
  - apply (Hiff (env origin) (config (ofZ 0)) (cached (clock + 1)) (inject_Z 0)).
    + reflexivity.
    + discriminate.
    + reflexivity.
  - apply (Hreq 0%nat (env origin) (config (ofZ 0)) (cached clock) (inject_Z 0)
             (inject_Z clock)).
    + discriminate.
    + reflexivity.
    + discriminate.
    + reflexivity.
    + discriminate.
    + reflexivity.
    + reflexivity.
Defined.

(** Where the TTL claim fails.  With a copy fetched one hour ago, a TTL
    of [NaN] or [Infinity] serves the cache without a request, as a TTL
    of 24 hours does, while a TTL of [0] issues a request: a non-finite
    TTL is not treated as [0].  And a TTL of [0] does not always fetch:
    with a stored timestamp one millisecond in the future the cache is
    served. *)
Lemma non_finite_ttl_is_not_zero :
  (let w := cached (clock - 3600000) in
   ensureFreshLlmsFile 1 (env origin) (config NaN) w = (Fulfilled out_path, w)
   /\ ensureFreshLlmsFile 1 (env origin) (config PosInfinity) w
      = (Fulfilled out_path, w)
   /\ ensureFreshLlmsFile 1 (env origin) (config (ofZ 24)) w
      = (Fulfilled out_path, w)
   /\ length (requests (snd (ensureFreshLlmsFile 1 (env origin)
                                                 (config (ofZ 0)) w))) = 1%nat)
  /\ (let w := cached (clock + 1) in
      ensureFreshLlmsFile 1 (env origin) (config (ofZ 0)) w
      = (Fulfilled out_path, w)).
Proof. vm_compute. repeat split. Qed.

Lemma docs_url_is_web_record :
  web_record (record_of docs_url) ["docs"; ""].
Proof. repeat split; try reflexivity; [now right|now exists "example.com"]. Qed.

Lemma docs_path_has_one_slash : forall r, "/docs/" <> r ++ "//".
Proof.
  intros r Hr.
  assert (H : endsWith_slash (replace_trailing_slash "/docs/") = true)
    by (apply replace_trailing_slash_double; now exists r).
  vm_compute in H. discriminate H.
Qed.

Lemma joinUrl_strips_one_trailing_slash_witness :
  (sourceUrl_of (config_for "https://example.com/docs/?v=1#top")
   = Whatwg.before_path (record_of docs_url)
     ++ (replace_trailing_slash (Whatwg.pathname (record_of docs_url))
         ++ "/llms.txt")
     ++ Whatwg.after_path (record_of docs_url)
   /\ url_pathname
        (url_set_pathname docs_url
           (replace_trailing_slash (url_pathname docs_url) ++ "/llms.txt"))
      = replace_trailing_slash (url_pathname docs_url) ++ "/llms.txt")
  /\ joinUrl "example.com/" "/llms.txt"
     = replace_trailing_slash "example.com/" ++ "/llms.txt"
  /\ joinUrl ("https://example.com" ++ "/") "/llms.txt"
     = joinUrl "https://example.com" "/llms.txt"
  /\ joinUrl ("https://example.com/docs" ++ "/") "/llms.txt"
     = joinUrl "https://example.com/docs" "/llms.txt"
  /\ (joinUrl ("example.com" ++ "/") "/llms.txt"
      = joinUrl "example.com" "/llms.txt"
      /\ joinUrl "example.com" "/llms.txt" = "example.com" ++ "/llms.txt")
  /\ endsWith_slash (replace_trailing_slash "/docs/") = false.
Proof.
  destruct (joinUrl_strips_one_trailing_slash (U := url_api) (R := url_records))
    as (Hparsed & Hraw & Hslash & Hboth & Hsingle).
  split; [|split; [|split; [|split; [|split]]]].
  - apply (Hparsed (config_for "https://example.com/docs/?v=1#top") docs_url
             ["docs"; ""]); [reflexivity|exact docs_url_is_web_record].
  - apply Hraw. reflexivity.
  - apply (Hslash "https://example.com" (web "https" "example.com" [""])
             (web "https" "example.com" [""]) [""]); try reflexivity.
    + repeat split; try reflexivity; [now right|now exists "example.com"].
    + now left.
  - apply (Hslash "https://example.com/docs" (web "https" "example.com" ["docs"])
             (web "https" "example.com" ["docs"; ""]) ["docs"]);
      try reflexivity.
    + repeat split; try reflexivity; [now right|now exists "example.com"].
    + right. split; reflexivity.
  - apply Hboth; reflexivity.
  - apply Hsingle. exact docs_path_has_one_slash.
Defined.

(** The source URL of a base with a path, a query and a fragment. *)
Example sourceUrl_of_computed :
  sourceUrl_of (config_for "https://example.com/docs/?v=1#top")
  = "https://example.com/docs/llms.txt?v=1#top"
  /\ sourceUrl_of (config_for "https://example.com")
     = "https://example.com/llms.txt"
  /\ sourceUrl_of (config_for "http://user:pw@example.com:8080/a/b")
     = "http://user:pw@example.com:8080/a/b/llms.txt".
Proof. vm_compute. repeat split. Qed.

(** Where the trailing-slash claim fails: a slash appended to a base
    that carries a query lands in the query, and the two results
    differ. *)
Lemma joinUrl_trailing_slash_counterexample :
  joinUrl ("https://example.com?x=1" ++ "/") "/llms.txt"
  = "https://example.com/llms.txt?x=1/"
  /\ joinUrl "https://example.com?x=1" "/llms.txt"
     = "https://example.com/llms.txt?x=1"
  /\ joinUrl ("https://example.com?x=1" ++ "/") "/llms.txt"
     <> joinUrl "https://example.com?x=1" "/llms.txt".
Proof. vm_compute. repeat split. discriminate. Qed.


(** At 03:00 the next run at ["02:00"] is 23 hours away; at 01:00 it is
    one hour away; at 02:00 sharp it is a full day away. *)
Example msUntilNextRunAt_examples :
  msUntilNextRunAt three_am "02:00" = Some (ofZ (23 * msPerHour))
  /\ msUntilNextRunAt (env_at (1699930800000 - 2 * msPerHour)) "02:00"
     = Some (ofZ msPerHour)
  /\ msUntilNextRunAt (env_at (1699930800000 - msPerHour)) "02:00"
     = Some (ofZ msPerDay).
Proof. vm_compute. repeat split. Qed.

(** * The further properties on the scenarios *)

Import CallerScenario.

Lemma fetchTextFileWithMetadata_requests_witness :
  exists issued,
    snd (fetchTextFileWithMetadata 3 (env moved) [] "http://a.test/llms.txt"
                                   with_etag)
    = ([] ++ issued)%list
    /\ Forall (sent_with with_etag) issued.
Proof.
  apply (fetchTextFileWithMetadata_requests (env moved) with_etag 3%nat []
           "http://a.test/llms.txt"
           (fst (fetchTextFileWithMetadata 3 (env moved) []
                   "http://a.test/llms.txt" with_etag))).
  vm_compute. reflexivity.
Defined.

Lemma fetchTextFileWithMetadata_fulfilled_witness :
  let r := {| r_statusCode := 200; r_text := "moved text";
              r_etag := JString "v2";
              r_lastModified := JString "Tue, 14 Nov 2023 22:00:00 GMT" |} in
  (r_statusCode r = 200
   /\ null_or_nonempty (r_etag r) /\ null_or_nonempty (r_lastModified r))
  \/ (r_statusCode r = 304
      /\ r_text r = ""
      /\ r_etag r = or_null (o_etag with_etag)
      /\ r_lastModified r = or_null (o_lastModified with_etag)).
Proof.
  eapply (fetchTextFileWithMetadata_fulfilled (env moved) with_etag 3%nat []
            "http://a.test/llms.txt").
  vm_compute. reflexivity.
Defined.

Lemma fetchTextFile_as_fetchTextFileWithMetadata_witness :
  fetchTextFile 3 (env moved) [] "http://a.test/llms.txt"
                (o_userAgent no_validators) (o_timeoutMs no_validators)
  = (as_plain (fst (fetchTextFileWithMetadata 3 (env moved) []
                      "http://a.test/llms.txt" no_validators)),
     snd (fetchTextFileWithMetadata 3 (env moved) []
            "http://a.test/llms.txt" no_validators)).
Proof.
  apply (fetchTextFile_as_fetchTextFileWithMetadata (env moved) no_validators);
    reflexivity.
Defined.

(** A [304] is where the two differ. *)
Example not_modified_fails_the_plain_fetch :
  fst (fetchTextFile 1 (env unchanged) [] "https://example.com/llms.txt"
                     "llms-fetcher/0.1" (ofZ 20000))
  = Rejected (Error "Request failed with status 304")
  /\ fst (fetchTextFileWithMetadata 1 (env unchanged) []
            "https://example.com/llms.txt" no_validators)
     = Fulfilled {| r_statusCode := 304; r_text := "";
                    r_etag := JNull; r_lastModified := JNull |}.
Proof. vm_compute. split; reflexivity. Qed.

Lemma ensureFreshLlmsFile_frame_witness :
  let w' := snd (ensureFreshLlmsFile 1 (env origin) (config (ofZ 24))
                                     (cached 1000)) in
  (forall p, p <> outPath_of (config (ofZ 24)) ->
             p <> metaPath_of (config (ofZ 24)) ->
             files w' !! p = files (cached 1000) !! p)
  /\ (forall p, is_Some (files (cached 1000) !! p) -> is_Some (files w' !! p))
  /\ (exists issued, requests w' = (requests (cached 1000) ++ issued)%list)
  /\ (warnings w' = warnings (cached 1000)
      \/ exists msg, warnings w' = (warnings (cached 1000) ++ [msg])%list).
Proof.
  exact (ensureFreshLlmsFile_frame 1 (env origin) (config (ofZ 24)) (cached 1000)).
Defined.

Lemma ensureFreshLlmsFile_rejection_leaves_files_witness :
  let w' := snd (ensureFreshLlmsFile 1 (env_full_disk origin) (config (ofZ 24))
                                     empty_world) in
  files w' = files empty_world
  \/ exists resp log written,
       conditional_fetch 1 (env_full_disk origin) (config (ofZ 24)) empty_world
       = (Fulfilled resp, log)
       /\ r_statusCode resp <> 304
       /\ existsSync empty_world (outPath_of (config (ofZ 24))) = false
       /\ mkdir_error (env_full_disk origin) (outputDir (config (ofZ 24))) = None
       /\ write_fault (env_full_disk origin) (outPath_of (config (ofZ 24)))
          = Some (WriteFails (Error "ENOSPC: no space left on device") written)
       /\ files w'
          = <[outPath_of (config (ofZ 24))
                := Text (String.substring 0 written (r_text resp))]>
              (files empty_world).
Proof.
  apply (ensureFreshLlmsFile_rejection_leaves_files 1 (env_full_disk origin)
           (config (ofZ 24)) empty_world
           (Error "ENOSPC: no space left on device")).
  vm_compute. reflexivity.
Defined.

(** A disk that fills up two bytes into the content file: without a
    cached copy the call rejects and leaves a file of two bytes; with one
    it serves the path of the copy, which now holds those two bytes. *)
Example full_disk_leaves_a_partial_file :
  (let r := ensureFreshLlmsFile 1 (env_full_disk origin) (config (ofZ 24))
                                empty_world in
   fst r = Rejected (Error "ENOSPC: no space left on device")
   /\ files (snd r) !! out_path = Some (Text "he"))
  /\ (let r := ensureFreshLlmsFile 1 (env_full_disk origin) (config (ofZ 24))
                                   (cached 1000) in
      fst r = Fulfilled out_path
      /\ files (cached 1000) !! out_path = Some (Text "old")
      /\ files (snd r) !! out_path = Some (Text "he")
      /\ files (snd r) !! meta_path = files (cached 1000) !! meta_path).
Proof. vm_compute. repeat split. Qed.

Lemma ensureFreshLlmsFile_fulfilled_witness :
  out_path = outPath_of (config (ofZ 24))
  /\ (existsSync (snd (ensureFreshLlmsFile 1 (env origin) (config (ofZ 24))
                                           empty_world))
                 (outPath_of (config (ofZ 24))) = true
      \/ (existsSync empty_world (outPath_of (config (ofZ 24))) = false
          /\ exists resp log,
               conditional_fetch 1 (env origin) (config (ofZ 24)) empty_world
               = (Fulfilled resp, log)
               /\ r_statusCode resp = 304)).
Proof.
  apply (ensureFreshLlmsFile_fulfilled 1 (env origin) (config (ofZ 24))
           empty_world out_path).
  vm_compute. reflexivity.
Defined.

Lemma content_write_failure_is_handled_like_fetch_failure_witness :
  exists fs,
    (existsSync (cached 1000) (outPath_of (config (ofZ 24))) = true ->
     ensureFreshLlmsFile 1 (env_full_disk origin) (config (ofZ 24))
                         (cached 1000)
     = (Fulfilled (outPath_of (config (ofZ 24))),
        {| files := fs;
           requests := [llms_request (Some (JString "abc")) None];
           warnings :=
             (warnings (cached 1000)
              ++ [("llms-fetcher ensureFresh: "
                   ++ message_of (Error "ENOSPC: no space left on device")
                   ++ " (serving cached)")%string])%list |}))
    /\ (existsSync (cached 1000) (outPath_of (config (ofZ 24))) = false ->
        ensureFreshLlmsFile 1 (env_full_disk origin) (config (ofZ 24))
                            (cached 1000)
        = (Rejected (Error "ENOSPC: no space left on device"),
           {| files := fs;
              requests := [llms_request (Some (JString "abc")) None];
              warnings := warnings (cached 1000) |}))
    /\ (forall q, q <> outPath_of (config (ofZ 24)) ->
                  fs !! q = files (cached 1000) !! q)
    /\ (fs = files (cached 1000)
        \/ exists written,
             mkdir_error (env_full_disk origin) (outputDir (config (ofZ 24)))
             = None
             /\ write_fault (env_full_disk origin) (outPath_of (config (ofZ 24)))
                = Some (WriteFails (Error "ENOSPC: no space left on device")
                                   written)
             /\ fs = <[outPath_of (config (ofZ 24))
                         := Text (String.substring 0 written "hello")]>
                       (files (cached 1000))).
Proof.
  apply (content_write_failure_is_handled_like_fetch_failure 1
           (env_full_disk origin) (config (ofZ 24)) (cached 1000)
           {| r_statusCode := 200; r_text := "hello";
              r_etag := JString "abc"; r_lastModified := JNull |}).
  - discriminate.
  - reflexivity.
  - vm_compute. reflexivity.
  - discriminate.
  - reflexivity.
Defined.

Lemma ensureFreshLlmsFile_with_invalid_url_witness :
  requests (snd (ensureFreshLlmsFile 1 (env origin) config_without_scheme
                                     empty_world))
  = requests empty_world
  /\ files (snd (ensureFreshLlmsFile 1 (env origin) config_without_scheme
                                     empty_world))
     = files empty_world
  /\ (existsSync empty_world (outPath_of config_without_scheme) = true ->
      fst (ensureFreshLlmsFile 1 (env origin) config_without_scheme empty_world)
      = Fulfilled (outPath_of config_without_scheme))
  /\ (existsSync empty_world (outPath_of config_without_scheme) = false ->
      fst (ensureFreshLlmsFile 1 (env origin) config_without_scheme empty_world)
      = Rejected (Error ("Invalid URL: "
                         ++ replace_trailing_slash (publicUrl config_without_scheme)
                         ++ "/llms.txt"))).
Proof.
  apply (ensureFreshLlmsFile_with_invalid_url 1 (env origin)
           config_without_scheme empty_world).
  - discriminate.
  - reflexivity.
  - reflexivity.
Defined.

Lemma cached_metadata_well_formed :
  metadata_well_formed (files (cached 1000) !! metaPath_of (config (ofZ 24))).
Proof.
  right. exists (JString "abc"), JNull, 1000. split; [reflexivity|].
  split; [right; exists "abc"; split; [discriminate|reflexivity]|now left].
Qed.

Lemma ensureFreshLlmsFile_keeps_metadata_sound_witness :
  metadata_sound
    (files (snd (ensureFreshLlmsFile 3 (env_torn_meta moved) (config (ofZ 24))
                                     (cached 1000)))
     !! metaPath_of (config (ofZ 24)))
  /\ metadata_well_formed
       (files (snd (ensureFreshLlmsFile 3 (env moved) (config (ofZ 24))
                                        (cached 1000)))
        !! metaPath_of (config (ofZ 24))).
Proof.
  assert (Hpaths : outPath_of (config (ofZ 24)) <> metaPath_of (config (ofZ 24)))
    by (vm_compute; discriminate).
  split.
  - apply (proj1 (ensureFreshLlmsFile_keeps_metadata_sound 3
                    (env_torn_meta moved) (config (ofZ 24)) (cached 1000)
                    Hpaths)).
    left. exact cached_metadata_well_formed.
  - apply (proj2 (ensureFreshLlmsFile_keeps_metadata_sound 3
                    (env moved) (config (ofZ 24)) (cached 1000) Hpaths)).
    + exact cached_metadata_well_formed.
    + discriminate.
Defined.

(** The metadata file after a write that the full disk cut short. *)
Example torn_metadata_computed :
  files (snd (ensureFreshLlmsFile 3 (env_torn_meta moved) (config (ofZ 24))
                                  (cached 1000)))
  !! meta_path
  = Some (TornJson 10
            (meta_record (JString "v2")
                         (JString "Tue, 14 Nov 2023 22:00:00 GMT") clock)).
Proof. vm_compute. reflexivity. Qed.


Lemma msUntilNextRunAt_accepts_any_digits_witness :
  exists d,
    msUntilNextRunAt three_am "24:75" = Some (ofZ d)
    /\ 0 < d <= Z.max msPerDay (24 * msPerHour + 75 * msPerMinute)
    /\ local_time_of_day three_am (Date_now three_am + d)
       = (24 * msPerHour + 75 * msPerMinute) mod msPerDay.
Proof.
  apply (msUntilNextRunAt_accepts_any_digits three_am "24" "75").
  - reflexivity.
  - reflexivity.
  - vm_compute. intros H. discriminate H.
Defined.

(** At 03:00, [24:75] is taken as 01:15 of the day after tomorrow's
    midnight. *)
Example msUntilNextRunAt_out_of_range :
  msUntilNextRunAt three_am "24:75" = Some (ofZ (22 * msPerHour + 15 * msPerMinute))
  /\ msUntilNextRunAt three_am "2:5" = Some (ofZ (23 * msPerHour + 5 * msPerMinute))
  /\ msUntilNextRunAt three_am ":" = Some (ofZ (21 * msPerHour)).
Proof. vm_compute. repeat split; reflexivity. Qed.

Lemma msUntilNextRunAt_without_minutes_witness :
  msUntilNextRunAt three_am "0200" = Some NaN.
Proof.
  apply (msUntilNextRunAt_without_minutes three_am "0200"). reflexivity.
Defined.

Lemma runOnce_never_rejects_witness :
  fst (fst (runOnce 1 (env refusing) (config (ofZ 24)) console empty_world []))
  = Fulfilled tt.
Proof.
  destruct (runOnce_never_rejects 1 (env refusing) (config (ofZ 24)) console
              empty_world [] ltac:(discriminate)) as (_ & _ & H & _).
  apply (H (Error "connect ECONNREFUSED")). vm_compute. reflexivity.
Defined.

(** What [console] shows of a run that fails and of one that saves. *)
Example runOnce_on_console :
  snd (runOnce 1 (env refusing) (config (ofZ 24)) console empty_world [])
  = [Said "error" "llms-fetcher error: connect ECONNREFUSED";
     Said "log" "llms-fetcher error: connect ECONNREFUSED"]
  /\ snd (runOnce 1 (env origin) (config (ofZ 24)) console empty_world [])
     = [Said "info"
             "llms-fetcher: saved https://example.com/llms.txt -> /app/public/llms.txt";
        Said "log"
             "llms-fetcher: saved https://example.com/llms.txt -> /app/public/llms.txt"].
Proof. vm_compute. split; reflexivity. Qed.


(** The period is the floor of a product of binary64 numbers: every
    2.27 hours is every 8171999 ms, every half hour is every 1800000 ms,
    and an interval below one millisecond is one millisecond. *)
Example interval_period_is_rounded :
  startDailyScheduler (env origin)
    (config_every (binary64 (227 # 100)))
  = Some (inr (RunNowThenEvery (ofZ 8171999)))
  /\ startDailyScheduler (env origin) config_half_hourly
     = Some (inr (RunNowThenEvery (ofZ 1800000)))
  /\ startDailyScheduler (env origin) (config_every (Finite (1 # 16777216)))
     = Some (inr (RunNowThenEvery (ofZ 1))).
Proof. vm_compute. repeat split. Qed.

Lemma parseArgs_unknown_flag_witness :
  parseArgs ("node" :: "llms-fetcher"
             :: (["run"; "--public-url"; "https://example.com"]
                 ++ "--ttl-hours" :: ["12"])%list)
  = inl "--ttl-hours".
Proof.
  eapply (parseArgs_unknown_flag "node" "llms-fetcher"
            ["run"; "--public-url"; "https://example.com"]).
  - reflexivity.
  - reflexivity.
  - repeat split; reflexivity.
Defined.

Lemma parseArgs_render_witness :
  parseArgs ("node" :: "llms-fetcher" :: render run_with_flags)
  = inr run_with_flags.
Proof.
  apply (parseArgs_render "node" "llms-fetcher" run_with_flags).
  constructor; [left; reflexivity|constructor].
Defined.

Lemma resolveConfig_precedence_witness :
  let r := resolveConfig project package_json_path (cli_object empty_cli)
                         env_with_url in
  rs_publicUrl r = Some (JString "https://env.example")
  /\ rs_ttlHours r = ofZ 24
  /\ rs_ttlHours (resolveConfig project package_json_path
                    (cli_object empty_cli) env_with_half_hour_ttl)
     = Number_of_string "0.5".
Proof.
  cbv zeta.
  destruct (resolveConfig_precedence project package_json_path empty_cli
              env_with_url) as (_ & Hurl & _ & _ & _ & Httl).
  destruct (resolveConfig_precedence project package_json_path empty_cli
              env_with_half_hour_ttl) as (_ & _ & _ & Henv & _).
  split; [|split].
  - apply Hurl; [now left|reflexivity|discriminate].
  - apply (Httl (or_introl eq_refl) (ofZ 0)). vm_compute. reflexivity.
  - apply Henv; [reflexivity|discriminate].
Defined.

(** Numeric options are whatever [Number] makes of their text. *)
Example numeric_options_computed :
  Number_of_string "0.5" = Finite (1 # 2)
  /\ Number_of_string "abc" = NaN
  /\ Number_of_string "1e4" = ofZ 10000
  /\ Number_of_string " 20000 " = ofZ 20000
  /\ Number_of_string "" = ofZ 0
  /\ Number_of_string "0x10" = ofZ 16
  /\ Number_of_string "Infinity" = PosInfinity
  /\ rs_ttlHours (resolveConfig project package_json_path
                    (cli_object empty_cli) env_with_half_hour_ttl)
     = Finite (1 # 2)
  /\ rs_timeoutMs (resolveConfig project package_json_path
                     (cli_object run_with_text_timeout) no_env)
     = NaN.
Proof. vm_compute. repeat split. Qed.

Lemma project_options_are_text :
  package_options_are_text project package_json_path.
Proof. repeat constructor. Qed.


Lemma main_help_and_dry_run_witness :
  main 1 (env origin) project package_json_path
       ["node"; "llms-fetcher"; "--dry-run"; "-h"] no_env
  = Some (Exited 0, project, [Said "log" help_text])
  /\ (exists msg,
        main 1 (env origin) empty_world package_json_path
             ["node"; "llms-fetcher"; "run"; "--dry-run"] no_env
        = Some (Exited 1, empty_world, [Said "error" msg]))
  /\ (exists config,
        to_Config (resolveConfig project package_json_path
                     (cli_object dry_run) no_env)
        = Some config
        /\ main 1 (env origin) project package_json_path
                ["node"; "llms-fetcher"; "run"; "--dry-run"] no_env
           = Some (Exited 0, project,
                   [Said "log" ("Dry run: would fetch "
                                ++ sourceUrl_of config ++ " -> "
                                ++ outPath_of config)])).
Proof.
  split; [|split].
  - apply (proj1 (main_help_and_dry_run 1 (env origin) project
                    package_json_path
                    ["node"; "llms-fetcher"; "--dry-run"; "-h"] no_env
                    {| cli_positional := ["-h"]; cli_publicUrl := None;
                       cli_outputDir := None; cli_outputFile := None;
                       cli_runAt := None; cli_userAgent := None;
                       cli_timeoutMs := None; cli_dryRun := true |}
                    eq_refl)).
    reflexivity.
  - apply (proj2 (main_help_and_dry_run 1 (env origin) empty_world
                    package_json_path
                    ["node"; "llms-fetcher"; "run"; "--dry-run"] no_env
                    dry_run eq_refl)); reflexivity.
  - apply (proj2 (main_help_and_dry_run 1 (env origin) project
                    package_json_path
                    ["node"; "llms-fetcher"; "run"; "--dry-run"] no_env
                    dry_run eq_refl)); try reflexivity.
    exact project_options_are_text.
Defined.

(** The line a dry run prints. *)
Example dry_run_computed :
  main 1 (env origin) project package_json_path
       ["node"; "llms-fetcher"; "run"; "--dry-run"] no_env
  = Some (Exited 0, project,
          [Said "log"
             "Dry run: would fetch https://example.com/llms.txt -> /app/public/llms.txt"])
  /\ main 1 (env origin) project package_json_path
          ["node"; "llms-fetcher"; "run"; "--dry-run"; "--timeout-ms"; "2.5"]
          env_with_half_hour_ttl
     = Some (Exited 0, project,
             [Said "log"
                "Dry run: would fetch https://example.com/llms.txt -> /app/public/llms.txt"]).
Proof. vm_compute. split; reflexivity. Qed.

(** What the command line does on the project of [CallerScenario]: a
    run, an unknown flag, a flag taken as the value of another, and a run
    time without minutes. *)
Example main_on_the_project :
  (exists w',
     main 1 (env origin) project package_json_path
          ["node"; "llms-fetcher"; "run"] no_env
     = Some (Exited 0, w',
             [Said "log" "Saved https://example.com/llms.txt -> /app/public/llms.txt"])
     /\ files w' !! "/app/public/llms.txt" = Some (Text "hello"))
  /\ main 1 (env origin) project package_json_path
          ["node"; "llms-fetcher"; "run"; "--verbose"] no_env
     = Some (Exited 1, project, [Said "error" "Unknown flag: --verbose"])
  /\ main 1 (env origin) project package_json_path
          ["node"; "llms-fetcher"; "--public-url"; "-h"] no_env
     = Some (Exited 1, project,
             [Said "error" "llms-fetcher error: Invalid URL: -h/llms.txt"])
  /\ main 1 (env origin) project package_json_path
          ["node"; "llms-fetcher"; "watch"; "--run-at"; "12"] no_env
     = Some (Watching (RunAfterThenDaily NaN), project,
             [Said "log" "Scheduling daily fetch at 12 for https://example.com/llms.txt"]).
Proof.
  split; [|split; [|split]].
  - eexists. split; vm_compute; reflexivity.
  - vm_compute. reflexivity.
  - vm_compute. reflexivity.
  - vm_compute. reflexivity.
Qed.
